(** * go-satellite: parsing and normalising two-line element sets

    A shallow embedding of [helpers.go]: the two parsers [ParseTLE] and
    [ParseTLEV2], the two converters [TLEToSat] and [TLEToSatV2], and the
    strict scalar parsers [parseFloat] and [parseInt].

    Go strings are byte sequences: they are modelled by [string], whose
    characters are the bytes.  A Go call either returns or panics: it is
    modelled by [outcome].  [float64] values are IEEE 754 binary64 numbers,
    modelled by the Standard Library's [spec_float] at precision 53. *)

From Stdlib Require Import ZArith QArith Bool List String Ascii Lia.
From Stdlib Require Import Floats.
Import ListNotations.

Set Warnings "-inexact-float".

Local Open Scope string_scope.
Local Open Scope Z_scope.

(** ** Errors, panics and the outcome of a call *)

(** The causes a [*strconv.NumError] carries. *)
Inductive numErr : Type :=
| ErrSyntax
| ErrRange
| ErrBitSize (bitSize : Z).

(** Go [error] values met by this program: a [*strconv.NumError], an error
    wrapped by [errors.Wrap], and any other error with its message. *)
Inductive error : Type :=
| NumError (Func Num : string) (Err : numErr)
| WithMessage (cause : error) (msg : string)
| ErrorString (msg : string).

(** What a call can abort with. *)
Inductive panic : Type :=
| SliceBounds (hi len : nat)
| SliceOrder (lo hi : nat)
| NilDereference
| LogPanic (err : error)
| Fault (msg : string).

Inductive outcome (A : Type) : Type :=
| Return (a : A)
| Panic (p : panic).

Arguments Return {A} a.
Arguments Panic {A} p.

Definition bind {A B : Type} (m : outcome A) (k : A -> outcome B) : outcome B :=
  match m with
  | Return a => k a
  | Panic p => Panic p
  end.

Notation "x <- m ;; k" := (bind m (fun x => k))
  (at level 61, m at next level, right associativity).
Notation "' p <- m ;; k" := (bind m (fun x => let 'p := x in k))
  (at level 61, p pattern, m at next level, right associativity).

(** ** Bytes and strings *)

Definition code (c : ascii) : Z := Z.of_N (N_of_ascii c).

Definition bytes (l : list nat) : string :=
  string_of_list_ascii (map ascii_of_nat l).

Fixpoint drop (n : nat) (s : string) : string :=
  match n, s with
  | O, _ => s
  | S k, EmptyString => EmptyString
  | S k, String _ s' => drop k s'
  end.

Fixpoint rev_append (s acc : string) : string :=
  match s with
  | EmptyString => acc
  | String c s' => rev_append s' (String c acc)
  end.

Definition rev (s : string) : string := rev_append s EmptyString.

(** The slice expression [s[lo:hi]]: a run-time panic when [hi] exceeds the
    length of [s]. *)
Definition slice (s : string) (lo hi : nat) : outcome string :=
  if (hi <=? String.length s)%nat then
    if (lo <=? hi)%nat then Return (substring lo (hi - lo) s)
    else Panic (SliceOrder lo hi)
  else Panic (SliceBounds hi (String.length s)).

Module strings.

(** [strings.Replace(s, old, new, n)] for a non-empty [old]: the first [n]
    non-overlapping occurrences of [old], from the left, are replaced by
    [new]; all of them when [n < 0].  [skip] counts the bytes of a matched
    occurrence still to be passed over.  (For an empty [old] Go inserts [new]
    at UTF-8 rune boundaries; the program never does that and the model
    leaves [s] unchanged then.) *)
Fixpoint replaceFrom (skip : nat) (n : Z) (old new s : string) : string :=
  match s with
  | EmptyString => EmptyString
  | String c s' =>
      match skip with
      | S k => replaceFrom k n old new s'
      | O =>
          if n =? 0 then s
          else if prefix old s
               then new ++ replaceFrom (String.length old - 1) (n - 1) old new s'
               else String c (replaceFrom O n old new s')
      end
  end.

Definition Replace (s old new : string) (n : Z) : string :=
  match old with
  | EmptyString => s
  | _ => replaceFrom O n old new s
  end.

(** The UTF-8 encodings of the runes for which [unicode.IsSpace] holds:
    the six ASCII ones, U+0085, U+00A0, U+1680, U+2000 to U+200A, U+2028,
    U+2029, U+202F, U+205F and U+3000. *)
Definition spaceRunes : list string :=
  map bytes
    [ [9]; [10]; [11]; [12]; [13]; [32]; [194; 133]; [194; 160];
      [225; 154; 128];
      [226; 128; 128]; [226; 128; 129]; [226; 128; 130]; [226; 128; 131];
      [226; 128; 132]; [226; 128; 133]; [226; 128; 134]; [226; 128; 135];
      [226; 128; 136]; [226; 128; 137]; [226; 128; 138];
      [226; 128; 168]; [226; 128; 169]; [226; 128; 175];
      [226; 129; 159]; [227; 128; 128] ]%nat.

Fixpoint trimPrefixes (runes : list string) (fuel : nat) (s : string) : string :=
  match fuel with
  | O => s
  | S k =>
      match find (fun r => prefix r s) runes with
      | Some r => trimPrefixes runes k (drop (String.length r) s)
      | None => s
      end
  end.

Definition TrimLeftSpace (s : string) : string :=
  trimPrefixes spaceRunes (String.length s) s.

Definition TrimRightSpace (s : string) : string :=
  rev (trimPrefixes (map rev spaceRunes) (String.length s) (rev s)).

(** [strings.TrimSpace]: leading, then trailing white space removed. *)
Definition TrimSpace (s : string) : string :=
  TrimRightSpace (TrimLeftSpace s).

End strings.

(** ** binary64 *)

Definition float64 : Type := spec_float.

Module F64.

Definition prec : Z := 53.
Definition emax : Z := 1024.

Definition zero (neg : bool) : float64 := S754_zero neg.
Definition inf (neg : bool) : float64 := S754_infinity neg.
Definition nan : float64 := S754_nan.

Definition mul : float64 -> float64 -> float64 := SFmul prec emax.
Definition div : float64 -> float64 -> float64 := SFdiv prec emax.
Definition sub : float64 -> float64 -> float64 := SFsub prec emax.

(** The binary64 number nearest to [n / d] (ties to even), with the sign
    [neg], for [0 <= n] and [0 < d]; an infinity when the quotient is beyond
    the largest finite number. *)
Definition of_ratio (neg : bool) (n d : Z) : float64 :=
  match n with
  | Z0 => S754_zero neg
  | _ =>
      let '(q, e, l) := SFdiv_core_binary prec emax n 0 d 0 in
      binary_round_aux prec emax neg q e l
  end.

(** The binary64 number nearest to [m * 2^e], with the sign [neg]. *)
Definition of_binary (neg : bool) (m : Z) (e : Z) : float64 :=
  match m with
  | Zpos p => binary_round prec emax neg p e
  | _ => S754_zero neg
  end.

(** The binary64 number nearest to [m * 10^e], with the sign [neg]. *)
Definition of_decimal (neg : bool) (m : Z) (e : Z) : float64 :=
  if 0 <=? e then of_ratio neg (m * 10 ^ e) 1
  else of_ratio neg m (10 ^ (- e)).

(** The conversion of an exact constant to [float64]. *)
Definition of_Q (q : Q) : float64 :=
  of_ratio (Qnum q <? 0) (Z.abs (Qnum q)) (Zpos (Qden q)).

Definition is_inf (x : float64) : bool :=
  match x with
  | S754_infinity _ => true
  | _ => false
  end.

(** The numerator and the denominator of [n / d] over [2^e]. *)
Definition scaled (n d e : Z) : Z * Z :=
  (if 0 <=? e then n else n * 2 ^ (- e), if 0 <=? e then d * 2 ^ e else d).

(** What it is to be the binary64 number nearest to [n / d] with the sign
    [neg], for [0 <= n] and [0 < d], stated without the rounding itself.
    A finite [x] is a number of the format no further from [n / d] than half
    the distance to either of its neighbours, and of even mantissa when
    [n / d] lies half-way (below the mantissa [2^52] of a normal number the
    neighbour is at half the distance).  A zero stands for the quotients up
    to half the least positive number, [2^-1074]; an infinity for those from
    half-way between the largest finite number and [2^1024]. *)
Definition nearest (neg : bool) (n d : Z) (x : float64) : bool :=
  match x with
  | S754_zero s => Bool.eqb s neg && (2 * (n * 2 ^ 1074) <=? d)
  | S754_infinity s => Bool.eqb s neg && ((2 ^ 54 - 1) * 2 ^ 970 * d <=? n)
  | S754_nan => false
  | S754_finite s m e =>
      let m := Zpos m in
      let '(a, b) := scaled n d e in
      let below :=
        if (m =? 2 ^ 52) && (-1074 <? e)
        then (4 * m - 1) * b <=? 4 * a
        else ((2 * m - 1) * b <? 2 * a)
             || (((2 * m - 1) * b =? 2 * a) && Z.even m) in
      let above :=
        (2 * a <? (2 * m + 1) * b)
        || ((2 * a =? (2 * m + 1) * b) && Z.even m) in
      Bool.eqb s neg && SpecFloat.valid_binary prec emax x && below && above
  end.

(** The same for [m * 10^e] and for an exact constant. *)
Definition nearest_decimal (neg : bool) (m e : Z) (x : float64) : bool :=
  if 0 <=? e then nearest neg (m * 10 ^ e) 1 x
  else nearest neg m (10 ^ (- e)) x.

Definition nearest_Q (q : Q) (x : float64) : bool :=
  nearest (Qnum q <? 0) (Z.abs (Qnum q)) (Zpos (Qden q)) x.

End F64.

(** *** The place of a number between two mantissas

    [locates num den m l]: the quotient [num / den] is at [m] ([loc_Exact]),
    or strictly between [m] and [m + 1], below, at or above the middle.
    [remains] says the same of the remainder [num - m * den], and [near] is
    what the rounding to the nearest, ties to even, leaves: [m] is the
    integer nearest to [a / b], and when [tight] the grid below [m] is twice
    as dense. *)

Definition locates (num den m : Z) (l : location) : Prop :=
  match l with
  | loc_Exact => num = m * den
  | loc_Inexact Lt => 2 * m * den < 2 * num < (2 * m + 1) * den
  | loc_Inexact Eq => 2 * num = (2 * m + 1) * den
  | loc_Inexact Gt => (2 * m + 1) * den < 2 * num < (2 * m + 2) * den
  end.

Definition remains (r den : Z) (l : location) : Prop :=
  match l with
  | loc_Exact => r = 0
  | loc_Inexact Lt => 0 < 2 * r < den
  | loc_Inexact Eq => 2 * r = den
  | loc_Inexact Gt => den < 2 * r < 2 * den
  end.

Definition near (a b m : Z) (tight : bool) : Prop :=
  (if tight then (4 * m - 1) * b <= 4 * a
   else (2 * m - 1) * b < 2 * a \/ ((2 * m - 1) * b = 2 * a /\ Z.even m = true)) /\
  (2 * a < (2 * m + 1) * b \/ (2 * a = (2 * m + 1) * b /\ Z.even m = true)).

(** ** strconv

    The two library parsers the program calls, after the documentation and
    the sources of Go's [strconv]: [ParseInt] in base 10 (the only base the
    program asks for) and [ParseFloat] at 64 bits.  Both return a value and
    an error, [None] standing for [nil]. *)

Module strconv.

Definition syntaxError (fn str : string) : error := NumError fn str ErrSyntax.
Definition rangeError (fn str : string) : error := NumError fn str ErrRange.
Definition bitSizeError (fn str : string) (bitSize : Z) : error :=
  NumError fn str (ErrBitSize bitSize).

Definition isDigit (c : ascii) : bool := (48 <=? code c) && (code c <=? 57).

(** [lower(c)] is [c | ('x' - 'X')]. *)
Definition lower (c : ascii) : Z := Z.lor (code c) 32.

Definition uint64 (z : Z) : Z := z mod 2 ^ 64.
Definition int64 (z : Z) : Z := (z + 2 ^ 63) mod 2 ^ 64 - 2 ^ 63.

Definition maxUint64 : Z := 2 ^ 64 - 1.

(** The value of a byte as a digit, letters standing for ten and more. *)
Definition digitVal (c : ascii) : option Z :=
  if isDigit c then Some (code c - 48)
  else if (97 <=? lower c) && (lower c <=? 122) then Some (lower c - 97 + 10)
  else None.

(** The loop of [ParseUint] in base 10, [n] being the number read so far.
    It stops at the first byte that is no digit of the base, and at the
    first overflow of 64 bits or of [maxVal]. *)
Fixpoint parseUintLoop (maxVal : Z) (s0 s : string) (n : Z) : Z * option error :=
  match s with
  | EmptyString => (n, None)
  | String c s' =>
      match digitVal c with
      | None => (0, Some (syntaxError "ParseUint" s0))
      | Some d =>
          if d >=? 10 then (0, Some (syntaxError "ParseUint" s0))
          else if n >=? maxUint64 / 10 + 1
          then (maxVal, Some (rangeError "ParseUint" s0))
          else
            let n10 := uint64 (n * 10) in
            let n1 := uint64 (n10 + d) in
            if (n1 <? n10) || (n1 >? maxVal)
            then (maxVal, Some (rangeError "ParseUint" s0))
            else parseUintLoop maxVal s0 s' n1
      end
  end.

(** [strconv.ParseUint(s, 10, bitSize)]; [IntSize] is the size of [int] on
    the platform. *)
Definition ParseUint (IntSize : Z) (s : string) (bitSize : Z) : Z * option error :=
  match s with
  | EmptyString => (0, Some (syntaxError "ParseUint" s))
  | _ =>
      if (bitSize <? 0) || (bitSize >? 64)
      then (0, Some (bitSizeError "ParseUint" s bitSize))
      else
        let bitSize := if bitSize =? 0 then IntSize else bitSize in
        parseUintLoop (2 ^ bitSize - 1) s s 0
  end.

(** [strconv.ParseInt(s, 10, bitSize)]. *)
Definition ParseInt (IntSize : Z) (s : string) (bitSize : Z) : Z * option error :=
  match s with
  | EmptyString => (0, Some (syntaxError "ParseInt" s))
  | String c r =>
      let '(neg, digits) :=
        if (c =? "+")%char then (false, r)
        else if (c =? "-")%char then (true, r)
        else (false, s) in
      let '(un, err) := ParseUint IntSize digits bitSize in
      let checked :=
        let bitSize := if bitSize =? 0 then IntSize else bitSize in
        let cutoff := 2 ^ (bitSize - 1) in
        if negb neg && (un >=? cutoff)
        then (int64 (cutoff - 1), Some (rangeError "ParseInt" s))
        else if neg && (un >? cutoff)
        then (int64 (- cutoff), Some (rangeError "ParseInt" s))
        else
          let n := int64 un in
          (if neg then int64 (- n) else n, None) in
      match err with
      | None => checked
      | Some (NumError _ _ ErrRange) => checked
      | Some (NumError _ _ cause) => (0, Some (NumError "ParseInt" s cause))
      | Some e => (0, Some e)
      end
  end.

(** *** ParseFloat *)

Fixpoint commonPrefixLenIgnoreCase (s pre : string) : nat :=
  match s, pre with
  | String c s', String p pre' =>
      let c' := if (65 <=? code c) && (code c <=? 90) then code c + 32 else code c in
      if c' =? code p then S (commonPrefixLenIgnoreCase s' pre') else O
  | _, _ => O
  end.

(** [special]: the infinities and NaN, with the number of bytes read. *)
Definition special (s : string) : option (float64 * nat) :=
  let infinity (neg : bool) (nsign : nat) (r : string) :=
    let n := commonPrefixLenIgnoreCase r "infinity" in
    let n := if (3 <? n)%nat && (n <? 8)%nat then 3%nat else n in
    if (n =? 3)%nat || (n =? 8)%nat then Some (F64.inf neg, (nsign + n)%nat)
    else None in
  match s with
  | EmptyString => None
  | String c r =>
      if (c =? "+")%char then infinity false 1%nat r
      else if (c =? "-")%char then infinity true 1%nat r
      else if (c =? "i")%char || (c =? "I")%char then infinity false 0%nat s
      else if (c =? "n")%char || (c =? "N")%char then
        if (commonPrefixLenIgnoreCase s "nan" =? 3)%nat then Some (F64.nan, 3%nat)
        else None
      else None
  end.

(** [underscoreOK]: underscores only between digits, or between a base
    prefix and a digit.  [saw] is the kind of the last byte seen. *)
Inductive sawKind : Type := SawStart | SawDigit | SawUnderscore | SawOther.

Fixpoint underscoreLoop (hex : bool) (s : string) (saw : sawKind) : bool :=
  match s with
  | EmptyString => match saw with SawUnderscore => false | _ => true end
  | String c s' =>
      if isDigit c || (hex && (97 <=? lower c) && (lower c <=? 102))
      then underscoreLoop hex s' SawDigit
      else if (c =? "_")%char then
        match saw with
        | SawDigit => underscoreLoop hex s' SawUnderscore
        | _ => false
        end
      else
        match saw with
        | SawUnderscore => false
        | _ => underscoreLoop hex s' SawOther
        end
  end.

Definition underscoreOK (s : string) : bool :=
  let s :=
    match s with
    | String c r => if (c =? "-")%char || (c =? "+")%char then r else s
    | EmptyString => s
    end in
  match s with
  | String c0 (String c1 r) =>
      if (c0 =? "0")%char
         && ((lower c1 =? 98) || (lower c1 =? 111) || (lower c1 =? 120))
      then underscoreLoop (lower c1 =? 120) r SawDigit
      else underscoreLoop false s SawStart
  | _ => underscoreLoop false s SawStart
  end.

(** The state of the mantissa loop of [readFloat].  The model keeps every
    digit of the mantissa (Go keeps nineteen and a flag for the rest, and
    rounds from the full decimal when the flag is set). *)
Record digits : Type := mkDigits {
  mant : Z;
  nd : Z;
  dp : Z;
  sawdot : bool;
  sawdigits : bool;
  underscores : bool
}.

Definition noDigits : digits := mkDigits 0 0 0 false false false.

Fixpoint readDigits (hex : bool) (s : string) (st : digits) : digits * string :=
  match s with
  | EmptyString => (st, s)
  | String c s' =>
      if (c =? "_")%char then
        readDigits hex s'
          (mkDigits (mant st) (nd st) (dp st) (sawdot st) (sawdigits st) true)
      else if (c =? ".")%char then
        if sawdot st then (st, s)
        else readDigits hex s'
               (mkDigits (mant st) (nd st) (nd st) true (sawdigits st) (underscores st))
      else if isDigit c then
        if (c =? "0")%char && (nd st =? 0) then
          readDigits hex s'
            (mkDigits (mant st) (nd st) (dp st - 1) (sawdot st) true (underscores st))
        else
          readDigits hex s'
            (mkDigits (mant st * (if hex then 16 else 10) + (code c - 48))
                      (nd st + 1) (dp st) (sawdot st) true (underscores st))
      else if hex && (97 <=? lower c) && (lower c <=? 102) then
        readDigits hex s'
          (mkDigits (mant st * 16 + (lower c - 97 + 10))
                    (nd st + 1) (dp st) (sawdot st) true (underscores st))
      else (st, s)
  end.

Fixpoint readExponent (s : string) (e : Z) (us : bool) : Z * bool * string :=
  match s with
  | EmptyString => (e, us, s)
  | String c s' =>
      if (c =? "_")%char then readExponent s' e true
      else if isDigit c then
        readExponent s' (if e <? 10000 then e * 10 + (code c - 48) else e) us
      else (e, us, s)
  end.

(** What [readFloat] hands on: the sign, the base, the mantissa, the
    exponent of the base ten (or two) that scales it, and the position
    [point] of the decimal point relative to the first digit. *)
Record number : Type := mkNumber {
  neg : bool;
  hex : bool;
  mantissa : Z;
  exp : Z;
  point : Z
}.

(** [readFloat]: the number at the head of [s] and what follows it, or
    [None] when there is no well-formed number. *)
Definition readFloat (s : string) : option (number * string) :=
  match s with
  | EmptyString => None
  | String c r =>
      let '(neg, s1) :=
        if (c =? "+")%char then (false, r)
        else if (c =? "-")%char then (true, r)
        else (false, s) in
      let '(hex, s2) :=
        match s1 with
        | String c0 (String c1 (String c2 r2)) =>
            if (c0 =? "0")%char && (lower c1 =? 120) then (true, String c2 r2)
            else (false, s1)
        | _ => (false, s1)
        end in
      let '(st, s3) := readDigits hex s2 noDigits in
      if negb (sawdigits st) then None
      else
        let dp := if sawdot st then dp st else nd st in
        let dp := if hex then dp * 4 else dp in
        let ndMant := if hex then nd st * 4 else nd st in
        let finish (dp : Z) (us : bool) (rest : string) :=
          let exp := if mant st =? 0 then 0 else dp - ndMant in
          let read := substring 0 (String.length s - String.length rest) s in
          if us && negb (underscoreOK read) then None
          else Some (mkNumber neg hex (mant st) exp dp, rest) in
        let expChar := if hex then 112 else 101 in
        match s3 with
        | String ce r3 =>
            if lower ce =? expChar then
              match r3 with
              | EmptyString => None
              | String cs r4 =>
                  let '(esign, r5) :=
                    if (cs =? "+")%char then (1, r4)
                    else if (cs =? "-")%char then (-1, r4)
                    else (1, r3) in
                  match r5 with
                  | EmptyString => None
                  | String cd _ =>
                      if isDigit cd then
                        let '(e, us, rest) := readExponent r5 0 (underscores st) in
                        finish (dp + e * esign) us rest
                      else None
                  end
              end
            else if hex then None
            else finish dp (underscores st) s3
        | EmptyString =>
            if hex then None else finish dp (underscores st) s3
        end
  end.

(** The binary64 number nearest to what [readFloat] read.  A decimal number
    whose point lies beyond 310 digits to the right overflows, and one whose
    point lies beyond 330 digits to the left is zero; in between the
    mantissa is scaled exactly and rounded once. *)
Definition atof64 (x : number) : float64 :=
  if hex x then F64.of_binary (neg x) (mantissa x) (exp x)
  else if mantissa x =? 0 then F64.zero (neg x)
  else if point x >? 310 then F64.inf (neg x)
  else if point x <? -330 then F64.zero (neg x)
  else F64.of_decimal (neg x) (mantissa x) (exp x).

(** [strconv.ParseFloat(s, 64)]. *)
Definition ParseFloat (s : string) : float64 * option error :=
  match special s with
  | Some (f, n) =>
      if (n =? String.length s)%nat then (f, None)
      else (F64.zero false, Some (syntaxError "ParseFloat" s))
  | None =>
      match readFloat s with
      | Some (x, EmptyString) =>
          let f := atof64 x in
          if F64.is_inf f then (f, Some (rangeError "ParseFloat" s))
          else (f, None)
      | _ => (F64.zero false, Some (syntaxError "ParseFloat" s))
      end
  end.

End strconv.

(** *** Digits and spaces

    What a run of decimal digits denotes, and a text without its spaces. *)

Fixpoint allDigits (s : string) : bool :=
  match s with
  | EmptyString => true
  | String c s' => strconv.isDigit c && allDigits s'
  end.

Fixpoint valueFrom (n : Z) (s : string) : Z :=
  match s with
  | EmptyString => n
  | String c s' => valueFrom (n * 10 + (code c - 48)) s'
  end.

Definition decimalValue (s : string) : Z := valueFrom 0 s.


Fixpoint countSpaces (s : string) : nat :=
  match s with
  | EmptyString => O
  | String c s' => if (c =? " ")%char then S (countSpaces s') else countSpaces s'
  end.


(** A text at which the mantissa loop of [readFloat] stops at once. *)
Definition stops (rest : string) : Prop :=
  forall st, strconv.readDigits false rest st = (st, rest).

(** ** errors *)

Module errors.

(** [errors.Wrap(err, message)]: [nil] for a [nil] error, otherwise an error
    that carries [message] and keeps [err] as its cause.  (The call stack
    the library records besides is not modelled.) *)
Definition Wrap (err : option error) (message : string) : option error :=
  match err with
  | None => None
  | Some e => Some (WithMessage e message)
  end.

End errors.

(** ** Arithmetic of the program *)

Declare Scope f64_scope.
Delimit Scope f64_scope with f64.
Infix "*" := F64.mul : f64_scope.
Infix "/" := F64.div : f64_scope.
Infix "-" := F64.sub : f64_scope.

(** [math.Pi], an exact constant. *)
Definition math_Pi : Q :=
  Qmake 314159265358979323846264338327950288419716939937510582097494459
        (10 ^ 62)%positive.

(** The constant expressions of the file are evaluated exactly and rounded
    once, when they are given the type [float64]. *)
Definition TWOPI : float64 := F64.of_Q (math_Pi * 2).
Definition DEG2RAD : float64 := F64.of_Q (math_Pi / 180).
Definition RAD2DEG : float64 := F64.of_Q (180 / math_Pi).
Definition XPDOTP : float64 := F64.of_Q (1440 / (2 * math_Pi)).

(** The factors the conversions stand for, as exact numbers: from
    revolutions per day to radians per minute, and from degrees to
    radians. *)
Definition radiansPerMinute : Q := 2 * math_Pi / 1440.
Definition radiansPerDegree : Q := math_Pi / 180.

(** Holds latitude and longitude in either degrees or radians. *)
Record LatLong : Type := mkLatLong {
  Latitude : float64;
  Longitude : float64
}.

(** Holds X, Y, Z position. *)
Record Vector3 : Type := mkVector3 {
  X : float64;
  Y : float64;
  Z_ : float64
}.

(** Holds an azimuth, elevation and range. *)
Record LookAngles : Type := mkLookAngles {
  Az : float64;
  El : float64;
  Rg : float64
}.

(** The conversion [int(x)] of an [int64] on a platform whose [int] has
    [IntSize] bits. *)
Definition int (IntSize : Z) (x : Z) : Z :=
  (x + 2 ^ (IntSize - 1)) mod 2 ^ IntSize - 2 ^ (IntSize - 1).

(** ** The program *)

Set Implicit Arguments.
Set Maximal Implicit Insertion.

Section Program.

(** The size of [int]: 32 or 64. *)
Variable IntSize : Z.

(** Declared in files of the repository other than [helpers.go]: the
    gravity selector and the constants it selects, the fields of
    [Satellite] that [helpers.go] does not name, with the zero values of
    both, and the numeric type of the results of [days2mdhms] with its
    conversion to [int]. *)
Variable Gravity : Type.
Variable GravConst : Type.
Variable zeroGravConst : GravConst.
Variable Elements : Type.
Variable zeroElements : Elements.
Variable Num : Type.
Variable intOfNum : Num -> Z.

Record Satellite : Type := mkSatellite {
  Line1 : string;
  Line2 : string;
  Error : Z;
  whichconst : GravConst;
  satnum : Z;
  epochyr : Z;
  epochdays : float64;
  ndot : float64;
  nddot : float64;
  bstar : float64;
  inclo : float64;
  nodeo : float64;
  ecco : float64;
  argpo : float64;
  mo : float64;
  no : float64;
  jdsatepoch : float64;
  elements : Elements
}.

(** The zero value of the struct. *)
Definition zeroSatellite : Satellite :=
  mkSatellite "" "" 0 zeroGravConst 0 0
    (F64.zero false) (F64.zero false) (F64.zero false) (F64.zero false)
    (F64.zero false) (F64.zero false) (F64.zero false) (F64.zero false)
    (F64.zero false) (F64.zero false) (F64.zero false) zeroElements.

(** Assignments to the fields. *)
Definition set_Line1 (v : string) (s : Satellite) : Satellite :=
  mkSatellite v (Line2 s) (Error s) (whichconst s) (satnum s) (epochyr s)
    (epochdays s) (ndot s) (nddot s) (bstar s) (inclo s) (nodeo s) (ecco s)
    (argpo s) (mo s) (no s) (jdsatepoch s) (elements s).
Definition set_Line2 (v : string) (s : Satellite) : Satellite :=
  mkSatellite (Line1 s) v (Error s) (whichconst s) (satnum s) (epochyr s)
    (epochdays s) (ndot s) (nddot s) (bstar s) (inclo s) (nodeo s) (ecco s)
    (argpo s) (mo s) (no s) (jdsatepoch s) (elements s).
Definition set_Error (v : Z) (s : Satellite) : Satellite :=
  mkSatellite (Line1 s) (Line2 s) v (whichconst s) (satnum s) (epochyr s)
    (epochdays s) (ndot s) (nddot s) (bstar s) (inclo s) (nodeo s) (ecco s)
    (argpo s) (mo s) (no s) (jdsatepoch s) (elements s).
Definition set_whichconst (v : GravConst) (s : Satellite) : Satellite :=
  mkSatellite (Line1 s) (Line2 s) (Error s) v (satnum s) (epochyr s)
    (epochdays s) (ndot s) (nddot s) (bstar s) (inclo s) (nodeo s) (ecco s)
    (argpo s) (mo s) (no s) (jdsatepoch s) (elements s).
Definition set_satnum (v : Z) (s : Satellite) : Satellite :=
  mkSatellite (Line1 s) (Line2 s) (Error s) (whichconst s) v (epochyr s)
    (epochdays s) (ndot s) (nddot s) (bstar s) (inclo s) (nodeo s) (ecco s)
    (argpo s) (mo s) (no s) (jdsatepoch s) (elements s).
Definition set_epochyr (v : Z) (s : Satellite) : Satellite :=
  mkSatellite (Line1 s) (Line2 s) (Error s) (whichconst s) (satnum s) v
    (epochdays s) (ndot s) (nddot s) (bstar s) (inclo s) (nodeo s) (ecco s)
    (argpo s) (mo s) (no s) (jdsatepoch s) (elements s).
Definition set_epochdays (v : float64) (s : Satellite) : Satellite :=
  mkSatellite (Line1 s) (Line2 s) (Error s) (whichconst s) (satnum s) (epochyr s)
    v (ndot s) (nddot s) (bstar s) (inclo s) (nodeo s) (ecco s)
    (argpo s) (mo s) (no s) (jdsatepoch s) (elements s).
Definition set_ndot (v : float64) (s : Satellite) : Satellite :=
  mkSatellite (Line1 s) (Line2 s) (Error s) (whichconst s) (satnum s) (epochyr s)
    (epochdays s) v (nddot s) (bstar s) (inclo s) (nodeo s) (ecco s)
    (argpo s) (mo s) (no s) (jdsatepoch s) (elements s).
Definition set_nddot (v : float64) (s : Satellite) : Satellite :=
  mkSatellite (Line1 s) (Line2 s) (Error s) (whichconst s) (satnum s) (epochyr s)
    (epochdays s) (ndot s) v (bstar s) (inclo s) (nodeo s) (ecco s)
    (argpo s) (mo s) (no s) (jdsatepoch s) (elements s).
Definition set_bstar (v : float64) (s : Satellite) : Satellite :=
  mkSatellite (Line1 s) (Line2 s) (Error s) (whichconst s) (satnum s) (epochyr s)
    (epochdays s) (ndot s) (nddot s) v (inclo s) (nodeo s) (ecco s)
    (argpo s) (mo s) (no s) (jdsatepoch s) (elements s).
Definition set_inclo (v : float64) (s : Satellite) : Satellite :=
  mkSatellite (Line1 s) (Line2 s) (Error s) (whichconst s) (satnum s) (epochyr s)
    (epochdays s) (ndot s) (nddot s) (bstar s) v (nodeo s) (ecco s)
    (argpo s) (mo s) (no s) (jdsatepoch s) (elements s).
Definition set_nodeo (v : float64) (s : Satellite) : Satellite :=
  mkSatellite (Line1 s) (Line2 s) (Error s) (whichconst s) (satnum s) (epochyr s)
    (epochdays s) (ndot s) (nddot s) (bstar s) (inclo s) v (ecco s)
    (argpo s) (mo s) (no s) (jdsatepoch s) (elements s).
Definition set_ecco (v : float64) (s : Satellite) : Satellite :=
  mkSatellite (Line1 s) (Line2 s) (Error s) (whichconst s) (satnum s) (epochyr s)
    (epochdays s) (ndot s) (nddot s) (bstar s) (inclo s) (nodeo s) v
    (argpo s) (mo s) (no s) (jdsatepoch s) (elements s).
Definition set_argpo (v : float64) (s : Satellite) : Satellite :=
  mkSatellite (Line1 s) (Line2 s) (Error s) (whichconst s) (satnum s) (epochyr s)
    (epochdays s) (ndot s) (nddot s) (bstar s) (inclo s) (nodeo s) (ecco s)
    v (mo s) (no s) (jdsatepoch s) (elements s).
Definition set_mo (v : float64) (s : Satellite) : Satellite :=
  mkSatellite (Line1 s) (Line2 s) (Error s) (whichconst s) (satnum s) (epochyr s)
    (epochdays s) (ndot s) (nddot s) (bstar s) (inclo s) (nodeo s) (ecco s)
    (argpo s) v (no s) (jdsatepoch s) (elements s).
Definition set_no (v : float64) (s : Satellite) : Satellite :=
  mkSatellite (Line1 s) (Line2 s) (Error s) (whichconst s) (satnum s) (epochyr s)
    (epochdays s) (ndot s) (nddot s) (bstar s) (inclo s) (nodeo s) (ecco s)
    (argpo s) (mo s) v (jdsatepoch s) (elements s).
Definition set_jdsatepoch (v : float64) (s : Satellite) : Satellite :=
  mkSatellite (Line1 s) (Line2 s) (Error s) (whichconst s) (satnum s) (epochyr s)
    (epochdays s) (ndot s) (nddot s) (bstar s) (inclo s) (nodeo s) (ecco s)
    (argpo s) (mo s) (no s) v (elements s).

(** Functions of the repository defined outside [helpers.go]: the two
    look-ups of the gravity constants (the first may end the process, the
    second returns an error), the calendar date of a day of the year, the
    Julian date, and the initialisation of the propagator, which updates the
    record it is given. *)
Variable getGravConst : Gravity -> outcome GravConst.
Variable getGravConstV2 : Gravity -> outcome (GravConst * option error).
Variable days2mdhms : Z -> float64 -> outcome (Num * Num * Num * Num * Num).
Variable JDay : Z -> Z -> Z -> Z -> Z -> Z -> outcome float64.
Variable sgp4init : string -> float64 -> Satellite -> outcome Satellite.

(** Parses a string into a float64 value. *)
Definition parseFloat (strIn : string) : outcome float64 :=
  let '(ret, err) := strconv.ParseFloat strIn in
  match err with
  | Some e => Panic (LogPanic e)
  | None => Return ret
  end.

(** Parses a string into a int64 value. *)
Definition parseInt (strIn : string) : outcome Z :=
  let '(ret, err) := strconv.ParseInt IntSize strIn 0 in
  match err with
  | Some e => Panic (LogPanic e)
  | None => Return ret
  end.

(** Parses a two line element dataset into a Satellite struct. *)
Definition ParseTLE (line1 line2 : string) (gravConst : Gravity) : outcome Satellite :=
  let sat := zeroSatellite in
  let sat := set_Line1 line1 sat in
  let sat := set_Line2 line2 sat in
  let sat := set_Error 0 sat in
  g <- getGravConst gravConst ;;
  let sat := set_whichconst g sat in
  (* LINE 1 BEGIN *)
  f <- slice line1 2 7 ;;
  v <- parseInt (strings.TrimSpace f) ;;
  let sat := set_satnum v sat in
  f <- slice line1 18 20 ;;
  v <- parseInt f ;;
  let sat := set_epochyr v sat in
  f <- slice line1 20 32 ;;
  v <- parseFloat f ;;
  let sat := set_epochdays v sat in
  (* These three can be negative / positive *)
  f <- slice line1 33 43 ;;
  v <- parseFloat (strings.Replace f " " "" 2) ;;
  let sat := set_ndot v sat in
  s <- slice line1 44 45 ;;
  m <- slice line1 45 50 ;;
  e <- slice line1 50 52 ;;
  v <- parseFloat (strings.Replace (s ++ "." ++ m ++ "e" ++ e) " " "" 2) ;;
  let sat := set_nddot v sat in
  s <- slice line1 53 54 ;;
  m <- slice line1 54 59 ;;
  e <- slice line1 59 61 ;;
  v <- parseFloat (strings.Replace (s ++ "." ++ m ++ "e" ++ e) " " "" 2) ;;
  let sat := set_bstar v sat in
  (* LINE 1 END *)
  (* LINE 2 BEGIN *)
  f <- slice line2 8 16 ;;
  v <- parseFloat (strings.Replace f " " "" 2) ;;
  let sat := set_inclo v sat in
  f <- slice line2 17 25 ;;
  v <- parseFloat (strings.Replace f " " "" 2) ;;
  let sat := set_nodeo v sat in
  f <- slice line2 26 33 ;;
  v <- parseFloat ("." ++ f) ;;
  let sat := set_ecco v sat in
  f <- slice line2 34 42 ;;
  v <- parseFloat (strings.Replace f " " "" 2) ;;
  let sat := set_argpo v sat in
  f <- slice line2 43 51 ;;
  v <- parseFloat (strings.Replace f " " "" 2) ;;
  let sat := set_mo v sat in
  f <- slice line2 52 63 ;;
  v <- parseFloat (strings.Replace f " " "" 2) ;;
  let sat := set_no v sat in
  (* LINE 2 END *)
  Return sat.

(** [if err != nil { return nil, ret }], followed by the rest [k] of the
    function. *)
Definition ifErr {A : Type} (err ret : option error)
  (k : outcome (option A * option error)) : outcome (option A * option error) :=
  match err with
  | Some _ => Return (None, ret)
  | None => k
  end.

Notation "'if_err' err 'return_nil' ret ;; k" := (ifErr err ret k)
  (at level 61, err at level 9, ret at level 9, right associativity).

(** Parses a two line element dataset into a Satellite struct. *)
Definition ParseTLEV2 (line1 line2 : string) (gravConst : Gravity)
  : outcome (option Satellite * option error) :=
  '(whichConst, err) <- getGravConstV2 gravConst ;;
  if_err err return_nil err ;;
  (* LINE 1 BEGIN *)
  f <- slice line1 2 7 ;;
  let '(satNum, err) := strconv.ParseInt IntSize (strings.TrimSpace f) 64 in
  if_err err return_nil (errors.Wrap err "invalid sat num") ;;
  f <- slice line1 18 20 ;;
  let '(epochYear, err) := strconv.ParseInt IntSize f 64 in
  if_err err return_nil (errors.Wrap err "invalid epoch year") ;;
  f <- slice line1 20 32 ;;
  let '(epochDays, err) := strconv.ParseFloat f in
  if_err err return_nil (errors.Wrap err "invalid epoch days") ;;
  (* These three can be negative / positive *)
  f <- slice line1 33 43 ;;
  let '(ndot', err) := strconv.ParseFloat (strings.Replace f " " "" 2) in
  if_err err return_nil (errors.Wrap err "invalid ndot") ;;
  s <- slice line1 44 45 ;;
  m <- slice line1 45 50 ;;
  e <- slice line1 50 52 ;;
  let '(nddot', err) :=
    strconv.ParseFloat (strings.Replace (s ++ "." ++ m ++ "e" ++ e) " " "" 2) in
  if_err err return_nil (errors.Wrap err "invalid nddot") ;;
  s <- slice line1 53 54 ;;
  m <- slice line1 54 59 ;;
  e <- slice line1 59 61 ;;
  let '(bstar', err) :=
    strconv.ParseFloat (strings.Replace (s ++ "." ++ m ++ "e" ++ e) " " "" 2) in
  if_err err return_nil (errors.Wrap err "invalid bstar") ;;
  (* LINE 1 END *)
  (* LINE 2 BEGIN *)
  f <- slice line2 8 16 ;;
  let '(inclo', err) := strconv.ParseFloat (strings.Replace f " " "" 2) in
  if_err err return_nil (errors.Wrap err "invalid inclo") ;;
  f <- slice line2 17 25 ;;
  let '(nodeo', err) := strconv.ParseFloat (strings.Replace f " " "" 2) in
  if_err err return_nil (errors.Wrap err "invalid nodeo") ;;
  f <- slice line2 26 33 ;;
  let '(ecco', err) := strconv.ParseFloat ("." ++ f) in
  if_err err return_nil (errors.Wrap err "invalid ecco") ;;
  f <- slice line2 34 42 ;;
  let '(argpo', err) := strconv.ParseFloat (strings.Replace f " " "" 2) in
  if_err err return_nil (errors.Wrap err "invalid argpo") ;;
  f <- slice line2 43 51 ;;
  let '(mo', err) := strconv.ParseFloat (strings.Replace f " " "" 2) in
  if_err err return_nil (errors.Wrap err "invalid mo") ;;
  f <- slice line2 52 63 ;;
  let '(no', err) := strconv.ParseFloat (strings.Replace f " " "" 2) in
  if_err err return_nil (errors.Wrap err "invalid no") ;;
  (* LINE 2 END *)
  let sat := zeroSatellite in
  let sat := set_Line1 line1 sat in
  let sat := set_Line2 line2 sat in
  let sat := set_whichconst whichConst sat in
  let sat := set_satnum satNum sat in
  let sat := set_epochyr epochYear sat in
  let sat := set_epochdays epochDays sat in
  let sat := set_ndot ndot' sat in
  let sat := set_nddot nddot' sat in
  let sat := set_bstar bstar' sat in
  let sat := set_inclo inclo' sat in
  let sat := set_nodeo nodeo' sat in
  let sat := set_ecco ecco' sat in
  let sat := set_argpo argpo' sat in
  let sat := set_mo mo' sat in
  let sat := set_no no' sat in
  Return (Some sat, None).

(** Converts a two line element data set into a Satellite struct and runs
    sgp4init. *)
Definition TLEToSat (line1 line2 : string) (gravConst : Gravity) : outcome Satellite :=
  sat <- ParseTLE line1 line2 gravConst ;;
  let opsmode := "i" in
  let sat := set_no (no sat / XPDOTP)%f64 sat in
  let sat := set_ndot (ndot sat / (XPDOTP * F64.of_Q 1440))%f64 sat in
  let sat := set_nddot (nddot sat / (XPDOTP * F64.of_Q 1440 * F64.of_Q 1440))%f64 sat in
  let sat := set_inclo (inclo sat * DEG2RAD)%f64 sat in
  let sat := set_nodeo (nodeo sat * DEG2RAD)%f64 sat in
  let sat := set_argpo (argpo sat * DEG2RAD)%f64 sat in
  let sat := set_mo (mo sat * DEG2RAD)%f64 sat in
  let year :=
    if epochyr sat <? 57 then strconv.int64 (epochyr sat + 2000)
    else strconv.int64 (epochyr sat + 1900) in
  '(mon, day, hr, min, sec) <- days2mdhms year (epochdays sat) ;;
  jd <- JDay (int IntSize year) (intOfNum mon) (intOfNum day)
             (intOfNum hr) (intOfNum min) (intOfNum sec) ;;
  let sat := set_jdsatepoch jd sat in
  sat <- sgp4init opsmode (jdsatepoch sat - F64.of_Q 2433281.5)%f64 sat ;;
  Return sat.

(** Converts a two line element data set into a Satellite struct and runs
    sgp4init. *)
Definition TLEToSatV2 (line1 line2 : string) (gravConst : Gravity)
  : outcome (option Satellite * option error) :=
  '(sat, err) <- ParseTLEV2 line1 line2 gravConst ;;
  if_err err return_nil err ;;
  match sat with
  | None => Panic NilDereference
  | Some sat =>
      let opsmode := "i" in
      let sat := set_no (no sat / XPDOTP)%f64 sat in
      let sat := set_ndot (ndot sat / (XPDOTP * F64.of_Q 1440))%f64 sat in
      let sat := set_nddot (nddot sat / (XPDOTP * F64.of_Q 1440 * F64.of_Q 1440))%f64 sat in
      let sat := set_inclo (inclo sat * DEG2RAD)%f64 sat in
      let sat := set_nodeo (nodeo sat * DEG2RAD)%f64 sat in
      let sat := set_argpo (argpo sat * DEG2RAD)%f64 sat in
      let sat := set_mo (mo sat * DEG2RAD)%f64 sat in
      let year :=
        if epochyr sat <? 57 then strconv.int64 (epochyr sat + 2000)
        else strconv.int64 (epochyr sat + 1900) in
      '(mon, day, hr, minutes, sec) <- days2mdhms year (epochdays sat) ;;
      jd <- JDay (int IntSize year) (intOfNum mon) (intOfNum day)
                 (intOfNum hr) (intOfNum minutes) (intOfNum sec) ;;
      let sat := set_jdsatepoch jd sat in
      sat <- sgp4init opsmode (jdsatepoch sat - F64.of_Q 2433281.5)%f64 sat ;;
      Return (Some sat, None)
  end.

(** ** The twelve fields

    The layout the two parsers share, as a table: for each field, in the
    order the parsers read them, the text handed to the numeric parser and
    the name the validating parser gives it in its error message.  The
    lemmas [ParseTLE_scan] and [ParseTLEV2_scan] below show that the parsers
    read exactly this table. *)

Inductive field : Type :=
| Fsatnum | Fepochyr | Fepochdays | Fndot | Fnddot | Fbstar
| Finclo | Fnodeo | Fecco | Fargpo | Fmo | Fno.

Definition allFields : list field :=
  [Fsatnum; Fepochyr; Fepochdays; Fndot; Fnddot; Fbstar;
   Finclo; Fnodeo; Fecco; Fargpo; Fmo; Fno].

Definition fieldIndex (f : field) : nat :=
  match f with
  | Fsatnum => 0 | Fepochyr => 1 | Fepochdays => 2 | Fndot => 3
  | Fnddot => 4 | Fbstar => 5 | Finclo => 6 | Fnodeo => 7
  | Fecco => 8 | Fargpo => 9 | Fmo => 10 | Fno => 11
  end.

Definition fieldName (f : field) : string :=
  match f with
  | Fsatnum => "sat num" | Fepochyr => "epoch year"
  | Fepochdays => "epoch days" | Fndot => "ndot" | Fnddot => "nddot"
  | Fbstar => "bstar" | Finclo => "inclo" | Fnodeo => "nodeo"
  | Fecco => "ecco" | Fargpo => "argpo" | Fmo => "mo" | Fno => "no"
  end.

(** The sign at [a], a point, the mantissa from [b], the exponent marker and
    the exponent from [c] to [d], put together. *)
Definition rebuilt (line : string) (a b c d : nat) : outcome string :=
  s <- slice line a b ;;
  m <- slice line b c ;;
  e <- slice line c d ;;
  Return (s ++ "." ++ m ++ "e" ++ e).

(** The columns of a field, as extracted from the lines. *)
Definition rawText (f : field) (line1 line2 : string) : outcome string :=
  match f with
  | Fsatnum => slice line1 2 7
  | Fepochyr => slice line1 18 20
  | Fepochdays => slice line1 20 32
  | Fndot => slice line1 33 43
  | Fnddot => rebuilt line1 44 45 50 52
  | Fbstar => rebuilt line1 53 54 59 61
  | Finclo => slice line2 8 16
  | Fnodeo => slice line2 17 25
  | Fecco => slice line2 26 33
  | Fargpo => slice line2 34 42
  | Fmo => slice line2 43 51
  | Fno => slice line2 52 63
  end.

(** What is done to the extracted text before it is parsed: the catalogue
    number is trimmed, the year and the day of the epoch are left as they
    are, the eccentricity gets its point, and every other field loses its
    first two spaces. *)
Definition isStripped (f : field) : bool :=
  match f with
  | Fsatnum | Fepochyr | Fepochdays | Fecco => false
  | _ => true
  end.

Definition prepared (f : field) (raw : string) : string :=
  match f with
  | Fsatnum => strings.TrimSpace raw
  | Fepochyr | Fepochdays => raw
  | Fecco => "." ++ raw
  | _ => strings.Replace raw " " "" 2
  end.

Definition fieldText (f : field) (line1 line2 : string) : outcome string :=
  raw <- rawText f line1 line2 ;;
  Return (prepared f raw).

Definition isIntField (f : field) : bool :=
  match f with
  | Fsatnum | Fepochyr => true
  | _ => false
  end.

(** The error of the numeric parser on the text of a field; the strict
    parser asks [ParseInt] for the size of [int], the validating one for 64
    bits. *)
Definition parseError (validating : bool) (f : field) (text : string) : option error :=
  if isIntField f
  then snd (strconv.ParseInt IntSize text (if validating then 64 else 0))
  else snd (strconv.ParseFloat text).

Definition intOf (validating : bool) (f : field) (line1 line2 : string) : Z :=
  match fieldText f line1 line2 with
  | Return t => fst (strconv.ParseInt IntSize t (if validating then 64 else 0))
  | Panic _ => 0
  end.

Definition floatOf (f : field) (line1 line2 : string) : float64 :=
  match fieldText f line1 line2 with
  | Return t => fst (strconv.ParseFloat t)
  | Panic _ => F64.zero false
  end.

(** The value a record holds for a field. *)
Definition fieldValue (f : field) (sat : Satellite) : Z + float64 :=
  match f with
  | Fsatnum => inl (satnum sat)
  | Fepochyr => inl (epochyr sat)
  | Fepochdays => inr (epochdays sat)
  | Fndot => inr (ndot sat)
  | Fnddot => inr (nddot sat)
  | Fbstar => inr (bstar sat)
  | Finclo => inr (inclo sat)
  | Fnodeo => inr (nodeo sat)
  | Fecco => inr (ecco sat)
  | Fargpo => inr (argpo sat)
  | Fmo => inr (mo sat)
  | Fno => inr (no sat)
  end.

(** The record of a pair of lines all of whose fields parse. *)
Definition parsedRecord (validating : bool) (c : GravConst) (line1 line2 : string)
  : Satellite :=
  mkSatellite line1 line2 0 c
    (intOf validating Fsatnum line1 line2)
    (intOf validating Fepochyr line1 line2)
    (floatOf Fepochdays line1 line2) (floatOf Fndot line1 line2)
    (floatOf Fnddot line1 line2) (floatOf Fbstar line1 line2)
    (floatOf Finclo line1 line2) (floatOf Fnodeo line1 line2)
    (floatOf Fecco line1 line2) (floatOf Fargpo line1 line2)
    (floatOf Fmo line1 line2) (floatOf Fno line1 line2)
    (F64.zero false) zeroElements.

(** Reading the fields in order, up to the first one that cannot be
    extracted or does not parse. *)
Inductive scan : Type :=
| AllParsed
| Defect (f : field) (e : error)
| Aborted (f : field) (p : panic).

Fixpoint scanFields (validating : bool) (fs : list field) (line1 line2 : string)
  : scan :=
  match fs with
  | [] => AllParsed
  | f :: fs' =>
      match fieldText f line1 line2 with
      | Panic p => Aborted f p
      | Return t =>
          match parseError validating f t with
          | Some e => Defect f e
          | None => scanFields validating fs' line1 line2
          end
      end
  end.

(** The fields read before [f]. *)
Definition before (f : field) : list field := firstn (fieldIndex f) allFields.

(** The field can be extracted and its text parses. *)
Definition parses (validating : bool) (f : field) (line1 line2 : string) : Prop :=
  exists t, fieldText f line1 line2 = Return t /\ parseError validating f t = None.

(** The line a field lies on, and the column at which it ends. *)
Definition onLine1 (f : field) : bool :=
  match f with
  | Fsatnum | Fepochyr | Fepochdays | Fndot | Fnddot | Fbstar => true
  | _ => false
  end.

Definition fieldEnd (f : field) : nat :=
  match f with
  | Fsatnum => 7 | Fepochyr => 20 | Fepochdays => 32 | Fndot => 43
  | Fnddot => 52 | Fbstar => 61 | Finclo => 16 | Fnodeo => 25
  | Fecco => 33 | Fargpo => 42 | Fmo => 51 | Fno => 63
  end.

Definition lineOf (f : field) (line1 line2 : string) : string :=
  if onLine1 f then line1 else line2.

(** A line is truncated when it stops short of the last column the layout
    reads: 61 on the first line, 63 on the second. *)
Definition truncated (line1 line2 : string) : Prop :=
  (String.length line1 < 61)%nat \/ (String.length line2 < 63)%nat.

(** ** The two stages after parsing *)

(** The record after the unit conversions of [TLEToSat] and [TLEToSatV2]. *)
Definition converted (sat : Satellite) : Satellite :=
  mkSatellite (Line1 sat) (Line2 sat) (Error sat) (whichconst sat)
    (satnum sat) (epochyr sat) (epochdays sat)
    (ndot sat / (XPDOTP * F64.of_Q 1440))%f64
    (nddot sat / (XPDOTP * F64.of_Q 1440 * F64.of_Q 1440))%f64
    (bstar sat)
    (inclo sat * DEG2RAD)%f64 (nodeo sat * DEG2RAD)%f64 (ecco sat)
    (argpo sat * DEG2RAD)%f64 (mo sat * DEG2RAD)%f64
    (no sat / XPDOTP)%f64
    (jdsatepoch sat) (elements sat).

(** The full year both converters derive from the two-digit year of the
    epoch. *)
Definition fullYear (epochyr : Z) : Z :=
  if epochyr <? 57 then strconv.int64 (epochyr + 2000)
  else strconv.int64 (epochyr + 1900).

(** The epoch of [sat] resolved in the full year [year], and the propagator
    initialised. *)
Definition initEpoch (year : Z) (sat : Satellite) : outcome Satellite :=
  '(mon, day, hr, min, sec) <- days2mdhms year (epochdays sat) ;;
  jd <- JDay (int IntSize year) (intOfNum mon) (intOfNum day)
             (intOfNum hr) (intOfNum min) (intOfNum sec) ;;
  sgp4init "i" (jd - F64.of_Q 2433281.5)%f64 (set_jdsatepoch jd sat).

End Program.

Unset Maximal Implicit Insertion.
Unset Implicit Arguments.

(** ** An instance

    Stand-ins for what the repository defines outside [helpers.go], to run
    the functions above on concrete lines: a selector with one gravity model
    and one value that names none, a calendar that always answers the first
    of January, a constant Julian date and a propagator that leaves the
    record as it is.  No theorem below depends on them: each is proved for
    every instance. *)

Module Sample.

Inductive Gravity : Type := GravityKnown | GravityUnknown.

Definition getGravConst (g : Gravity) : outcome unit :=
  match g with
  | GravityKnown => Return tt
  | GravityUnknown => Panic (Fault "not a valid gravity model")
  end.

Definition getGravConstV2 (g : Gravity) : outcome (unit * option error) :=
  match g with
  | GravityKnown => Return (tt, None)
  | GravityUnknown => Return (tt, Some (ErrorString "not a valid gravity model"))
  end.

Definition days2mdhms (year : Z) (days : float64) : outcome (Z * Z * Z * Z * Z) :=
  Return (1, 1, 0, 0, 0).

Definition JDay (year mon day hr min sec : Z) : outcome float64 :=
  Return (F64.of_Q 2451545).

Definition sgp4init (opsmode : string) (epoch : float64) (sat : Satellite unit unit)
  : outcome (Satellite unit unit) :=
  Return sat.

Definition ParseTLE : string -> string -> Gravity -> outcome (Satellite unit unit) :=
  ParseTLE 64 tt tt getGravConst.

Definition ParseTLEV2
  : string -> string -> Gravity -> outcome (option (Satellite unit unit) * option error) :=
  ParseTLEV2 64 tt tt getGravConstV2.

Definition TLEToSat : string -> string -> Gravity -> outcome (Satellite unit unit) :=
  TLEToSat 64 tt tt (fun n : Z => n) getGravConst days2mdhms JDay sgp4init.

Definition TLEToSatV2
  : string -> string -> Gravity -> outcome (option (Satellite unit unit) * option error) :=
  TLEToSatV2 64 tt tt (fun n : Z => n) getGravConstV2 days2mdhms JDay sgp4init.

(** An element set of the International Space Station. *)
Definition line1 : string :=
  "1 25544U 98067A   08264.51782528 -.00002182  00000-0 -11606-4 0  2927".
Definition line2 : string :=
  "2 25544  51.6416 247.4627 0006703 130.5360 325.0288 15.72125391563537".

(** [line] with [text] written over it from column [at]. *)
Definition patch (line : string) (at_ : nat) (text : string) : string :=
  substring 0 at_ line ++ text ++ drop (at_ + String.length text) line.


Definition line2_spaces : string := patch line2 8 "   1.000".

(** The first line with the epoch day 400, with an epoch year that is no
    number, and cut in the middle of the epoch day. *)
Definition line1_day400 : string := patch line1 20 "400.00000000".
Definition line1_badyear : string := patch line1 18 "0x".
Definition line1_cut : string := substring 0 25 line1.

End Sample.

(** ** Bytes of a text, and numbers that are finite

    What the facts about the numeric parsers are stated with. *)

(** The byte [c] occurs in [s]. *)
Fixpoint occurs (c : ascii) (s : string) : bool :=
  match s with
  | EmptyString => false
  | String d s' => (d =? c)%char || occurs c s'
  end.

(** The code of a byte, a capital letter taken as its small letter: the
    comparison of [commonPrefixLenIgnoreCase]. *)
Definition folded (c : ascii) : Z :=
  if (65 <=? code c) && (code c <=? 90) then code c + 32 else code c.

(** Every byte of the text is at or above the small letters. *)
Fixpoint lowerCase (s : string) : bool :=
  match s with
  | EmptyString => true
  | String p s' => (97 <=? code p) && lowerCase s'
  end.

(** A zero or a finite number: no infinity and no NaN. *)
Definition is_finite (x : float64) : bool :=
  match x with
  | S754_zero _ | S754_finite _ _ _ => true
  | _ => false
  end.


(** A run of [k] spaces. *)
Fixpoint blank (k : nat) : string :=
  match k with
  | O => EmptyString
  | S k' => String " " (blank k')
  end.


(** * Facts *)

(** ** Facts about strings *)

Lemma length_substring_le (n m : nat) (s : string) :
  (String.length (substring n m s) <= m)%nat.
Proof.
  revert n m. induction s as [|c s IH]; intros [|n] [|m]; cbn; try lia.
  - specialize (IH 0%nat m). lia.
  - apply (IH n 0%nat).
  - apply (IH n (S m)).
Qed.

Lemma length_drop_le (n : nat) (s : string) :
  (String.length (drop n s) <= String.length s)%nat.
Proof.
  revert s. induction n as [|n IH]; intros [|c s]; cbn; try lia.
  specialize (IH s). lia.
Qed.

Lemma length_rev_append (s acc : string) :
  String.length (rev_append s acc) = (String.length s + String.length acc)%nat.
Proof.
  revert acc. induction s as [|c s IH]; intros acc; cbn; [reflexivity|].
  rewrite IH. cbn. lia.
Qed.

Lemma length_rev (s : string) : String.length (rev s) = String.length s.
Proof. unfold rev. rewrite length_rev_append. cbn. lia. Qed.

Lemma length_trimPrefixes (runes : list string) (fuel : nat) (s : string) :
  (String.length (strings.trimPrefixes runes fuel s) <= String.length s)%nat.
Proof.
  revert s. induction fuel as [|fuel IH]; intros s; cbn; [lia|].
  destruct (find (fun r => prefix r s) runes) as [r|]; [|lia].
  etransitivity; [apply IH|apply length_drop_le].
Qed.

Lemma length_TrimSpace (s : string) :
  (String.length (strings.TrimSpace s) <= String.length s)%nat.
Proof.
  unfold strings.TrimSpace, strings.TrimRightSpace, strings.TrimLeftSpace.
  rewrite length_rev.
  etransitivity; [apply length_trimPrefixes|].
  rewrite length_rev. apply length_trimPrefixes.
Qed.

(** ** Facts about [strconv.ParseInt] *)

Lemma digitVal_range (c : ascii) (d : Z) :
  strconv.digitVal c = Some d -> 0 <= d.
Proof.
  unfold strconv.digitVal, strconv.isDigit.
  destruct (48 <=? code c) eqn:H1; cbn [andb].
  - destruct (code c <=? 57); [intros [= <-]; lia|].
    destruct ((97 <=? strconv.lower c) && (strconv.lower c <=? 122)) eqn:H2;
      [|discriminate].
    intros [= <-]. apply andb_prop in H2. lia.
  - destruct ((97 <=? strconv.lower c) && (strconv.lower c <=? 122)) eqn:H2;
      [|discriminate].
    intros [= <-]. apply andb_prop in H2. lia.
Qed.

(** While the digits still to come cannot carry the number beyond a bound
    that both limits allow, the loop does not depend on the limit, what it
    reads stays within the bound, and its only error is the syntax error. *)
Lemma parseUintLoop_small (max1 max2 : Z) (s0 s : string) (n : Z) :
  0 <= n ->
  (n + 1) * 10 ^ Z.of_nat (String.length s) - 1 <= max1 ->
  (n + 1) * 10 ^ Z.of_nat (String.length s) - 1 <= max2 ->
  max1 <= strconv.maxUint64 ->
  strconv.parseUintLoop max1 s0 s n = strconv.parseUintLoop max2 s0 s n /\
  match snd (strconv.parseUintLoop max1 s0 s n) with
  | None =>
      0 <= fst (strconv.parseUintLoop max1 s0 s n)
        <= (n + 1) * 10 ^ Z.of_nat (String.length s) - 1
  | Some e => e = strconv.syntaxError "ParseUint" s0
  end.
Proof.
  revert n. induction s as [|c s IH]; intros n Hn H1 H2 Hmax.
  - cbn. split; [reflexivity|]. lia.
  - cbn [strconv.parseUintLoop String.length] in *.
    rewrite Nat2Z.inj_succ, Z.pow_succ_r in H1, H2 |- * by lia.
    destruct (strconv.digitVal c) as [d|] eqn:Hd; [|split; reflexivity].
    pose proof (digitVal_range _ _ Hd) as Hd0.
    destruct (Z.geb_spec d 10) as [Hd10|Hd10]; [split; reflexivity|].
    assert (Hp : 0 < 10 ^ Z.of_nat (String.length s)) by (apply Z.pow_pos_nonneg; lia).
    change strconv.maxUint64 with 18446744073709551615 in *.
    change (18446744073709551615 / 10 + 1) with 1844674407370955162.
    assert (Hb : n * 10 + d + 1 <= (n + 1) * (10 * 10 ^ Z.of_nat (String.length s))) by nia.
    destruct (Z.geb_spec n 1844674407370955162) as [Hc|Hc]; [exfalso; nia|].
    unfold strconv.uint64.
    change (2 ^ 64) with 18446744073709551616.
    rewrite (Z.mod_small (n * 10)) by lia.
    rewrite (Z.mod_small (n * 10 + d)) by nia.
    replace (n * 10 + d <? n * 10) with false by (symmetry; apply Z.ltb_ge; lia).
    cbn [orb].
    assert (Hs : (n * 10 + d + 1) * 10 ^ Z.of_nat (String.length s) - 1
                 <= (n + 1) * (10 * 10 ^ Z.of_nat (String.length s)) - 1) by nia.
    replace (n * 10 + d >? max1) with false by (symmetry; rewrite Z.gtb_ltb; apply Z.ltb_ge; nia).
    replace (n * 10 + d >? max2) with false by (symmetry; rewrite Z.gtb_ltb; apply Z.ltb_ge; nia).
    destruct (IH (n * 10 + d)) as [IH1 IH2]; try lia.
    split; [exact IH1|].
    destruct (snd (strconv.parseUintLoop max1 s0 s (n * 10 + d))); [exact IH2|lia].
Qed.

(** On a text of at most nine bytes, asking for the size of [int] or for 64
    bits makes no difference. *)
Lemma ParseInt_short (IntSize : Z) (t : string) :
  IntSize = 32 \/ IntSize = 64 ->
  (String.length t <= 9)%nat ->
  strconv.ParseInt IntSize t 0 = strconv.ParseInt IntSize t 64.
Proof.
  intros [->| ->] Hlen; [|reflexivity].
  destruct t as [|c r]; [reflexivity|].
  unfold strconv.ParseInt.
  set (sd := if (c =? "+")%char then (false, r)
             else if (c =? "-")%char then (true, r) else (false, String c r)).
  assert (Hsd : (String.length (snd sd) <= 9)%nat).
  { subst sd. cbn [String.length] in Hlen.
    destruct (c =? "+")%char; [cbn; lia|]. destruct (c =? "-")%char; cbn; lia. }
  destruct sd as [neg ds]. cbn [snd] in Hsd.
  unfold strconv.ParseUint.
  destruct ds as [|c' r']; [reflexivity|].
  cbn [Z.ltb Z.gtb orb Z.eqb Z.compare Pos.compare Pos.compare_cont].
  set (ds := String c' r') in *.
  assert (Hpow : 10 ^ Z.of_nat (String.length ds) <= 10 ^ 9)
    by (apply Z.pow_le_mono_r; lia).
  change (10 ^ 9) with 1000000000 in Hpow.
  destruct (parseUintLoop_small (2 ^ 32 - 1) (2 ^ 64 - 1) ds ds 0) as [Heq Hrange];
    try (change (2 ^ 32 - 1) with 4294967295;
         change (2 ^ 64 - 1) with 18446744073709551615;
         change strconv.maxUint64 with 18446744073709551615; lia).
  rewrite <- Heq.
  destruct (strconv.parseUintLoop (2 ^ 32 - 1) ds ds 0) as [un [e|]] eqn:Hl;
    cbn [snd fst] in Hrange.
  - subst e. reflexivity.
  - change (2 ^ (32 - 1)) with 2147483648.
    change (2 ^ (64 - 1)) with 9223372036854775808.
    replace (un >=? 2147483648) with false by (symmetry; rewrite Z.geb_leb; apply Z.leb_gt; lia).
    replace (un >? 2147483648) with false by (symmetry; rewrite Z.gtb_ltb; apply Z.ltb_ge; lia).
    replace (un >=? 9223372036854775808) with false by (symmetry; rewrite Z.geb_leb; apply Z.leb_gt; lia).
    replace (un >? 9223372036854775808) with false by (symmetry; rewrite Z.gtb_ltb; apply Z.ltb_ge; lia).
    destruct neg; reflexivity.
Qed.

(** ** Facts about rounding *)

Lemma digits2_size (p : positive) : digits2_pos p = Pos.size p.
Proof. induction p; cbn; congruence. Qed.

Lemma Zdigits2_bound (x k : Z) :
  0 <= k -> 0 <= x < 2 ^ k -> 0 <= Zdigits2 x <= k.
Proof.
  intros Hk [H0 Hx]. destruct x as [|p|p]; cbn; try lia.
  rewrite digits2_size. split; [lia|].
  destruct (Z.le_gt_cases (Z.pos (Pos.size p)) k) as [|Hgt]; [assumption|exfalso].
  pose proof (Pos.size_le p) as Hle.
  assert (Hpow : 2 ^ (k + 1) <= 2 ^ Z.pos (Pos.size p)) by (apply Z.pow_le_mono_r; lia).
  rewrite Z.pow_add_r in Hpow by lia.
  assert (Hsz : 2 ^ Z.pos (Pos.size p) <= 2 * Z.pos p).
  { change (2 ^ Z.pos (Pos.size p)) with (Z.pos 2 ^ Z.pos (Pos.size p)).
    rewrite <- Pos2Z.inj_pow. change (2 * Z.pos p) with (Z.pos p~0).
    apply Pos2Z.pos_le_pos. exact Hle. }
  lia.
Qed.

Lemma shr_1_bound (mrs : shr_record) (M : Z) :
  0 <= shr_m mrs <= M -> 0 <= shr_m (shr_1 mrs) <= M.
Proof.
  destruct mrs as [m r s]. cbn [shr_m].
  destruct m as [|[p|p|]|[p|p|]]; cbn; lia.
Qed.

Lemma iter_shr_1_bound (p : positive) (mrs : shr_record) (M : Z) :
  0 <= shr_m mrs <= M -> 0 <= shr_m (iter_pos shr_1 p mrs) <= M.
Proof.
  revert mrs. induction p as [p IH|p IH|]; intros mrs H; cbn [iter_pos].
  - apply IH, IH, shr_1_bound, H.
  - apply IH, IH, H.
  - apply shr_1_bound, H.
Qed.

(** What [shr_fexp] returns: a mantissa no larger than the one it is given,
    at an exponent that is the larger of the one it is given and the one the
    format assigns to the number. *)
Lemma shr_fexp_bound (m e : Z) (l : location) (M : Z) :
  0 <= m <= M ->
  let '(mrs, e') := shr_fexp F64.prec F64.emax m e l in
  0 <= shr_m mrs <= M /\
  e' = Z.max e (fexp F64.prec F64.emax (Zdigits2 m + e)).
Proof.
  intros Hm. unfold shr_fexp, shr.
  destruct (fexp F64.prec F64.emax (Zdigits2 m + e) - e) as [|p|p] eqn:Hd.
  - split; [destruct l as [|[]]; cbn; lia|lia].
  - split; [apply iter_shr_1_bound; destruct l as [|[]]; cbn; lia|lia].
  - split; [destruct l as [|[]]; cbn; lia|lia].
Qed.

Lemma round_nearest_even_bound (m : Z) (l : location) :
  0 <= m -> 0 <= round_nearest_even m l <= m + 1.
Proof.
  intros Hm. unfold round_nearest_even.
  destruct l as [|[]]; try lia. destruct (Z.even m); lia.
Qed.

Lemma fexp_le (x k : Z) :
  x <= k -> -1074 <= k - 53 -> fexp F64.prec F64.emax x <= k - 53.
Proof.
  unfold fexp, emin, F64.prec, F64.emax. lia.
Qed.

(** Rounding a mantissa below [2^k] at an exponent [e <= 0] stays finite as
    long as [2 * k] is within the range of the exponents. *)
Lemma binary_round_aux_finite (neg : bool) (m e : Z) (l : location) (k : Z) :
  0 <= m < 2 ^ k -> e <= 0 -> 53 <= k <= 485 ->
  F64.is_inf (binary_round_aux F64.prec F64.emax neg m e l) = false.
Proof.
  intros Hm He Hk. unfold binary_round_aux.
  pose proof (shr_fexp_bound m e l (2 ^ k - 1)) as H1.
  destruct (shr_fexp F64.prec F64.emax m e l) as [mrs1 e1].
  destruct H1 as [Hm1 He1]; [lia|].
  pose proof (Zdigits2_bound m k ltac:(lia) Hm) as Hd.
  assert (He1b : e1 <= k - 53).
  { rewrite He1. apply Z.max_lub; [lia|]. apply fexp_le; lia. }
  set (m2 := round_nearest_even (shr_m mrs1) (loc_of_shr_record mrs1)).
  pose proof (round_nearest_even_bound (shr_m mrs1) (loc_of_shr_record mrs1)
                ltac:(lia)) as Hm2.
  fold m2 in Hm2.
  pose proof (shr_fexp_bound m2 e1 loc_Exact (2 ^ k)) as H2.
  destruct (shr_fexp F64.prec F64.emax m2 e1 loc_Exact) as [mrs2 e2].
  destruct H2 as [Hm3 He2]; [lia|].
  assert (Hd2 : 0 <= Zdigits2 m2 <= k + 1).
  { apply Zdigits2_bound; [lia|]. rewrite Z.pow_add_r by lia. lia. }
  assert (He2b : e2 <= 2 * k).
  { rewrite He2. apply Z.max_lub; [lia|].
    etransitivity; [apply (fexp_le _ (2 * k + 53)); lia|lia]. }
  destruct (shr_m mrs2) as [|p|p]; [reflexivity| |reflexivity].
  destruct (Z.leb_spec e2 (F64.emax - F64.prec)) as [|Hgt]; [reflexivity|].
  unfold F64.emax, F64.prec in Hgt. lia.
Qed.

(** The quotient of two numbers below [2^200] rounds to a finite number. *)
Lemma of_ratio_finite (neg : bool) (n d : Z) :
  0 <= n < 2 ^ 200 -> 0 < d < 2 ^ 200 ->
  F64.is_inf (F64.of_ratio neg n d) = false.
Proof.
  intros Hn Hd. unfold F64.of_ratio.
  destruct n as [|p|p]; [reflexivity| |lia].
  unfold SFdiv_core_binary.
  pose proof (Zdigits2_bound (Z.pos p) 200 ltac:(lia) Hn) as Hd1.
  pose proof (Zdigits2_bound d 200 ltac:(lia) ltac:(lia)) as Hd2.
  set (d1 := Zdigits2 (Z.pos p)) in *. set (d2 := Zdigits2 d) in *.
  replace (d1 + 0 - (d2 + 0)) with (d1 - d2) by lia.
  replace (0 - 0) with 0 by lia.
  set (e' := Z.min (fexp F64.prec F64.emax (d1 - d2)) 0).
  assert (He' : -253 <= e' <= 0).
  { subst e'. unfold fexp, emin, F64.prec, F64.emax. lia. }
  set (m' := match 0 - e' with
             | 0 => Z.pos p
             | Z.pos _ => Z.shiftl (Z.pos p) (0 - e')
             | Z.neg _ => 0
             end).
  assert (Hm' : 0 <= m' < 2 ^ 453).
  { subst m'. destruct (0 - e') as [|s|s] eqn:Hs.
    - split; [lia|]. eapply Z.lt_le_trans; [apply Hn|].
      apply Z.pow_le_mono_r; lia.
    - rewrite Z.shiftl_mul_pow2 by lia.
      assert (Hs1 : 0 < 2 ^ Z.pos s) by (apply Z.pow_pos_nonneg; lia).
      assert (Hs2 : 2 ^ Z.pos s <= 2 ^ 253) by (apply Z.pow_le_mono_r; lia).
      change (2 ^ 453) with (2 ^ 200 * 2 ^ 253).
      assert (HP : 0 < 2 ^ 200) by reflexivity.
      assert (HS : 0 < 2 ^ 253) by reflexivity.
      revert Hn Hs1 Hs2 HP HS.
      generalize (2 ^ 200) (2 ^ 253) (2 ^ Z.pos s). intros P S X. nia.
    - split; [lia|apply Z.pow_pos_nonneg; lia]. }
  destruct (Z.div_eucl m' d) as [q r] eqn:Hqr.
  assert (Hq : 0 <= q < 2 ^ 453).
  { pose proof (Z.div_eucl_eq m' d ltac:(lia)) as Heq. rewrite Hqr in Heq.
    pose proof (Z.mod_pos_bound m' d ltac:(lia)) as Hr.
    unfold Z.modulo in Hr. rewrite Hqr in Hr. nia. }
  apply binary_round_aux_finite with (k := 453); lia.
Qed.

(** *** The rounding is to the nearest

    The quotient, the shifts and the rounding keep the place of the exact
    number, so that the number returned is the nearest of the format. *)

Lemma Zdigits2_spec (z : Z) :
  0 < z -> 2 ^ (Zdigits2 z - 1) <= z < 2 ^ Zdigits2 z.
Proof.
  destruct z as [|p|p]; try lia. intros _. cbn [Zdigits2].
  rewrite digits2_size.
  pose proof (Pos.size_gt p) as Hgt. pose proof (Pos.size_le p) as Hle.
  apply Pos2Z.pos_lt_pos in Hgt. apply Pos2Z.pos_le_pos in Hle.
  rewrite Pos2Z.inj_pow in Hgt, Hle.
  change (Z.pos 2) with 2 in *. change (Z.pos p~0) with (2 * Z.pos p) in Hle.
  split; [|exact Hgt].
  replace (Z.pos (Pos.size p)) with (Z.pos (Pos.size p) - 1 + 1) in Hle by lia.
  rewrite Z.pow_add_r in Hle by lia. lia.
Qed.

Lemma Zdigits2_unique (z k : Z) :
  2 ^ (k - 1) <= z < 2 ^ k -> 0 < k -> Zdigits2 z = k.
Proof.
  intros [Hlo Hhi] Hk.
  assert (Hz : 0 < z) by (eapply Z.lt_le_trans; [|exact Hlo]; apply Z.pow_pos_nonneg; lia).
  pose proof (Zdigits2_spec z Hz) as [Hl Hh].
  assert (Hd : 0 < Zdigits2 z) by (destruct z; cbn; lia).
  destruct (Z.lt_trichotomy (Zdigits2 z) k) as [Hlt|[Heq|Hgt]]; [|exact Heq|].
  - exfalso. assert (2 ^ Zdigits2 z <= 2 ^ (k - 1)) by (apply Z.pow_le_mono_r; lia). lia.
  - exfalso. assert (2 ^ k <= 2 ^ (Zdigits2 z - 1)) by (apply Z.pow_le_mono_r; lia). lia.
Qed.

Lemma shr_record_of_loc_spec (m : Z) (l : location) :
  shr_m (shr_record_of_loc m l) = m /\
  loc_of_shr_record (shr_record_of_loc m l) = l.
Proof. destruct l as [|[]]; split; reflexivity. Qed.

Lemma shr_1_spec (m : Z) (r s : bool) :
  0 <= m ->
  shr_1 {| shr_m := m; shr_r := r; shr_s := s |} =
  {| shr_m := m / 2; shr_r := Z.odd m; shr_s := r || s |}.
Proof.
  intros Hm.
  assert (Hhalf : forall h b, 0 <= b < 2 -> (2 * h + b) / 2 = h).
  { intros h b Hb. symmetry. apply (Z.div_unique _ _ _ b); lia. }
  destruct m as [|[p|p|]|p]; try lia; try reflexivity.
  - cbn [shr_1]. rewrite Pos2Z.inj_xI, Hhalf by lia. reflexivity.
  - cbn [shr_1]. rewrite Pos2Z.inj_xO, <- (Z.add_0_r (2 * Z.pos p)), Hhalf by lia.
    reflexivity.
Qed.

(** One step to the right halves the mantissa and keeps the place of the
    number between the mantissa and its successor. *)
Lemma shr_1_locates (num den : Z) (mrs : shr_record) :
  0 < den -> 0 <= shr_m mrs ->
  locates num den (shr_m mrs) (loc_of_shr_record mrs) ->
  locates num (2 * den) (shr_m (shr_1 mrs)) (loc_of_shr_record (shr_1 mrs)) /\
  shr_m (shr_1 mrs) = shr_m mrs / 2.
Proof.
  intros Hden Hm. destruct mrs as [m r s]. cbn [shr_m] in *.
  rewrite shr_1_spec by exact Hm. cbn [shr_m]. intros H. split; [|reflexivity].
  pose proof (Z.div_mod m 2 ltac:(lia)) as Hdiv.
  rewrite Zmod_odd in Hdiv.
  revert H Hdiv. generalize (m / 2). intros h H Hdiv.
  assert (Hp : h * (2 * den) = 2 * (h * den)) by ring.
  assert (Hu : 2 * h * (2 * den) = 4 * (h * den)) by ring.
  assert (Hv : (2 * h + 1) * (2 * den) = 4 * (h * den) + 2 * den) by ring.
  assert (Hw : (2 * h + 2) * (2 * den) = 4 * (h * den) + 4 * den) by ring.
  destruct (Z.odd m); subst m.
  - assert (Hq : (2 * h + 1) * den = 2 * (h * den) + den) by ring.
    assert (Hr : 2 * (2 * h + 1) * den = 4 * (h * den) + 2 * den) by ring.
    assert (Hs : (2 * (2 * h + 1) + 1) * den = 4 * (h * den) + 3 * den) by ring.
    assert (Ht : (2 * (2 * h + 1) + 2) * den = 4 * (h * den) + 4 * den) by ring.
    destruct r, s; unfold loc_of_shr_record, locates in *; cbn [orb];
      rewrite ?Hp, ?Hq, ?Hr, ?Hs, ?Ht, ?Hu, ?Hv, ?Hw in *;
      clear Hp Hq Hr Hs Ht Hu Hv Hw; revert H; generalize (h * den); intros; lia.
  - assert (Hq : (2 * h + 0) * den = 2 * (h * den)) by ring.
    assert (Hr : 2 * (2 * h + 0) * den = 4 * (h * den)) by ring.
    assert (Hs : (2 * (2 * h + 0) + 1) * den = 4 * (h * den) + den) by ring.
    assert (Ht : (2 * (2 * h + 0) + 2) * den = 4 * (h * den) + 2 * den) by ring.
    destruct r, s; unfold loc_of_shr_record, locates in *; cbn [orb];
      rewrite ?Hp, ?Hq, ?Hr, ?Hs, ?Ht, ?Hu, ?Hv, ?Hw in *;
      clear Hp Hq Hr Hs Ht Hu Hv Hw; revert H; generalize (h * den); intros; lia.
Qed.


Lemma locates_remains (num den m : Z) (l : location) :
  locates num den m l <-> remains (num - m * den) den l.
Proof.
  assert (H1 : 2 * m * den = 2 * (m * den)) by ring.
  assert (H2 : (2 * m + 1) * den = 2 * (m * den) + den) by ring.
  assert (H3 : (2 * m + 2) * den = 2 * (m * den) + 2 * den) by ring.
  destruct l as [|[]]; unfold locates, remains; rewrite ?H1, ?H2, ?H3;
    generalize (m * den); intros; lia.
Qed.

Lemma locates_scale (k num den m : Z) (l : location) :
  0 < k -> locates num den m l <-> locates (k * num) (k * den) m l.
Proof.
  intros Hk. rewrite !locates_remains.
  replace (k * num - m * (k * den)) with (k * (num - m * den)) by ring.
  generalize (num - m * den). intros r.
  destruct l as [|[]]; unfold remains.
  - split; [intros ->; ring|]. intros H. apply Z.mul_eq_0 in H. lia.
  - replace (2 * (k * r)) with (k * (2 * r)) by ring. split.
    + intros ->. reflexivity.
    + intros H. apply Z.mul_reg_l in H; lia.
  - replace (2 * (k * r)) with (k * (2 * r)) by ring. split.
    + intros [H1 H2]. split; [apply Z.mul_pos_pos; lia|apply Z.mul_lt_mono_pos_l; lia].
    + intros [H1 H2]. split; [|apply Z.mul_lt_mono_pos_l in H2; lia].
      apply Z.mul_pos_cancel_l in H1; lia.
  - replace (2 * (k * r)) with (k * (2 * r)) by ring.
    replace (2 * (k * den)) with (k * (2 * den)) by ring. split.
    + intros [H1 H2]. split; apply Z.mul_lt_mono_pos_l; lia.
    + intros [H1 H2]. split; [apply Z.mul_lt_mono_pos_l in H1|apply Z.mul_lt_mono_pos_l in H2]; lia.
Qed.

Lemma new_location_locates (q d r : Z) :
  0 < d -> 0 <= r < d -> locates (q * d + r) d q (new_location d r).
Proof.
  intros Hd Hr. rewrite locates_remains.
  replace (q * d + r - q * d) with r by ring.
  unfold new_location, new_location_even, new_location_odd.
  destruct (Z.even d) eqn:He; destruct (Z.eqb_spec r 0) as [->|Hne];
    try reflexivity.
  - destruct (Z.compare_spec (2 * r) d); unfold remains; lia.
  - destruct (Z.compare_spec (2 * r + 1) d); unfold remains; try lia.
    assert (Hodd : Z.odd d = true) by (rewrite <- Z.negb_even, He; reflexivity).
    apply Z.odd_spec in Hodd. destruct Hodd as [k Hk]. lia.
Qed.

Lemma pow2_xI (p : positive) : 2 ^ Z.pos p~1 = 2 ^ Z.pos p * (2 ^ Z.pos p * 2).
Proof.
  rewrite (Pos2Z.inj_xI p). replace (2 * Z.pos p + 1) with (Z.pos p + (Z.pos p + 1)) by lia.
  rewrite !Z.pow_add_r by lia. reflexivity.
Qed.

Lemma pow2_xO (p : positive) : 2 ^ Z.pos p~0 = 2 ^ Z.pos p * 2 ^ Z.pos p.
Proof.
  rewrite (Pos2Z.inj_xO p). replace (2 * Z.pos p) with (Z.pos p + Z.pos p) by lia.
  rewrite !Z.pow_add_r by lia. reflexivity.
Qed.

Lemma iter_shr_1_locates (p : positive) :
  forall (num den : Z) (mrs : shr_record),
  0 < den -> 0 <= shr_m mrs ->
  locates num den (shr_m mrs) (loc_of_shr_record mrs) ->
  locates num (2 ^ Z.pos p * den) (shr_m (iter_pos shr_1 p mrs))
    (loc_of_shr_record (iter_pos shr_1 p mrs)) /\
  shr_m (iter_pos shr_1 p mrs) = shr_m mrs / 2 ^ Z.pos p.
Proof.
  induction p as [p IH|p IH|]; intros num den mrs Hden Hm H; cbn [iter_pos].
  - destruct (shr_1_locates num den mrs Hden Hm H) as [H1 E1].
    assert (Hm1 : 0 <= shr_m (shr_1 mrs)) by (rewrite E1; apply Z.div_pos; lia).
    destruct (IH num (2 * den) _ ltac:(lia) Hm1 H1) as [H2 E2].
    assert (Hp : 0 < 2 ^ Z.pos p) by (apply Z.pow_pos_nonneg; lia).
    assert (Hm2 : 0 <= shr_m (iter_pos shr_1 p (shr_1 mrs))).
    { rewrite E2. apply Z.div_pos; lia. }
    destruct (IH num (2 ^ Z.pos p * (2 * den)) _ ltac:(lia) Hm2 H2) as [H3 E3].
    rewrite pow2_xI. split.
    + rewrite <- !Z.mul_assoc. exact H3.
    + rewrite E3, E2, E1, !Z.div_div by lia. f_equal. ring.
  - destruct (IH num den _ Hden Hm H) as [H2 E2].
    assert (Hp : 0 < 2 ^ Z.pos p) by (apply Z.pow_pos_nonneg; lia).
    assert (Hm2 : 0 <= shr_m (iter_pos shr_1 p mrs)).
    { rewrite E2. apply Z.div_pos; lia. }
    destruct (IH num (2 ^ Z.pos p * den) _ ltac:(lia) Hm2 H2) as [H3 E3].
    rewrite pow2_xO. split.
    + rewrite <- Z.mul_assoc. exact H3.
    + rewrite E3, E2, !Z.div_div by lia. reflexivity.
  - destruct (shr_1_locates num den mrs Hden Hm H) as [H1 E1].
    change (2 ^ 1) with 2. split; assumption.
Qed.

Lemma fexp_eq (e : Z) : fexp F64.prec F64.emax e = Z.max (e - 53) (-1074).
Proof. reflexivity. Qed.

Lemma Zdigits2_nonneg (z : Z) : 0 <= Zdigits2 z.
Proof. destruct z; cbn; lia. Qed.

Lemma Zdigits2_div (m t : Z) :
  0 <= m -> 0 <= t -> Zdigits2 (m / 2 ^ t) = Z.max 0 (Zdigits2 m - t).
Proof.
  intros Hm Ht.
  assert (Hpt : 0 < 2 ^ t) by (apply Z.pow_pos_nonneg; lia).
  destruct (Z.eq_dec m 0) as [->|Hne].
  { rewrite Z.div_0_l by lia. cbn. lia. }
  pose proof (Zdigits2_spec m ltac:(lia)) as [Hlo Hhi].
  pose proof (Zdigits2_nonneg m) as Hk.
  assert (Hk1 : 0 < Zdigits2 m) by (destruct m; cbn; lia).
  revert Hlo Hhi Hk Hk1. generalize (Zdigits2 m). intros k Hlo Hhi Hk Hk1.
  destruct (Z_le_gt_dec k t) as [Hle|Hgt].
  - assert (2 ^ k <= 2 ^ t) by (apply Z.pow_le_mono_r; lia).
    rewrite Z.div_small by lia. cbn. lia.
  - rewrite Z.max_r by lia. apply Zdigits2_unique; [|lia]. split.
    + apply Z.div_le_lower_bound; [lia|].
      rewrite <- Z.pow_add_r by lia.
      replace (t + (k - t - 1)) with (k - 1) by lia. exact Hlo.
    + apply Z.div_lt_upper_bound; [lia|].
      rewrite <- Z.pow_add_r by lia.
      replace (t + (k - t)) with k by lia. exact Hhi.
Qed.

(** The shift to the exponent of the format: the mantissa is divided by
    the power of two, the exponent raised by as much, and the place of the
    number is kept. *)
Lemma shr_fexp_spec (num den m e : Z) (l : location) :
  0 < den -> 0 <= m -> locates num den m l ->
  let t := Z.max 0 (fexp F64.prec F64.emax (Zdigits2 m + e) - e) in
  let r := shr_fexp F64.prec F64.emax m e l in
  snd r = e + t /\ shr_m (fst r) = m / 2 ^ t /\
  locates num (2 ^ t * den) (shr_m (fst r)) (loc_of_shr_record (fst r)).
Proof.
  intros Hden Hm H. cbv zeta. unfold shr_fexp, shr.
  destruct (shr_record_of_loc_spec m l) as [Em El].
  destruct (fexp F64.prec F64.emax (Zdigits2 m + e) - e) as [|p|p] eqn:Et.
  - cbn [fst snd]. rewrite Z.max_l by lia. change (2 ^ 0) with 1.
    rewrite Z.div_1_r, Z.mul_1_l, Em, El. repeat split; [lia|exact H].
  - cbn [fst snd]. rewrite Z.max_r by lia.
    destruct (iter_shr_1_locates p num den (shr_record_of_loc m l)) as [H1 E1];
      [exact Hden|rewrite Em; exact Hm|rewrite Em, El; exact H|].
    rewrite Em in E1. repeat split; [exact E1|exact H1].
  - cbn [fst snd]. rewrite Z.max_l by lia. change (2 ^ 0) with 1.
    rewrite Z.div_1_r, Z.mul_1_l, Em, El. repeat split; [lia|exact H].
Qed.

(** The quotient of the division, its exponent and the place of the exact
    quotient. *)
Lemma SFdiv_core_binary_spec (n d : Z) :
  0 < n -> 0 < d ->
  let r := SFdiv_core_binary F64.prec F64.emax n 0 d 0 in
  let q := fst (fst r) in let e := snd (fst r) in
  e <= 0 /\ 0 <= q /\ locates (n * 2 ^ (- e)) d q (snd r) /\
  e <= fexp F64.prec F64.emax (Zdigits2 q + e).
Proof.
  intros Hn Hd. cbv zeta. unfold SFdiv_core_binary.
  rewrite !Z.add_0_r. change (0 - 0) with 0.
  set (e := Z.min (fexp F64.prec F64.emax (Zdigits2 n - Zdigits2 d)) 0).
  assert (He : e <= 0) by (unfold e; lia).
  set (m' := match 0 - e with Z0 => n | Z.pos _ => Z.shiftl n (0 - e) | Z.neg _ => 0 end).
  assert (Em : m' = n * 2 ^ (- e)).
  { unfold m'. destruct (0 - e) as [|p|p] eqn:Es.
    - replace (- e) with 0 by lia. change (2 ^ 0) with 1. lia.
    - rewrite Z.shiftl_mul_pow2 by lia. f_equal. f_equal. lia.
    - lia. }
  assert (Hp : 0 < 2 ^ (- e)) by (apply Z.pow_pos_nonneg; lia).
  assert (Hm' : 0 < m') by (rewrite Em; apply Z.mul_pos_pos; lia).
  pose proof (Z.div_eucl_eq m' d ltac:(lia)) as Heq.
  pose proof (Z.mod_pos_bound m' d Hd) as Hr.
  unfold Z.modulo in Hr.
  assert (Eq : fst (Z.div_eucl m' d) = m' / d) by reflexivity.
  destruct (Z.div_eucl m' d) as [q r]. cbn [fst snd] in *.
  assert (Hq : 0 <= q) by (rewrite Eq; apply Z.div_pos; lia).
  split; [exact He|]. split; [exact Hq|]. split.
  - rewrite <- Em, Heq, (Z.mul_comm d q). apply new_location_locates; assumption.
  - rewrite fexp_eq.
    destruct (Z.eq_dec e (-1074)) as [E|E]; [lia|].
    pose proof (Zdigits2_spec n Hn) as [Hnlo Hnhi].
    pose proof (Zdigits2_spec d Hd) as [Hdlo Hdhi].
    assert (Hk : 0 <= Zdigits2 n - Zdigits2 d - e - 1).
    { unfold e in *. rewrite fexp_eq in *. lia. }
    assert (Hlow : 2 ^ (Zdigits2 n - Zdigits2 d - e - 1) <= q).
    { rewrite Eq. apply Z.div_le_lower_bound; [lia|].
      rewrite Em.
      assert (Hd0 : 0 < Zdigits2 d) by (destruct d; cbn; lia).
      assert (Hn0 : 0 < Zdigits2 n) by (destruct n; cbn; lia).
      apply Z.le_trans with (2 ^ Zdigits2 d * 2 ^ (Zdigits2 n - Zdigits2 d - e - 1)).
      - apply Z.mul_le_mono_nonneg_r; [apply Z.pow_nonneg|]; lia.
      - rewrite <- Z.pow_add_r by lia.
        replace (Zdigits2 d + (Zdigits2 n - Zdigits2 d - e - 1))
          with ((Zdigits2 n - 1) + (- e)) by lia.
        rewrite Z.pow_add_r by lia.
        apply Z.mul_le_mono_nonneg_r; lia. }
    assert (Hqpos : 0 < q).
    { eapply Z.lt_le_trans; [|exact Hlow]. apply Z.pow_pos_nonneg; lia. }
    pose proof (Zdigits2_spec q Hqpos) as [_ Hqhi].
    assert (Hdq : Zdigits2 n - Zdigits2 d - e - 1 < Zdigits2 q).
    { apply (Z.pow_lt_mono_r_iff 2); [lia|apply Zdigits2_nonneg|lia]. }
    unfold e in *. rewrite fexp_eq in *. lia.
Qed.

Lemma Zdigits2_succ (m : Z) :
  0 <= m ->
  Zdigits2 (m + 1) = Zdigits2 m \/
  (m + 1 = 2 ^ Zdigits2 m /\ Zdigits2 (m + 1) = Zdigits2 m + 1).
Proof.
  intros Hm. destruct (Z.eq_dec m 0) as [->|Hne]; [right; split; reflexivity|].
  pose proof (Zdigits2_spec m ltac:(lia)) as [Hlo Hhi].
  assert (Hk : 0 < Zdigits2 m) by (destruct m; cbn; lia).
  destruct (Z.eq_dec (m + 1) (2 ^ Zdigits2 m)) as [E|E].
  - right. split; [exact E|]. apply Zdigits2_unique; [|lia].
    replace (Zdigits2 m + 1 - 1) with (Zdigits2 m) by lia.
    rewrite Z.pow_add_r by lia. change (2 ^ 1) with 2. lia.
  - left. apply Zdigits2_unique; lia.
Qed.


Lemma locates_scaled (n d s t m : Z) (l : location) :
  0 <= s -> 0 <= t ->
  locates (n * 2 ^ s) (2 ^ t * d) m l ->
  locates (fst (F64.scaled n d (t - s))) (snd (F64.scaled n d (t - s))) m l.
Proof.
  intros Hs Ht H. unfold F64.scaled. cbn [fst snd].
  destruct (Z.leb_spec 0 (t - s)) as [Hle|Hlt].
  - apply (locates_scale (2 ^ s)); [apply Z.pow_pos_nonneg; lia|].
    replace (2 ^ s * n) with (n * 2 ^ s) by ring.
    replace (2 ^ s * (d * 2 ^ (t - s))) with (2 ^ t * d); [exact H|].
    replace t with (s + (t - s)) at 1 by lia.
    rewrite Z.pow_add_r by lia. ring.
  - apply (locates_scale (2 ^ t)); [apply Z.pow_pos_nonneg; lia|].
    replace (2 ^ t * (n * 2 ^ (- (t - s)))) with (n * 2 ^ s); [exact H|].
    replace s with (t + (- (t - s))) at 1 by lia.
    rewrite Z.pow_add_r by lia. ring.
Qed.

Lemma scaled_pos (n d e : Z) :
  0 < n -> 0 < d -> 0 < fst (F64.scaled n d e) /\ 0 < snd (F64.scaled n d e).
Proof.
  intros Hn Hd. unfold F64.scaled. cbn [fst snd].
  destruct (Z.leb_spec 0 e).
  - split; [exact Hn|]. apply Z.mul_pos_pos; [exact Hd|apply Z.pow_pos_nonneg; lia].
  - split; [|exact Hd]. apply Z.mul_pos_pos; [exact Hn|apply Z.pow_pos_nonneg; lia].
Qed.

Lemma scaled_succ (n d e : Z) :
  (fst (F64.scaled n d (e + 1)) = fst (F64.scaled n d e) /\
   snd (F64.scaled n d (e + 1)) = 2 * snd (F64.scaled n d e)) \/
  (2 * fst (F64.scaled n d (e + 1)) = fst (F64.scaled n d e) /\
   snd (F64.scaled n d (e + 1)) = snd (F64.scaled n d e)).
Proof.
  unfold F64.scaled. cbn [fst snd].
  destruct (Z.leb_spec 0 e) as [H|H]; destruct (Z.leb_spec 0 (e + 1)) as [H1|H1];
    try lia.
  - left. split; [reflexivity|]. rewrite Z.pow_add_r by lia. change (2 ^ 1) with 2. ring.
  - right. assert (e = -1) by lia. subst e.
    change (2 ^ (- -1)) with 2. change (2 ^ (-1 + 1)) with 1. lia.
  - right. split; [|reflexivity].
    replace (- e) with (- (e + 1) + 1) by lia.
    rewrite Z.pow_add_r by lia. change (2 ^ 1) with 2. ring.
Qed.

(** What the rounding to the nearest, ties to even, does with a mantissa
    and the place of the number after it. *)
Lemma round_nearest_even_spec (m : Z) (l : location) :
  (round_nearest_even m l = m /\
   (l = loc_Exact \/ l = loc_Inexact Lt \/ (l = loc_Inexact Eq /\ Z.even m = true))) \/
  (round_nearest_even m l = m + 1 /\
   (l = loc_Inexact Gt \/ (l = loc_Inexact Eq /\ Z.even m = false))).
Proof.
  destruct l as [|[]]; cbn [round_nearest_even]; try destruct (Z.even m);
    solve [left; split; [reflexivity|intuition congruence]
          |right; split; [reflexivity|intuition congruence]].
Qed.


Lemma round_shr_spec (a b m e : Z) (l : location) :
  0 < b -> 0 <= m -> locates a b m l ->
  fexp F64.prec F64.emax (Zdigits2 m + e) = e ->
  let r := shr_fexp F64.prec F64.emax (round_nearest_even m l) e loc_Exact in
  let mf := shr_m (fst r) in
  let ef := snd r in
  0 <= mf /\ fexp F64.prec F64.emax (Zdigits2 mf + ef) = ef /\
  ((ef = e /\ near a b mf ((mf =? 2 ^ 52) && (-1074 <? ef))) \/
   (ef = e + 1 /\ mf = 2 ^ 52 /\ -1074 < ef /\
    (2 ^ 54 - 1) * b <= 2 * a < 2 ^ 54 * b)).
Proof.
  intros Hb Hm H Hc. cbv zeta.
  assert (Hm2 : 0 <= round_nearest_even m l).
  { destruct (round_nearest_even_spec m l) as [[E _]|[E _]]; rewrite E; lia. }
  assert (Hex : locates (round_nearest_even m l) 1 (round_nearest_even m l) loc_Exact).
  { unfold locates. lia. }
  pose proof (shr_fexp_spec _ 1 _ e loc_Exact ltac:(lia) Hm2 Hex) as Hs.
  cbv zeta in Hs. destruct Hs as (Ee & Em & _). rewrite Ee, Em. clear Ee Em Hex.
  apply locates_remains in H.
  assert (Ea : a = m * b + (a - m * b)) by ring.
  revert H Ea. generalize (a - m * b). intros r H Ea.
  assert (P1 : (4 * m - 1) * b = 4 * (m * b) - b) by ring.
  assert (P2 : (2 * m - 1) * b = 2 * (m * b) - b) by ring.
  assert (P3 : (2 * m + 1) * b = 2 * (m * b) + b) by ring.
  assert (Q1 : (4 * (m + 1) - 1) * b = 4 * (m * b) + 3 * b) by ring.
  assert (Q2 : (2 * (m + 1) - 1) * b = 2 * (m * b) + b) by ring.
  assert (Q3 : (2 * (m + 1) + 1) * b = 2 * (m * b) + 3 * b) by ring.
  destruct (round_nearest_even_spec m l) as [[E Hl]|[E Hl]]; rewrite E in *.
  - (* rounded down *)
    rewrite Hc, Z.sub_diag. change (Z.max 0 0) with 0. change (2 ^ 0) with 1.
    rewrite Z.div_1_r, Z.add_0_r. split; [exact Hm|]. split; [exact Hc|].
    left. split; [reflexivity|]. unfold near. rewrite P1, P2, P3, Ea.
    revert Ea. generalize (m * b). intros P Ea.
    destruct Hl as [->|[->|[-> Hev]]]; unfold remains in H; split;
      try (destruct ((m =? 2 ^ 52) && (-1074 <? e)); [lia|left; lia]);
      try (left; lia).
    right. split; [lia|exact Hev].
  - (* rounded up *)
    assert (Hev : l = loc_Inexact Eq -> Z.even (m + 1) = true).
    { intros ->. destruct Hl as [Hl|[_ Hl]]; [discriminate|].
      rewrite Z.add_1_r, Z.even_succ, <- Z.negb_even, Hl. reflexivity. }
    assert (Hr : b <= 2 * r < 2 * b /\ (2 * r = b -> l = loc_Inexact Eq)).
    { destruct Hl as [->|[-> _]]; unfold remains in H; split; try lia.
      reflexivity. }
    assert (Hnear : near a b (m + 1) false).
    { unfold near. rewrite Q2, Q3, Ea. revert Ea. generalize (m * b). intros P Ea.
      split; [|left; lia].
      destruct (Z.eq_dec (2 * r) b) as [Eb|Nb].
      - right. split; [lia|]. apply Hev. apply Hr. exact Eb.
      - left. lia. }
    rewrite fexp_eq in Hc.
    destruct (Zdigits2_succ m Hm) as [Ed|[Ep Ed]].
    + (* as many digits *)
      rewrite Ed, fexp_eq, Hc, Z.sub_diag. change (Z.max 0 0) with 0.
      change (2 ^ 0) with 1. rewrite Z.div_1_r, Z.add_0_r.
      split; [lia|]. split; [rewrite fexp_eq, Ed; exact Hc|].
      left. split; [reflexivity|].
      destruct (Z.eqb_spec (m + 1) (2 ^ 52)) as [E52|N52]; [|exact Hnear].
      exfalso. rewrite E52 in Ed. change (Zdigits2 (2 ^ 52)) with 53 in Ed.
      assert (Hpos : 0 < m).
      { destruct (Z.eq_dec m 0) as [->|]; [discriminate Ed|lia]. }
      pose proof (Zdigits2_spec m Hpos) as [Hlo _]. rewrite <- Ed in Hlo.
      change (2 ^ (53 - 1)) with (2 ^ 52) in Hlo. lia.
    + (* one digit more *)
      pose proof (Zdigits2_nonneg m) as Hk.
      rewrite Ed, fexp_eq.
      destruct (Z_le_gt_dec (-1074) (Zdigits2 m + e - 53)) as [Hn|Hsub].
      * assert (Ek : Zdigits2 m = 53) by lia.
        rewrite Ek in *.
        replace (Z.max 0 (Z.max (53 + 1 + e - 53) (-1074) - e)) with 1 by lia.
        rewrite Ep. change (2 ^ 53 / 2 ^ 1) with (2 ^ 52).
        change (Zdigits2 (2 ^ 52)) with 53.
        split; [apply Z.pow_nonneg; lia|]. split; [rewrite fexp_eq; lia|].
        right. split; [reflexivity|]. split; [reflexivity|]. split; [lia|].
        assert (Em : m = 2 ^ 53 - 1) by lia.
        assert (R1 : (2 ^ 54 - 1) * b = 2 * (m * b) + b) by (rewrite Em; ring).
        assert (R2 : 2 ^ 54 * b = 2 * (m * b) + 2 * b) by (rewrite Em; ring).
        rewrite R1, R2, Ea. revert Ea. generalize (m * b). intros P Ea. lia.
      * replace (Z.max 0 (Z.max (Zdigits2 m + 1 + e - 53) (-1074) - e)) with 0 by lia.
        change (2 ^ 0) with 1. rewrite Z.div_1_r, Z.add_0_r.
        split; [lia|]. split; [rewrite fexp_eq, Ed; lia|].
        left. split; [reflexivity|].
        destruct (Z.ltb_spec (-1074) e) as [He|He]; [lia|].
        rewrite andb_false_r. exact Hnear.
Qed.


Lemma near_true (a b m : Z) (tight : bool) :
  near a b m tight ->
  (if tight then (4 * m - 1) * b <=? 4 * a
   else ((2 * m - 1) * b <? 2 * a) || (((2 * m - 1) * b =? 2 * a) && Z.even m)) = true /\
  ((2 * a <? (2 * m + 1) * b) || ((2 * a =? (2 * m + 1) * b) && Z.even m)) = true.
Proof.
  intros [Hlo Hhi]. split.
  - destruct tight.
    + apply Z.leb_le. exact Hlo.
    + destruct Hlo as [Hlo|[Hlo Hev]].
      * apply Z.ltb_lt in Hlo. rewrite Hlo. reflexivity.
      * apply Z.eqb_eq in Hlo. rewrite Hlo, Hev. apply orb_true_r.
  - destruct Hhi as [Hhi|[Hhi Hev]].
    + apply Z.ltb_lt in Hhi. rewrite Hhi. reflexivity.
    + apply Z.eqb_eq in Hhi. rewrite Hhi, Hev. apply orb_true_r.
Qed.

(** The rounding of a located quotient: the number returned is the one of
    the format nearest to [n / d]. *)
Lemma binary_round_aux_nearest (neg : bool) (n d q e : Z) (l : location) :
  0 < n -> 0 < d -> e <= 0 -> 0 <= q ->
  locates (n * 2 ^ (- e)) d q l ->
  e <= fexp F64.prec F64.emax (Zdigits2 q + e) ->
  F64.nearest neg n d (binary_round_aux F64.prec F64.emax neg q e l) = true.
Proof.
  intros Hn Hd He Hq H Hfe. unfold binary_round_aux.
  pose proof (shr_fexp_spec _ _ _ e l Hd Hq H) as Hs. cbv zeta in Hs.
  destruct (shr_fexp F64.prec F64.emax q e l) as [mrs1 e1].
  cbn [fst snd] in Hs. destruct Hs as (Ee1 & Em1 & H1).
  set (t := Z.max 0 (fexp F64.prec F64.emax (Zdigits2 q + e) - e)) in *.
  assert (Ht : t = fexp F64.prec F64.emax (Zdigits2 q + e) - e) by (unfold t; lia).
  assert (Ht0 : 0 <= t) by (unfold t; lia).
  assert (Hm1 : 0 <= shr_m mrs1).
  { rewrite Em1. apply Z.div_pos; [exact Hq|apply Z.pow_pos_nonneg; lia]. }
  assert (Hc1 : fexp F64.prec F64.emax (Zdigits2 (shr_m mrs1) + e1) = e1).
  { rewrite Em1, Zdigits2_div by assumption.
    pose proof (Zdigits2_nonneg q). rewrite fexp_eq in *. lia. }
  apply (locates_scaled n d (- e) t) in H1; [|lia|exact Ht0].
  replace (t - - e) with e1 in H1 by lia.
  destruct (scaled_pos n d e1 Hn Hd) as [Ha Hb].
  pose proof (round_shr_spec _ _ _ e1 _ Hb Hm1 H1 Hc1) as Hr. cbv zeta in Hr.
  destruct (shr_fexp F64.prec F64.emax
              (round_nearest_even (shr_m mrs1) (loc_of_shr_record mrs1)) e1 loc_Exact)
    as [mrs2 e2].
  cbn [fst snd] in Hr. destruct Hr as (Hm2 & Hc2 & Hr).
  rewrite fexp_eq in Hc2.
  destruct (shr_m mrs2) as [|m|m] eqn:Em2; [| |lia].
  - (* zero *)
    unfold F64.nearest. rewrite eqb_reflx. cbn [andb]. apply Z.leb_le.
    change (Zdigits2 0) with 0 in Hc2.
    assert (E2 : e2 = -1074) by lia.
    destruct Hr as [[E21 [_ Hhi]]|[_ [E _]]]; [|discriminate E].
    assert (E1 : e1 = -1074) by lia. rewrite E1 in *.
    unfold F64.scaled in Hhi. cbn [fst snd] in Hhi.
    change (0 <=? -1074) with false in Hhi. cbv iota in Hhi.
    change (- -1074) with 1074 in Hhi.
    change (2 * 0 + 1) with 1 in Hhi. rewrite Z.mul_1_l in Hhi. lia.
  - destruct (Z.leb_spec e2 (F64.emax - F64.prec)) as [Hle|Hgt].
    + (* finite *)
      unfold F64.nearest. rewrite eqb_reflx.
      assert (Hv : SpecFloat.valid_binary F64.prec F64.emax (S754_finite neg m e2) = true).
      { unfold SpecFloat.valid_binary, bounded, canonical_mantissa.
        change (Z.pos (digits2_pos m)) with (Zdigits2 (Z.pos m)).
        rewrite fexp_eq. apply andb_true_intro. split; [apply Z.eqb_eq; exact Hc2|].
        apply Z.leb_le. exact Hle. }
      rewrite Hv. cbn [andb].
      destruct Hr as [[E21 Hnear]|(E21 & E52 & Hsub & Hlo & Hhi)].
      * subst e2. destruct (F64.scaled n d e1) as [a b]. cbn [fst snd] in *.
        apply near_true in Hnear. destruct Hnear as [Hbelow Habove].
        rewrite Hbelow, Habove. reflexivity.
      * rewrite E52. change (2 ^ 52 =? 2 ^ 52) with true.
        destruct (Z.ltb_spec (-1074) e2) as [_|]; [|lia]. cbn [andb].
        subst e2.
        destruct (scaled_succ n d e1) as [[Ea Eb]|[Ea Eb]];
          destruct (F64.scaled n d (e1 + 1)) as [a b];
          destruct (F64.scaled n d e1) as [a1 b1]; cbn [fst snd] in *;
          cbv beta iota zeta;
          (apply andb_true_intro; split;
           [apply Z.leb_le|apply orb_true_intro; left; apply Z.ltb_lt]); lia.
    + (* beyond the largest number *)
      unfold F64.nearest. rewrite eqb_reflx. cbn [andb]. apply Z.leb_le.
      change (F64.emax - F64.prec) with 971 in Hgt.
      assert (Hd2 : Zdigits2 (Z.pos m) = 53) by lia.
      pose proof (Zdigits2_spec (Z.pos m) ltac:(lia)) as [Hmlo _].
      rewrite Hd2 in Hmlo. change (2 ^ (53 - 1)) with (2 ^ 52) in Hmlo.
      destruct Hr as [[E21 [Hlo _]]|(E21 & E52 & Hsub & Hlo & Hhi)].
      * subst e2. unfold F64.scaled in Hlo. cbn [fst snd] in Hlo.
        destruct (Z.leb_spec 0 e1) as [_|]; [|lia].
        assert (Hp : 2 ^ 972 <= 2 ^ e1) by (apply Z.pow_le_mono_r; lia).
        assert (HX : d * 2 ^ 972 <= d * 2 ^ e1) by (apply Z.mul_le_mono_nonneg_l; lia).
        revert Hlo HX. generalize (d * 2 ^ e1). intros X Hlo HX.
        destruct (Z.eqb_spec (Z.pos m) (2 ^ 52)) as [E|E].
        -- destruct (Z.ltb_spec (-1074) e1) as [_|]; [|lia]. cbn [andb] in Hlo.
           rewrite E in Hlo. lia.
        -- cbn [andb] in Hlo.
           assert (Hm53 : (2 ^ 53 + 1) * X <= (2 * Z.pos m - 1) * X).
           { apply Z.mul_le_mono_nonneg_r; lia. }
           lia.
      * subst e2. unfold F64.scaled in Hlo. cbn [fst snd] in Hlo.
        destruct (Z.leb_spec 0 e1) as [_|]; [|lia].
        assert (Hp : 2 ^ 971 <= 2 ^ e1) by (apply Z.pow_le_mono_r; lia).
        assert (HX : d * 2 ^ 971 <= d * 2 ^ e1) by (apply Z.mul_le_mono_nonneg_l; lia).
        revert Hlo HX. generalize (d * 2 ^ e1). intros X Hlo HX. lia.
Qed.

(** The conversion of a quotient is correctly rounded. *)
Lemma of_ratio_nearest (neg : bool) (n d : Z) :
  0 <= n -> 0 < d -> F64.nearest neg n d (F64.of_ratio neg n d) = true.
Proof.
  intros Hn Hd. unfold F64.of_ratio.
  destruct n as [|p|p]; [|clear Hn|lia].
  - unfold F64.nearest. rewrite eqb_reflx. cbn [andb]. apply Z.leb_le. lia.
  - pose proof (SFdiv_core_binary_spec (Z.pos p) d ltac:(lia) Hd) as Hs.
    cbv zeta in Hs.
    destruct (SFdiv_core_binary F64.prec F64.emax (Z.pos p) 0 d 0) as [[q e] l].
    cbn [fst snd] in Hs. destruct Hs as (He & Hq & H & Hfe).
    apply binary_round_aux_nearest; try assumption. lia.
Qed.

Lemma of_decimal_nearest (neg : bool) (m e : Z) :
  0 <= m -> F64.nearest_decimal neg m e (F64.of_decimal neg m e) = true.
Proof.
  intros Hm. unfold F64.nearest_decimal, F64.of_decimal.
  destruct (Z.leb_spec 0 e) as [He|He]; apply of_ratio_nearest;
    solve [lia
          |apply Z.mul_nonneg_nonneg; [exact Hm|apply Z.pow_nonneg; lia]
          |apply Z.pow_pos_nonneg; lia].
Qed.

Lemma of_Q_nearest (q : Q) : F64.nearest_Q q (F64.of_Q q) = true.
Proof. unfold F64.nearest_Q, F64.of_Q. apply of_ratio_nearest; lia. Qed.

(** ** Facts about spaces *)

Lemma prefix_space (c : ascii) (s : string) :
  prefix " " (String c s) = (c =? " ")%char.
Proof.
  change (prefix " " (String c s))
    with (if ascii_dec " " c then prefix "" s else false).
  destruct (ascii_dec " " c) as [<-|Hne].
  - destruct s; reflexivity.
  - symmetry. apply Ascii.eqb_neq. congruence.
Qed.






(** ** Facts about digits *)

Lemma isDigit_not (c : ascii) :
  strconv.isDigit c = true ->
  (c =? "_")%char = false /\ (c =? ".")%char = false /\ (c =? " ")%char = false.
Proof.
  intros H. repeat split; apply Ascii.eqb_neq; intros ->; discriminate.
Qed.

Lemma isDigit_not_sign (c : ascii) :
  strconv.isDigit c = true -> (c =? "+")%char = false /\ (c =? "-")%char = false.
Proof.
  intros H. repeat split; apply Ascii.eqb_neq; intros ->; discriminate.
Qed.

Lemma isDigit_range (c : ascii) :
  strconv.isDigit c = true -> 0 <= code c - 48 <= 9.
Proof.
  unfold strconv.isDigit. intros H. apply andb_prop in H. lia.
Qed.

Lemma valueFrom_bound (s : string) (n : Z) :
  allDigits s = true -> 0 <= n ->
  n * 10 ^ Z.of_nat (String.length s) <= valueFrom n s
    < (n + 1) * 10 ^ Z.of_nat (String.length s).
Proof.
  revert n. induction s as [|c s IH]; intros n Hs Hn.
  - cbn. lia.
  - cbn [allDigits valueFrom String.length] in *. apply andb_prop in Hs.
    destruct Hs as [Hc Hs]. pose proof (isDigit_range c Hc) as Hr.
    rewrite Nat2Z.inj_succ, Z.pow_succ_r by lia.
    specialize (IH (n * 10 + (code c - 48)) Hs ltac:(lia)).
    assert (0 < 10 ^ Z.of_nat (String.length s)) by (apply Z.pow_pos_nonneg; lia).
    nia.
Qed.



(** ** Facts about [strconv.ParseFloat] *)

Lemma stops_empty : stops "".
Proof. intros st. reflexivity. Qed.


(** The mantissa loop over a run of digits after the point: the mantissa
    grows by one decimal place for each digit, and the point moves left by
    as many places as there are digits. *)
Lemma readDigits_digits (ds rest : string) :
  allDigits ds = true -> stops rest ->
  forall st, 0 <= strconv.nd st -> (strconv.nd st = 0 -> strconv.mant st = 0) ->
  exists st',
    strconv.readDigits false (ds ++ rest) st = (st', rest) /\
    strconv.mant st' = valueFrom (strconv.mant st) ds /\
    strconv.dp st' - strconv.nd st' =
      strconv.dp st - strconv.nd st - Z.of_nat (String.length ds) /\
    strconv.dp st - Z.of_nat (String.length ds) <= strconv.dp st' <= strconv.dp st /\
    strconv.sawdot st' = strconv.sawdot st /\
    strconv.underscores st' = strconv.underscores st /\
    strconv.sawdigits st' = (strconv.sawdigits st || negb (ds =? "")%string)%bool.
Proof.
  intros Hds Hrest. induction ds as [|c ds IH]; intros st Hnd Hinv.
  - exists st. cbn [append String.length valueFrom]. rewrite Hrest.
    repeat split; try lia. cbn. rewrite orb_false_r. reflexivity.
  - cbn [allDigits] in Hds. apply andb_prop in Hds. destruct Hds as [Hc Hds].
    destruct (isDigit_not c Hc) as (H_ & Hdot & _).
    pose proof (isDigit_range c Hc) as Hr.
    cbn [append strconv.readDigits]. rewrite H_, Hdot, Hc.
    destruct ((c =? "0")%char && (strconv.nd st =? 0)) eqn:Hz.
    + apply andb_prop in Hz. destruct Hz as [Hz1 Hz2].
      apply Ascii.eqb_eq in Hz1. apply Z.eqb_eq in Hz2. subst c.
      destruct (IH Hds (strconv.mkDigits (strconv.mant st) (strconv.nd st)
                          (strconv.dp st - 1) (strconv.sawdot st) true
                          (strconv.underscores st)))
        as (st' & Hrd & Hm & Hdn & Hdp & Hsd & Hus & Hsg);
        [exact Hnd|exact Hinv|].
      cbn [strconv.mant strconv.nd strconv.dp strconv.sawdot strconv.underscores
           strconv.sawdigits] in *.
      exists st'. rewrite Hrd, Hm, Hsg, Hinv by exact Hz2.
      cbn [valueFrom String.length]. rewrite Nat2Z.inj_succ.
      change (code "0" - 48) with 0. cbn [Z.mul Z.add].
      repeat split; try lia; try assumption.
      rewrite orb_true_r. reflexivity.
    + destruct (IH Hds (strconv.mkDigits
                          (strconv.mant st * 10 + (code c - 48)) (strconv.nd st + 1)
                          (strconv.dp st) (strconv.sawdot st) true
                          (strconv.underscores st)))
        as (st' & Hrd & Hm & Hdn & Hdp & Hsd & Hus & Hsg);
        [cbn [strconv.nd]; lia|cbn [strconv.nd]; lia|].
      cbn [strconv.mant strconv.nd strconv.dp strconv.sawdot strconv.underscores
           strconv.sawdigits] in *.
      exists st'. rewrite Hrd, Hm, Hsg.
      cbn [valueFrom String.length]. rewrite Nat2Z.inj_succ.
      repeat split; try lia; try assumption.
      rewrite orb_true_r. reflexivity.
Qed.

Lemma append_empty_r (s : string) : s ++ "" = s.
Proof. induction s as [|c s IH]; cbn; congruence. Qed.

(** A decimal number of at most thirty digits, scaled by at most thirty
    places either way, rounds to a finite number. *)
Lemma of_decimal_finite (neg : bool) (m e : Z) :
  0 <= m < 10 ^ 30 -> -30 <= e <= 30 ->
  F64.is_inf (F64.of_decimal neg m e) = false.
Proof.
  intros Hm He. unfold F64.of_decimal.
  assert (H30 : 10 ^ 30 * 10 ^ 30 < 2 ^ 200) by reflexivity.
  destruct (Z.leb_spec 0 e).
  - apply of_ratio_finite; [|split; reflexivity].
    assert (0 < 10 ^ e <= 10 ^ 30)
      by (split; [apply Z.pow_pos_nonneg|apply Z.pow_le_mono_r]; lia).
    revert Hm H30 H0. generalize (10 ^ 30) (10 ^ e) (2 ^ 200). intros A B C. nia.
  - apply of_ratio_finite.
    + revert Hm H30. generalize (10 ^ 30) (2 ^ 200). intros A C. nia.
    + assert (0 < 10 ^ (- e) <= 10 ^ 30)
        by (split; [apply Z.pow_pos_nonneg|apply Z.pow_le_mono_r]; lia).
      revert H30 H0. generalize (10 ^ 30) (10 ^ (- e)) (2 ^ 200). intros A B C. nia.
Qed.

(** The number [readFloat] hands on, rounded: [m * 10^e] to the nearest,
    when the point lies where no short cut applies. *)
Lemma atof64_decimal (neg : bool) (m e p : Z) :
  -330 <= p <= 310 ->
  strconv.atof64 (strconv.mkNumber neg false m (if m =? 0 then 0 else e) p) =
  F64.of_decimal neg m e.
Proof.
  intros Hp. unfold strconv.atof64.
  cbn [strconv.hex strconv.mantissa strconv.neg strconv.exp strconv.point].
  destruct (Z.eqb_spec m 0) as [->|Hm]; [unfold F64.of_decimal; destruct (0 <=? e); reflexivity|].
  destruct (Z.gtb_spec p 310); [lia|]. destruct (Z.ltb_spec p (-330)); [lia|].
  reflexivity.
Qed.

Lemma valueFrom_small (s : string) :
  allDigits s = true -> (String.length s <= 30)%nat -> 0 <= decimalValue s < 10 ^ 30.
Proof.
  intros Hs Hlen. pose proof (valueFrom_bound s 0 Hs ltac:(lia)) as H.
  unfold decimalValue.
  assert (10 ^ Z.of_nat (String.length s) <= 10 ^ 30) by (apply Z.pow_le_mono_r; lia).
  lia.
Qed.



Ltac readFloat_head :=
  unfold strconv.ParseFloat;
  match goal with
  | |- context [strconv.special ?s] =>
      change (strconv.special s) with (@None (float64 * nat))
  end;
  unfold strconv.readFloat; cbn [append];
  repeat (progress (
    repeat match goal with
    | |- context [Ascii.eqb (Ascii ?a0 ?a1 ?a2 ?a3 ?a4 ?a5 ?a6 ?a7)
                            (Ascii ?b0 ?b1 ?b2 ?b3 ?b4 ?b5 ?b6 ?b7)] =>
        let a := constr:(Ascii a0 a1 a2 a3 a4 a5 a6 a7) in
        let b := constr:(Ascii b0 b1 b2 b3 b4 b5 b6 b7) in
        let v := eval vm_compute in (Ascii.eqb a b) in
        change (Ascii.eqb a b) with v
    end;
    cbn [andb]; cbv iota)).

(** A point followed by digits: the digits are the decimal places. *)
Lemma ParseFloat_fraction (ds : string) :
  allDigits ds = true ->
  (2 <= String.length ds <= 20)%nat ->
  strconv.ParseFloat ("." ++ ds) =
  (F64.of_decimal false (decimalValue ds) (- Z.of_nat (String.length ds)), None).
Proof.
  intros Hds Hlen.
  destruct (readDigits_digits ds "" Hds stops_empty
              (strconv.mkDigits 0 0 0 true false false))
    as (st & Hrd & Hm & Hdn & Hdp & Hsd & Hus & Hsg); [cbn; lia|reflexivity|].
  rewrite append_empty_r in Hrd.
  pose proof (valueFrom_small ds Hds ltac:(lia)) as Hv.
  cbn [strconv.mant strconv.nd strconv.dp strconv.sawdot strconv.underscores
       strconv.sawdigits] in *.
  destruct ds as [|d1 [|d2 ds']]; try (cbn in Hlen; lia).
  readFloat_head.
  set (ds := String d1 (String d2 ds')) in *.
  change (strconv.readDigits false (String "." ds) strconv.noDigits)
    with (strconv.readDigits false ds (strconv.mkDigits 0 0 0 true false false)).
  rewrite Hrd, Hsg, Hsd, Hus. subst ds. cbn [String.eqb negb andb orb]. cbv iota.
  set (ds := String d1 (String d2 ds')) in *.
  replace (strconv.dp st - strconv.nd st) with (- Z.of_nat (String.length ds)) by lia.
  rewrite atof64_decimal by lia.
  fold (decimalValue ds) in Hm. rewrite Hm.
  rewrite of_decimal_finite by lia. reflexivity.
Qed.


(** ** Facts about the layout *)

(** *** The order of the fields *)


Lemma allFields_split (f : field) :
  allFields = (before f ++ f :: skipn (S (fieldIndex f)) allFields)%list.
Proof. destruct f; reflexivity. Qed.

Lemma in_allFields (f : field) : In f allFields.
Proof. destruct f; cbn; tauto. Qed.

Lemma before_spec (f g : field) :
  In g (before f) <-> (fieldIndex g < fieldIndex f)%nat.
Proof.
  split.
  - destruct f; cbn; intros H;
      repeat (destruct H as [<-|H]; [cbn; lia|]); destruct H.
  - destruct f, g; cbn; intros H; try lia; tauto.
Qed.

Lemma fieldIndex_inj (f g : field) : fieldIndex f = fieldIndex g -> f = g.
Proof. destruct f, g; cbn; intros H; try reflexivity; discriminate. Qed.

(** *** Extraction and the length of the lines *)

Lemma slice_returns (s : string) (lo hi : nat) :
  (lo <= hi)%nat ->
  (hi <= String.length s)%nat -> slice s lo hi = Return (substring lo (hi - lo) s).
Proof.
  intros Hlo Hhi. unfold slice.
  destruct (Nat.leb_spec hi (String.length s)); [|lia].
  destruct (Nat.leb_spec lo hi); [reflexivity|lia].
Qed.

Lemma slice_panics (s : string) (lo hi : nat) :
  (lo <= hi)%nat ->
  (String.length s < hi)%nat -> slice s lo hi = Panic (SliceBounds hi (String.length s)).
Proof.
  intros Hlo Hhi. unfold slice.
  destruct (Nat.leb_spec hi (String.length s)); [lia|reflexivity].
Qed.

Lemma slice_cases (s : string) (lo hi : nat) :
  (lo <= hi)%nat ->
  ((hi <= String.length s)%nat /\ slice s lo hi = Return (substring lo (hi - lo) s)) \/
  ((String.length s < hi)%nat /\ slice s lo hi = Panic (SliceBounds hi (String.length s))).
Proof.
  intros H. destruct (Nat.le_gt_cases hi (String.length s)).
  - left. split; [assumption|apply slice_returns; assumption].
  - right. split; [assumption|apply slice_panics; assumption].
Qed.

Ltac slices :=
  repeat match goal with
  | |- context [slice ?l ?a ?b] =>
      let H := fresh "Hslice" in
      destruct (slice_cases l a b ltac:(lia)) as [[? H]|[? H]]; rewrite H in *;
      cbn [bind] in *
  end.

(** A field is extracted exactly when its line reaches the column at which
    the field ends. *)
Lemma fieldText_returns (f : field) (line1 line2 : string) :
  (fieldEnd f <= String.length (lineOf f line1 line2))%nat <->
  exists t, fieldText f line1 line2 = Return t.
Proof.
  destruct f; unfold fieldText, rawText, rebuilt, lineOf; cbn [onLine1 fieldEnd];
    slices; split; intros Hx; try lia; try (eexists; reflexivity);
    destruct Hx as [t Hx]; discriminate.
Qed.

(** Otherwise the extraction panics, with a slice bound beyond the line. *)
Lemma fieldText_panics (f : field) (line1 line2 : string) (p : panic) :
  fieldText f line1 line2 = Panic p ->
  exists hi, p = SliceBounds hi (String.length (lineOf f line1 line2)) /\
             (String.length (lineOf f line1 line2) < hi <= fieldEnd f)%nat.
Proof.
  destruct f; unfold fieldText, rawText, rebuilt, lineOf; cbn [onLine1 fieldEnd];
    slices; intros [= <-]; eexists; (split; [reflexivity|lia]).
Qed.

Lemma truncated_field (line1 line2 : string) :
  truncated line1 line2 ->
  exists f, (String.length (lineOf f line1 line2) < fieldEnd f)%nat.
Proof.
  intros [H|H]; [exists Fbstar|exists Fno]; exact H.
Qed.

Lemma length_substring (n m : nat) (s : string) :
  (n + m <= String.length s)%nat -> String.length (substring n m s) = m.
Proof.
  revert n m. induction s as [|c s IH]; intros [|n] [|m]; cbn; intros H;
    try reflexivity; try lia.
  - rewrite (IH 0%nat m); [reflexivity|lia].
  - apply (IH n 0%nat). lia.
  - apply (IH n (S m)). lia.
Qed.

Lemma slice_length (s t : string) (lo hi : nat) :
  (lo <= hi)%nat -> slice s lo hi = Return t -> String.length t = (hi - lo)%nat.
Proof.
  intros Hlo. destruct (slice_cases s lo hi Hlo) as [[Hlen ->]|[Hlen ->]];
    [|discriminate].
  intros [= <-]. apply length_substring. lia.
Qed.


Lemma length_append (a b : string) :
  String.length (a ++ b) = (String.length a + String.length b)%nat.
Proof. induction a as [|c a IH]; cbn; congruence. Qed.

Lemma occurs_space (s : string) : occurs " " s = negb (countSpaces s =? 0)%nat.
Proof.
  induction s as [|c s IH]; [reflexivity|]. cbn [occurs countSpaces].
  destruct (c =? " ")%char; [reflexivity|]. exact IH.
Qed.

Lemma readDigits_spaces (hex : bool) (s : string) :
  forall st, countSpaces (snd (strconv.readDigits hex s st)) = countSpaces s.
Proof.
  induction s as [|c s IH]; intros st; [reflexivity|].
  cbn [strconv.readDigits].
  destruct (c =? "_")%char eqn:H1.
  { rewrite IH. apply Ascii.eqb_eq in H1. subst c. reflexivity. }
  destruct (c =? ".")%char eqn:H2.
  { destruct (strconv.sawdot st); [reflexivity|]. rewrite IH.
    apply Ascii.eqb_eq in H2. subst c. reflexivity. }
  destruct (strconv.isDigit c) eqn:H3.
  { destruct (isDigit_not c H3) as (_ & _ & Hs).
    destruct ((c =? "0")%char && (strconv.nd st =? 0)); rewrite IH;
      cbn [countSpaces]; rewrite Hs; reflexivity. }
  destruct (hex && (97 <=? strconv.lower c) && (strconv.lower c <=? 102)) eqn:H4;
    [|reflexivity].
  rewrite IH. cbn [countSpaces].
  destruct (Ascii.eqb_spec c " ") as [->|]; [|reflexivity].
  destruct hex; discriminate H4.
Qed.

Lemma readExponent_spaces (s : string) :
  forall e us, countSpaces (snd (strconv.readExponent s e us)) = countSpaces s.
Proof.
  induction s as [|c s IH]; intros e us; [reflexivity|].
  cbn [strconv.readExponent].
  destruct (c =? "_")%char eqn:H1.
  { rewrite IH. apply Ascii.eqb_eq in H1. subst c. reflexivity. }
  destruct (strconv.isDigit c) eqn:H3; [|reflexivity].
  destruct (isDigit_not c H3) as (_ & _ & Hs).
  rewrite IH. cbn [countSpaces]. rewrite Hs. reflexivity.
Qed.

(** [readFloat] reads no space: what it leaves has all the spaces of the
    text. *)
Lemma readFloat_spaces (s : string) (x : strconv.number) (rest : string) :
  strconv.readFloat s = Some (x, rest) -> countSpaces rest = countSpaces s.
Proof.
  unfold strconv.readFloat. destruct s as [|c r]; [discriminate|].
  set (s := String c r).
  set (p1 := if (c =? "+")%char then (false, r)
             else if (c =? "-")%char then (true, r) else (false, s)).
  assert (H1 : countSpaces (snd p1) = countSpaces s).
  { subst p1 s. destruct (Ascii.eqb_spec c "+") as [->|]; [reflexivity|].
    destruct (Ascii.eqb_spec c "-") as [->|]; reflexivity. }
  destruct p1 as [neg s1]. cbn [snd] in H1.
  set (p2 := match s1 with
             | String c0 (String c1 (String c2 r2)) =>
                 if (c0 =? "0")%char && (strconv.lower c1 =? 120)
                 then (true, String c2 r2) else (false, s1)
             | _ => (false, s1)
             end).
  assert (H2 : countSpaces (snd p2) = countSpaces s1).
  { subst p2. destruct s1 as [|c0 [|c1 [|c2 r2]]]; try reflexivity.
    destruct ((c0 =? "0")%char && (strconv.lower c1 =? 120)) eqn:Hx; [|reflexivity].
    apply andb_prop in Hx. destruct Hx as [Hx0 Hx1].
    apply Ascii.eqb_eq in Hx0. subst c0. cbn [snd countSpaces].
    change (("0" =? " ")%char) with false. cbv iota.
    destruct (Ascii.eqb_spec c1 " ") as [->|]; [discriminate Hx1|reflexivity]. }
  destruct p2 as [hex s2]. cbn [snd] in H2.
  pose proof (readDigits_spaces hex s2 strconv.noDigits) as H3.
  destruct (strconv.readDigits hex s2 strconv.noDigits) as [st s3]. cbn [snd] in H3.
  destruct (negb (strconv.sawdigits st)); [discriminate|].
  assert (Hfin : forall dp us rest',
    (let exp := if strconv.mant st =? 0 then 0
                else dp - (if hex then strconv.nd st * 4 else strconv.nd st) in
     let read := substring 0 (String.length s - String.length rest') s in
     if us && negb (strconv.underscoreOK read) then None
     else Some (strconv.mkNumber neg hex (strconv.mant st) exp dp, rest'))
    = Some (x, rest) -> rest' = rest).
  { intros dp us rest'. cbv zeta.
    destruct (us && negb (strconv.underscoreOK _)); [discriminate|].
    intros [= _ E]. exact E. }
  destruct s3 as [|ce r3].
  - destruct hex; [discriminate|]. intros H. apply Hfin in H. subst rest.
    congruence.
  - destruct (strconv.lower ce =? (if hex then 112 else 101)) eqn:He.
    + destruct r3 as [|cs r4]; [discriminate|].
      set (p5 := if (cs =? "+")%char then (1, r4)
                 else if (cs =? "-")%char then (-1, r4) else (1, String cs r4)).
      assert (H5 : countSpaces (snd p5) = countSpaces (String cs r4)).
      { subst p5. destruct (Ascii.eqb_spec cs "+") as [->|]; [reflexivity|].
        destruct (Ascii.eqb_spec cs "-") as [->|]; reflexivity. }
      destruct p5 as [esign r5]. cbn [snd] in H5.
      destruct r5 as [|cd r6]; [discriminate|].
      destruct (strconv.isDigit cd); [|discriminate].
      pose proof (readExponent_spaces (String cd r6) 0 (strconv.underscores st)) as H6.
      destruct (strconv.readExponent (String cd r6) 0 (strconv.underscores st))
        as [[e us] rest'].
      cbn [snd] in H6. intros H. apply Hfin in H. subst rest'.
      rewrite H6, H5, <- H1, <- H2, <- H3. cbn [countSpaces].
      destruct (Ascii.eqb_spec ce " ") as [->|]; [|reflexivity].
      destruct hex; discriminate He.
    + destruct hex; [discriminate|]. intros H. apply Hfin in H. subst rest.
      congruence.
Qed.

Lemma commonPrefix_le (s pre : string) :
  (strconv.commonPrefixLenIgnoreCase s pre <= String.length s)%nat.
Proof.
  revert pre. induction s as [|c s IH]; intros pre; [destruct pre; cbn; lia|].
  destruct pre as [|p pre]; cbn [strconv.commonPrefixLenIgnoreCase String.length]; [lia|].
  destruct (_ =? code p); [|lia]. specialize (IH pre). lia.
Qed.

Lemma commonPrefix_le_pre (s pre : string) :
  (strconv.commonPrefixLenIgnoreCase s pre <= String.length pre)%nat.
Proof.
  revert pre. induction s as [|c s IH]; intros pre; [destruct pre; cbn; lia|].
  destruct pre as [|p pre]; cbn [strconv.commonPrefixLenIgnoreCase String.length]; [lia|].
  destruct (_ =? code p); [|lia]. specialize (IH pre). lia.
Qed.

(** A text that is, whole, a prefix of lower-case letters up to the case of
    its letters holds no byte below the letters. *)
Lemma commonPrefix_whole (c0 : ascii) (s pre : string) :
  folded c0 < 97 -> lowerCase pre = true ->
  strconv.commonPrefixLenIgnoreCase s pre = String.length s ->
  occurs c0 s = false.
Proof.
  intros Hc0. revert pre. induction s as [|c s IH]; intros pre Hpre; [reflexivity|].
  destruct pre as [|p pre]; [discriminate|].
  cbn [strconv.commonPrefixLenIgnoreCase String.length lowerCase occurs] in *.
  apply andb_prop in Hpre. destruct Hpre as [Hp Hpre].
  fold (folded c). destruct (Z.eqb_spec (folded c) (code p)) as [E|E]; [|discriminate].
  intros [= H]. rewrite (IH pre Hpre H), orb_false_r.
  apply Ascii.eqb_neq. intros ->. apply Z.leb_le in Hp. lia.
Qed.

Lemma substring_whole (s : string) : substring 0 (String.length s) s = s.
Proof. induction s as [|c s IH]; cbn; congruence. Qed.

(** An infinity or a NaN that makes up the whole text: the text holds no
    space and no point, and is at most nine bytes long. *)
Lemma special_whole (s : string) (f : float64) (c0 : ascii) :
  strconv.special s = Some (f, String.length s) ->
  folded c0 < 97 -> (c0 =? "+")%char = false -> (c0 =? "-")%char = false ->
  occurs c0 s = false /\ (String.length s <= 9)%nat /\ is_finite f = false.
Proof.
  intros H Hc0 Hplus Hminus.
  assert (Hinf : forall neg nsign r,
    (let n := strconv.commonPrefixLenIgnoreCase r "infinity" in
     let n := if (3 <? n)%nat && (n <? 8)%nat then 3%nat else n in
     if (n =? 3)%nat || (n =? 8)%nat then Some (F64.inf neg, (nsign + n)%nat)
     else None) = Some (f, (nsign + String.length r)%nat) ->
    occurs c0 r = false /\ (String.length r <= 8)%nat /\ is_finite f = false).
  { intros neg nsign r. cbv zeta.
    pose proof (commonPrefix_le r "infinity") as Hle.
    pose proof (commonPrefix_le_pre r "infinity") as Hle'.
    cbn [String.length] in Hle'.
    destruct ((3 <? _)%nat && (_ <? 8)%nat) eqn:Hmid.
    - cbn [Nat.eqb orb]. intros [= <- E].
      apply andb_prop in Hmid. destruct Hmid as [Hm _].
      apply Nat.ltb_lt in Hm. lia.
    - destruct ((_ =? 3)%nat || (_ =? 8)%nat); [|discriminate].
      intros [= <- E]. split; [|split; [lia|reflexivity]].
      apply (commonPrefix_whole c0 r "infinity" Hc0 eq_refl). lia. }
  unfold strconv.special in H. destruct s as [|c r]; [discriminate|].
  cbn [occurs String.length].
  destruct (Ascii.eqb_spec c "+") as [->|_].
  { destruct (Hinf false 1%nat r H) as (H1 & H2 & H3).
    rewrite H1, Ascii.eqb_sym, Hplus. repeat split; [lia|exact H3]. }
  destruct (Ascii.eqb_spec c "-") as [->|_].
  { destruct (Hinf true 1%nat r H) as (H1 & H2 & H3).
    rewrite H1, Ascii.eqb_sym, Hminus. repeat split; [lia|exact H3]. }
  destruct ((c =? "i")%char || (c =? "I")%char).
  { destruct (Hinf false 0%nat (String c r) H) as (H1 & H2 & H3).
    cbn [occurs String.length] in H1, H2. rewrite H1. repeat split; [lia|exact H3]. }
  destruct ((c =? "n")%char || (c =? "N")%char); [|discriminate].
  destruct (Nat.eqb_spec (strconv.commonPrefixLenIgnoreCase (String c r) "nan") 3)
    as [E|E]; [|discriminate].
  injection H as <- H.
  split; [|split; [cbn [String.length] in H; lia|reflexivity]].
  apply (commonPrefix_whole c0 (String c r) "nan" Hc0 eq_refl).
  cbn [String.length]. lia.
Qed.

(** A text with a space is no number for [ParseFloat]. *)
Lemma ParseFloat_space (s : string) :
  (0 < countSpaces s)%nat ->
  strconv.ParseFloat s = (F64.zero false, Some (strconv.syntaxError "ParseFloat" s)).
Proof.
  intros Hsp. unfold strconv.ParseFloat.
  destruct (strconv.special s) as [[f n]|] eqn:Hs.
  - destruct (Nat.eqb_spec n (String.length s)) as [->|]; [|reflexivity].
    destruct (special_whole s f " " Hs) as (H & _); try reflexivity.
    rewrite occurs_space in H. destruct (countSpaces s); [lia|discriminate].
  - destruct (strconv.readFloat s) as [[x [|c r]]|] eqn:Hr; try reflexivity.
    apply readFloat_spaces in Hr. cbn in Hr. lia.
Qed.

(** ** More about [strconv.ParseInt] *)

Lemma digitVal_space : strconv.digitVal " " = None.
Proof. reflexivity. Qed.

Lemma parseUintLoop_error (maxVal : Z) (s0 s : string) (n v : Z) (e : error) :
  strconv.parseUintLoop maxVal s0 s n = (v, Some e) ->
  e = strconv.syntaxError "ParseUint" s0 \/
  (e = strconv.rangeError "ParseUint" s0 /\ v = maxVal).
Proof.
  revert n. induction s as [|c s IH]; intros n; cbn [strconv.parseUintLoop];
    [discriminate|].
  destruct (strconv.digitVal c) as [d|]; [|intros [= <- <-]; left; reflexivity].
  destruct (d >=? 10); [intros [= <- <-]; left; reflexivity|].
  destruct (n >=? _); [intros [= <- <-]; right; split; reflexivity|].
  destruct (_ || _); [intros [= <- <-]; right; split; reflexivity|].
  apply IH.
Qed.

Lemma parseUintLoop_space (maxVal : Z) (s0 s : string) (n : Z) :
  (0 < countSpaces s)%nat ->
  snd (strconv.parseUintLoop maxVal s0 s n) <> None.
Proof.
  revert n. induction s as [|c s IH]; intros n Hsp; [cbn in Hsp; lia|].
  cbn [strconv.parseUintLoop countSpaces] in *.
  destruct (Ascii.eqb_spec c " ") as [->|Hc]; [discriminate|].
  destruct (strconv.digitVal c) as [d|]; [|discriminate].
  destruct (d >=? 10); [discriminate|].
  destruct (n >=? _); [discriminate|].
  destruct (_ || _); [discriminate|].
  apply IH. exact Hsp.
Qed.

(** A text with a space is no number for [ParseInt]. *)
Lemma ParseInt_space (IntSize : Z) (s : string) (bitSize : Z) :
  IntSize = 32 \/ IntSize = 64 -> bitSize = 0 \/ bitSize = 64 ->
  (0 < countSpaces s)%nat ->
  snd (strconv.ParseInt IntSize s bitSize) <> None.
Proof.
  intros Hsize Hbits Hsp. unfold strconv.ParseInt.
  destruct s as [|c r]; [discriminate|].
  set (sd := if (c =? "+")%char then (false, r)
             else if (c =? "-")%char then (true, r) else (false, String c r)).
  assert (Hsd : (0 < countSpaces (snd sd))%nat).
  { subst sd. destruct (Ascii.eqb_spec c "+") as [->|]; [exact Hsp|].
    destruct (Ascii.eqb_spec c "-") as [->|]; exact Hsp. }
  destruct sd as [neg ds]. cbn [snd] in Hsd.
  unfold strconv.ParseUint.
  destruct ds as [|c' r']; [discriminate|].
  set (ds := String c' r') in *.
  assert (Hb : (bitSize <? 0) || (bitSize >? 64) = false)
    by (destruct Hbits as [->| ->]; reflexivity).
  rewrite Hb.
  set (bs := if bitSize =? 0 then IntSize else bitSize).
  assert (Hbs : bs = 32 \/ bs = 64).
  { subst bs. destruct Hbits as [->| ->]; [exact Hsize|right; reflexivity]. }
  pose proof (parseUintLoop_space (2 ^ bs - 1) ds ds 0 Hsd) as Hl.
  destruct (strconv.parseUintLoop (2 ^ bs - 1) ds ds 0) as [un [e|]] eqn:El;
    [|exfalso; apply Hl; reflexivity].
  destruct (parseUintLoop_error _ _ _ _ _ _ El) as [->|[-> ->]].
  - discriminate.
  - cbn [strconv.rangeError]. unfold strconv.rangeError.
    destruct Hbs as [->| ->]; destruct neg; discriminate.
Qed.

(** The number read from a short text is short. *)
Lemma ParseInt_range (IntSize : Z) (t : string) (bitSize v k : Z) :
  IntSize = 32 \/ IntSize = 64 -> bitSize = 0 \/ bitSize = 64 ->
  Z.of_nat (String.length t) <= k <= 9 ->
  strconv.ParseInt IntSize t bitSize = (v, None) ->
  - 10 ^ (k - 1) < v < 10 ^ k.
Proof.
  intros Hsize Hbits Hlen. unfold strconv.ParseInt.
  destruct t as [|c r]; [discriminate|].
  cbn [String.length] in Hlen. rewrite Nat2Z.inj_succ in Hlen.
  set (sd := if (c =? "+")%char then (false, r)
             else if (c =? "-")%char then (true, r) else (false, String c r)).
  assert (Hsd : (if fst sd then Z.of_nat (String.length (snd sd)) <= k - 1
                 else Z.of_nat (String.length (snd sd)) <= k)).
  { subst sd. destruct (c =? "+")%char; [cbn; lia|].
    destruct (c =? "-")%char; cbn [fst snd String.length]; lia. }
  destruct sd as [neg ds]. cbn [fst snd] in Hsd.
  unfold strconv.ParseUint.
  destruct ds as [|c' r']; [discriminate|].
  set (ds := String c' r') in *.
  assert (Hb : (bitSize <? 0) || (bitSize >? 64) = false)
    by (destruct Hbits as [->| ->]; reflexivity).
  rewrite Hb.
  set (bs := if bitSize =? 0 then IntSize else bitSize).
  assert (Hbs : bs = 32 \/ bs = 64).
  { subst bs. destruct Hbits as [->| ->]; [exact Hsize|right; reflexivity]. }
  assert (Hpow : 10 ^ Z.of_nat (String.length ds) <= 10 ^ 9)
    by (apply Z.pow_le_mono_r; destruct neg; lia).
  assert (Hpk : 10 ^ Z.of_nat (String.length ds) <= 10 ^ (if neg then k - 1 else k))
    by (apply Z.pow_le_mono_r; destruct neg; lia).
  assert (Hk1 : 10 ^ (k - 1) < 10 ^ k)
    by (apply Z.pow_lt_mono_r; lia).
  assert (Hk0 : 0 < 10 ^ (k - 1)) by (apply Z.pow_pos_nonneg; lia).
  change (10 ^ 9) with 1000000000 in Hpow.
  destruct (parseUintLoop_small (2 ^ bs - 1) (2 ^ bs - 1) ds ds 0) as [_ Hrange];
    try (destruct Hbs as [->| ->];
         change (2 ^ 32 - 1) with 4294967295;
         change (2 ^ 64 - 1) with 18446744073709551615;
         change strconv.maxUint64 with 18446744073709551615; lia).
  destruct (strconv.parseUintLoop (2 ^ bs - 1) ds ds 0) as [un [e|]] eqn:Hl;
    cbn [snd fst] in Hrange.
  - subst e. discriminate.
  - assert (Hun : 0 <= un < 1000000000) by lia.
    assert (Hcut : 2147483648 <= 2 ^ (bs - 1))
      by (destruct Hbs as [->| ->]; [change (2 ^ (32 - 1)) with 2147483648
                                   |change (2 ^ (64 - 1)) with 9223372036854775808]; lia).
    replace (un >=? 2 ^ (bs - 1)) with false
      by (symmetry; rewrite Z.geb_leb; apply Z.leb_gt; lia).
    replace (un >? 2 ^ (bs - 1)) with false
      by (symmetry; rewrite Z.gtb_ltb; apply Z.ltb_ge; lia).
    rewrite !andb_false_r. cbv iota.
    assert (Hi : strconv.int64 un = un).
    { unfold strconv.int64. change (2 ^ 63) with 9223372036854775808.
      change (2 ^ 64) with 18446744073709551616. rewrite Z.mod_small; lia. }
    assert (Hi' : strconv.int64 (- un) = - un).
    { unfold strconv.int64. change (2 ^ 63) with 9223372036854775808.
      change (2 ^ 64) with 18446744073709551616. rewrite Z.mod_small; lia. }
    rewrite Hi. destruct neg; [rewrite Hi'|]; intros [= <-]; lia.
Qed.

Lemma parseUintLoop_digits (maxVal : Z) (s0 s : string) (n : Z) :
  allDigits s = true -> 0 <= n ->
  (n + 1) * 10 ^ Z.of_nat (String.length s) - 1 <= maxVal ->
  maxVal <= strconv.maxUint64 ->
  strconv.parseUintLoop maxVal s0 s n = (valueFrom n s, None).
Proof.
  revert n. induction s as [|c s IH]; intros n Hs Hn Hmax Hm; [reflexivity|].
  cbn [strconv.parseUintLoop String.length allDigits valueFrom] in *.
  apply andb_prop in Hs. destruct Hs as [Hc Hs].
  pose proof (isDigit_range c Hc) as Hr.
  unfold strconv.digitVal. rewrite Hc.
  rewrite Nat2Z.inj_succ, Z.pow_succ_r in Hmax by lia.
  assert (Hp : 0 < 10 ^ Z.of_nat (String.length s)) by (apply Z.pow_pos_nonneg; lia).
  replace (code c - 48 >=? 10) with false
    by (symmetry; rewrite Z.geb_leb; apply Z.leb_gt; lia).
  change strconv.maxUint64 with 18446744073709551615 in *.
  change (18446744073709551615 / 10 + 1) with 1844674407370955162.
  assert (Hb : n * 10 + (code c - 48) + 1
               <= (n + 1) * (10 * 10 ^ Z.of_nat (String.length s))) by nia.
  destruct (Z.geb_spec n 1844674407370955162) as [Hc'|Hc']; [exfalso; nia|].
  unfold strconv.uint64. change (2 ^ 64) with 18446744073709551616.
  rewrite (Z.mod_small (n * 10)) by lia.
  rewrite (Z.mod_small (n * 10 + (code c - 48))) by nia.
  replace (n * 10 + (code c - 48) <? n * 10) with false
    by (symmetry; apply Z.ltb_ge; lia).
  replace (n * 10 + (code c - 48) >? maxVal) with false
    by (symmetry; rewrite Z.gtb_ltb; apply Z.ltb_ge; nia).
  cbn [orb]. apply IH; try assumption; [lia|nia].
Qed.

(** A run of one to nine digits is read as the number it denotes. *)
Lemma ParseInt_digits (IntSize : Z) (ds : string) (bitSize : Z) :
  IntSize = 32 \/ IntSize = 64 -> bitSize = 0 \/ bitSize = 64 ->
  allDigits ds = true -> (1 <= String.length ds <= 9)%nat ->
  strconv.ParseInt IntSize ds bitSize = (decimalValue ds, None).
Proof.
  intros Hsize Hbits Hds Hlen. unfold strconv.ParseInt.
  destruct ds as [|c r]; [cbn in Hlen; lia|].
  pose proof Hds as Hds'. cbn [allDigits] in Hds'. apply andb_prop in Hds'.
  destruct Hds' as [Hc _]. destruct (isDigit_not_sign c Hc) as [-> ->].
  set (ds := String c r) in *.
  unfold strconv.ParseUint. subst ds. cbv iota. set (ds := String c r) in *.
  assert (Hb : (bitSize <? 0) || (bitSize >? 64) = false)
    by (destruct Hbits as [->| ->]; reflexivity).
  rewrite Hb.
  set (bs := if bitSize =? 0 then IntSize else bitSize).
  assert (Hbs : bs = 32 \/ bs = 64).
  { subst bs. destruct Hbits as [->| ->]; [exact Hsize|right; reflexivity]. }
  assert (Hpow : 10 ^ Z.of_nat (String.length ds) <= 10 ^ 9)
    by (apply Z.pow_le_mono_r; lia).
  change (10 ^ 9) with 1000000000 in Hpow.
  pose proof (valueFrom_bound ds 0 Hds ltac:(lia)) as Hv.
  fold (decimalValue ds) in Hv.
  rewrite (parseUintLoop_digits (2 ^ bs - 1) ds ds 0 Hds);
    try (destruct Hbs as [->| ->];
         change (2 ^ 32 - 1) with 4294967295;
         change (2 ^ 64 - 1) with 18446744073709551615;
         change strconv.maxUint64 with 18446744073709551615; lia).
  fold (decimalValue ds).
  assert (Hcut : 2147483648 <= 2 ^ (bs - 1))
    by (destruct Hbs as [->| ->]; [change (2 ^ (32 - 1)) with 2147483648
                                 |change (2 ^ (64 - 1)) with 9223372036854775808]; lia).
  replace (decimalValue ds >=? 2 ^ (bs - 1)) with false
    by (symmetry; rewrite Z.geb_leb; apply Z.leb_gt; lia).
  cbn [negb andb]. cbv iota.
  unfold strconv.int64. change (2 ^ 63) with 9223372036854775808.
  change (2 ^ 64) with 18446744073709551616. rewrite Z.mod_small by lia.
  f_equal. lia.
Qed.

(** ** What [ParseFloat] returns without an error *)

Lemma binary_round_aux_exact (neg : bool) (m e : Z) :
  0 <= m -> binary_round_aux F64.prec F64.emax neg m e loc_Exact <> S754_nan.
Proof.
  intros Hm. unfold binary_round_aux.
  assert (Hex : forall z, locates z 1 z loc_Exact) by (intros z; unfold locates; lia).
  pose proof (shr_fexp_spec m 1 m e loc_Exact ltac:(lia) Hm (Hex m)) as Hs.
  cbv zeta in Hs. destruct (shr_fexp F64.prec F64.emax m e loc_Exact) as [mrs1 e1].
  cbn [fst snd] in Hs. destruct Hs as (_ & Em1 & _).
  assert (Hm1 : 0 <= shr_m mrs1).
  { rewrite Em1. apply Z.div_pos; [exact Hm|apply Z.pow_pos_nonneg; lia]. }
  set (m2 := round_nearest_even (shr_m mrs1) (loc_of_shr_record mrs1)).
  assert (Hm2 : 0 <= m2).
  { subst m2. destruct (round_nearest_even_spec (shr_m mrs1) (loc_of_shr_record mrs1))
      as [[E _]|[E _]]; rewrite E; lia. }
  pose proof (shr_fexp_spec m2 1 m2 e1 loc_Exact ltac:(lia) Hm2 (Hex m2)) as Hs.
  cbv zeta in Hs. destruct (shr_fexp F64.prec F64.emax m2 e1 loc_Exact) as [mrs2 e2].
  cbn [fst snd] in Hs. destruct Hs as (_ & Em2 & _).
  assert (Hm3 : 0 <= shr_m mrs2).
  { rewrite Em2. apply Z.div_pos; [exact Hm2|apply Z.pow_pos_nonneg; lia]. }
  destruct (shr_m mrs2) as [|p|p]; [discriminate| |lia].
  destruct (e2 <=? F64.emax - F64.prec); discriminate.
Qed.

Lemma of_binary_not_nan (neg : bool) (m e : Z) : F64.of_binary neg m e <> S754_nan.
Proof.
  unfold F64.of_binary. destruct m as [|p|p]; try discriminate.
  unfold binary_round. destruct (shl_align _ _ _) as [mz ez].
  apply binary_round_aux_exact. lia.
Qed.

Lemma of_decimal_not_nan (neg : bool) (m e : Z) :
  0 <= m -> F64.of_decimal neg m e <> S754_nan.
Proof.
  intros Hm H. pose proof (of_decimal_nearest neg m e Hm) as Hn.
  rewrite H in Hn. unfold F64.nearest_decimal in Hn.
  destruct (0 <=? e); discriminate Hn.
Qed.

Lemma readDigits_mant (hex : bool) (s : string) :
  forall st, 0 <= strconv.mant st ->
             0 <= strconv.mant (fst (strconv.readDigits hex s st)).
Proof.
  induction s as [|c s IH]; intros st Hst; [exact Hst|].
  cbn [strconv.readDigits].
  destruct (c =? "_")%char; [apply IH; exact Hst|].
  destruct (c =? ".")%char.
  { destruct (strconv.sawdot st); [exact Hst|apply IH; exact Hst]. }
  destruct (strconv.isDigit c) eqn:Hc.
  { pose proof (isDigit_range c Hc) as Hr.
    destruct ((c =? "0")%char && (strconv.nd st =? 0)); apply IH; cbn [strconv.mant];
      [exact Hst|destruct hex; lia]. }
  destruct (hex && (97 <=? strconv.lower c) && (strconv.lower c <=? 102)) eqn:Hx;
    [|exact Hst].
  apply IH. cbn [strconv.mant].
  apply andb_prop in Hx. destruct Hx as [Hx _]. apply andb_prop in Hx.
  destruct Hx as [_ Hx]. apply Z.leb_le in Hx. lia.
Qed.

Lemma readFloat_mantissa (s : string) (x : strconv.number) (rest : string) :
  strconv.readFloat s = Some (x, rest) -> 0 <= strconv.mantissa x.
Proof.
  unfold strconv.readFloat. destruct s as [|c r]; [discriminate|].
  destruct (if (c =? "+")%char then (false, r)
            else if (c =? "-")%char then (true, r) else (false, String c r))
    as [neg s1].
  destruct (match s1 with
            | String c0 (String c1 (String c2 r2)) =>
                if (c0 =? "0")%char && (strconv.lower c1 =? 120)
                then (true, String c2 r2) else (false, s1)
            | _ => (false, s1)
            end) as [hex s2].
  pose proof (readDigits_mant hex s2 strconv.noDigits ltac:(cbn; lia)) as Hm.
  destruct (strconv.readDigits hex s2 strconv.noDigits) as [st s3]. cbn [fst] in Hm.
  destruct (negb (strconv.sawdigits st)); [discriminate|].
  assert (Hfin : forall dp us rest',
    (let exp := if strconv.mant st =? 0 then 0
                else dp - (if hex then strconv.nd st * 4 else strconv.nd st) in
     let read := substring 0 (String.length (String c r) - String.length rest')
                   (String c r) in
     if us && negb (strconv.underscoreOK read) then None
     else Some (strconv.mkNumber neg hex (strconv.mant st) exp dp, rest'))
    = Some (x, rest) -> 0 <= strconv.mantissa x).
  { intros dp us rest'. cbv zeta.
    destruct (us && negb (strconv.underscoreOK _)); [discriminate|].
    intros [= <- _]. exact Hm. }
  destruct s3 as [|ce r3].
  - destruct hex; [discriminate|]. apply Hfin.
  - destruct (strconv.lower ce =? (if hex then 112 else 101)).
    + destruct r3 as [|cs r4]; [discriminate|].
      destruct (if (cs =? "+")%char then (1, r4)
                else if (cs =? "-")%char then (-1, r4) else (1, String cs r4))
        as [esign r5].
      destruct r5 as [|cd r6]; [discriminate|].
      destruct (strconv.isDigit cd); [|discriminate].
      destruct (strconv.readExponent (String cd r6) 0 (strconv.underscores st))
        as [[e us] rest'].
      apply Hfin.
    + destruct hex; [discriminate|]. apply Hfin.
Qed.

Lemma atof64_not_nan (x : strconv.number) :
  0 <= strconv.mantissa x -> strconv.atof64 x <> S754_nan.
Proof.
  intros Hm. unfold strconv.atof64.
  destruct (strconv.hex x); [apply of_binary_not_nan|].
  destruct (strconv.mantissa x =? 0); [discriminate|].
  destruct (strconv.point x >? 310); [discriminate|].
  destruct (strconv.point x <? -330); [discriminate|].
  apply of_decimal_not_nan. exact Hm.
Qed.

(** What [ParseFloat] returns without an error is a finite number, unless
    the whole text spells an infinity or NaN. *)
Lemma ParseFloat_finite (s : string) :
  snd (strconv.ParseFloat s) = None ->
  is_finite (fst (strconv.ParseFloat s)) = true \/
  strconv.special s = Some (fst (strconv.ParseFloat s), String.length s).
Proof.
  unfold strconv.ParseFloat.
  destruct (strconv.special s) as [[f n]|] eqn:Hs.
  - destruct (Nat.eqb_spec n (String.length s)) as [->|]; [|discriminate].
    intros _. right. reflexivity.
  - destruct (strconv.readFloat s) as [[x [|c r]]|] eqn:Hr; try discriminate.
    pose proof (atof64_not_nan x (readFloat_mantissa _ _ _ Hr)) as Hn.
    destruct (strconv.atof64 x) as [sg|sg| |sg m e]; cbn; try discriminate;
      try (intros _; left; reflexivity).
    congruence.
Qed.

(** ** Plain decimal numbers *)










(** ** More about spaces *)

Lemma countSpaces_replaceFrom (s : string) (n : Z) :
  0 <= n ->
  countSpaces (strings.replaceFrom O n " " "" s) = (countSpaces s - Z.to_nat n)%nat.
Proof.
  revert n. induction s as [|c s IH]; intros n Hn; [reflexivity|].
  cbn [strings.replaceFrom countSpaces]. rewrite prefix_space.
  destruct (Z.eqb_spec n 0) as [->|Hn0].
  { cbn [countSpaces Z.to_nat]. lia. }
  destruct (c =? " ")%char eqn:Hc.
  - cbn [String.length Nat.sub append]. rewrite IH by lia.
    replace (Z.to_nat n) with (S (Z.to_nat (n - 1))) by lia. lia.
  - cbn [countSpaces]. rewrite Hc. apply IH. exact Hn.
Qed.

(** [strings.Replace(s, " ", "", 2)] leaves every space after the second. *)
Lemma countSpaces_Replace (s : string) :
  countSpaces (strings.Replace s " " "" 2) = (countSpaces s - 2)%nat.
Proof. unfold strings.Replace. apply countSpaces_replaceFrom. lia. Qed.

Lemma rev_append_rev_append (s a b : string) :
  rev_append (rev_append s a) b = rev_append a (s ++ b).
Proof.
  revert a b. induction s as [|c s IH]; intros a b; [reflexivity|].
  cbn [rev_append append]. rewrite IH. reflexivity.
Qed.

Lemma rev_rev (s : string) : rev (rev s) = s.
Proof. unfold rev. rewrite rev_append_rev_append. cbn. apply append_empty_r. Qed.

Lemma rev_append_app (a b acc : string) :
  rev_append (a ++ b) acc = rev_append b (rev_append a acc).
Proof. revert acc. induction a as [|c a IH]; intros acc; cbn; [reflexivity|apply IH]. Qed.

Lemma blank_cons (k : nat) (s : string) :
  blank k ++ String " " s = String " " (blank k ++ s).
Proof. induction k as [|k IH]; cbn; [reflexivity|]. rewrite IH. reflexivity. Qed.

Lemma rev_append_blank (k : nat) (acc : string) :
  rev_append (blank k) acc = blank k ++ acc.
Proof.
  revert acc. induction k as [|k IH]; intros acc; [reflexivity|].
  cbn [blank rev_append append]. rewrite IH, blank_cons. reflexivity.
Qed.

Lemma allDigits_rev_append (s acc : string) :
  allDigits (rev_append s acc) = allDigits s && allDigits acc.
Proof.
  revert acc. induction s as [|c s IH]; intros acc; [reflexivity|].
  cbn [rev_append allDigits]. rewrite IH. cbn [allDigits].
  destruct (strconv.isDigit c), (allDigits s); reflexivity.
Qed.

Lemma length_blank (k : nat) : String.length (blank k) = k.
Proof. induction k; cbn; congruence. Qed.

(** Trimming stops at a digit, and passes over a space. *)
Lemma trimPrefixes_digit (fuel : nat) (c : ascii) (s : string) :
  strconv.isDigit c = true ->
  strings.trimPrefixes strings.spaceRunes fuel (String c s) = String c s /\
  strings.trimPrefixes (map rev strings.spaceRunes) fuel (String c s) = String c s.
Proof.
  destruct c as [[] [] [] [] [] [] [] []]; try discriminate; intros _;
    destruct fuel; split; reflexivity.
Qed.

Lemma trimPrefixes_space (fuel : nat) (s : string) :
  strings.trimPrefixes strings.spaceRunes (S fuel) (String " " s) =
    strings.trimPrefixes strings.spaceRunes fuel s /\
  strings.trimPrefixes (map rev strings.spaceRunes) (S fuel) (String " " s) =
    strings.trimPrefixes (map rev strings.spaceRunes) fuel s.
Proof. destruct s; split; reflexivity. Qed.

Lemma trimPrefixes_blank (k fuel : nat) (c : ascii) (s : string) :
  strconv.isDigit c = true -> (k <= fuel)%nat ->
  strings.trimPrefixes strings.spaceRunes fuel (blank k ++ String c s) = String c s /\
  strings.trimPrefixes (map rev strings.spaceRunes) fuel (blank k ++ String c s)
    = String c s.
Proof.
  intros Hc. revert fuel. induction k as [|k IH]; intros fuel Hk.
  - apply trimPrefixes_digit. exact Hc.
  - destruct fuel as [|fuel]; [lia|]. cbn [blank append].
    destruct (trimPrefixes_space fuel (blank k ++ String c s)) as [-> ->].
    apply IH. lia.
Qed.

(** [strings.TrimSpace] on digits between spaces. *)
Lemma TrimSpace_digits (a b : nat) (ds : string) :
  allDigits ds = true -> (1 <= String.length ds)%nat ->
  strings.TrimSpace (blank a ++ ds ++ blank b) = ds.
Proof.
  intros Hds Hlen. unfold strings.TrimSpace.
  destruct ds as [|c ds']; [cbn in Hlen; lia|].
  pose proof Hds as Hds'. cbn [allDigits] in Hds'. apply andb_prop in Hds'.
  destruct Hds' as [Hc _].
  assert (HL : strings.TrimLeftSpace (blank a ++ String c ds' ++ blank b)
               = String c ds' ++ blank b).
  { unfold strings.TrimLeftSpace. cbn [append].
    apply trimPrefixes_blank; [exact Hc|].
    rewrite length_append, length_blank. lia. }
  rewrite HL. unfold strings.TrimRightSpace.
  set (ds := String c ds') in *.
  assert (Hrev : rev (ds ++ blank b) = blank b ++ rev ds).
  { unfold rev. rewrite rev_append_app, rev_append_blank. reflexivity. }
  rewrite Hrev.
  assert (Hrd : allDigits (rev ds) = true).
  { unfold rev. rewrite allDigits_rev_append, Hds. reflexivity. }
  pose proof (length_rev ds) as Hlr.
  destruct (rev ds) as [|c' r'] eqn:Er; [subst ds; cbn in Hlr; lia|].
  cbn [allDigits] in Hrd. apply andb_prop in Hrd. destruct Hrd as [Hc' _].
  destruct (trimPrefixes_blank b (String.length (ds ++ blank b)) c' r' Hc') as [_ ->].
  - rewrite length_append, length_blank. lia.
  - rewrite <- Er. apply rev_rev.
Qed.

(** ** The size of what [ParseInt] returns *)

Lemma parseUintLoop_fits (maxVal : Z) (s0 s : string) (n v : Z) :
  0 <= n <= maxVal ->
  strconv.parseUintLoop maxVal s0 s n = (v, None) -> 0 <= v <= maxVal.
Proof.
  revert n. induction s as [|c s IH]; intros n Hn; cbn [strconv.parseUintLoop].
  - intros [= <-]. exact Hn.
  - destruct (strconv.digitVal c) as [d|]; [|discriminate].
    destruct (d >=? 10); [discriminate|].
    destruct (n >=? _); [discriminate|].
    destruct (_ || _) eqn:Hov; [discriminate|].
    apply IH. apply orb_false_elim in Hov. destruct Hov as [_ Hov].
    rewrite Z.gtb_ltb in Hov. apply Z.ltb_ge in Hov.
    split; [|exact Hov]. unfold strconv.uint64.
    apply Z.mod_pos_bound. reflexivity.
Qed.

(** What [ParseInt] returns without an error fits the size asked for: the
    size of [int] when the size asked for is 0. *)
Lemma ParseInt_fits (IntSize : Z) (s : string) (bitSize v : Z) :
  IntSize = 32 \/ IntSize = 64 -> bitSize = 0 \/ bitSize = 64 ->
  strconv.ParseInt IntSize s bitSize = (v, None) ->
  let bits := if bitSize =? 0 then IntSize else bitSize in
  - 2 ^ (bits - 1) <= v < 2 ^ (bits - 1).
Proof.
  intros Hsize Hbits. cbv zeta. unfold strconv.ParseInt.
  destruct s as [|c r]; [discriminate|].
  destruct (if (c =? "+")%char then (false, r)
            else if (c =? "-")%char then (true, r) else (false, String c r))
    as [neg ds].
  unfold strconv.ParseUint.
  destruct ds as [|c' r']; [discriminate|].
  set (ds := String c' r') in *.
  assert (Hb : (bitSize <? 0) || (bitSize >? 64) = false)
    by (destruct Hbits as [->| ->]; reflexivity).
  rewrite Hb.
  set (bs := if bitSize =? 0 then IntSize else bitSize).
  assert (Hbs : bs = 32 \/ bs = 64).
  { subst bs. destruct Hbits as [->| ->]; [exact Hsize|right; reflexivity]. }
  destruct (strconv.parseUintLoop (2 ^ bs - 1) ds ds 0) as [un [e|]] eqn:El.
  - destruct (parseUintLoop_error _ _ _ _ _ _ El) as [->|[-> ->]].
    + discriminate.
    + unfold strconv.rangeError.
      destruct Hbs as [->| ->]; destruct neg; discriminate.
  - apply parseUintLoop_fits in El;
      [|destruct Hbs as [->| ->]; split; try lia; reflexivity].
    destruct (Z.geb_spec un (2 ^ (bs - 1))) as [Hge|Hlt];
      destruct (Z.gtb_spec un (2 ^ (bs - 1))) as [Hgt|Hle];
      destruct neg; cbn [negb andb]; try discriminate; try lia;
      intros [= <-]; unfold strconv.int64;
      change (2 ^ 63) with 9223372036854775808;
      change (2 ^ 64) with 18446744073709551616.
    + (* the least number *)
      assert (un = 2 ^ (bs - 1)) by lia. subst un.
      destruct Hbs as [->| ->]; split; reflexivity.
    + destruct Hbs as [->| ->];
        [change (2 ^ (32 - 1)) with 2147483648 in *
        |change (2 ^ (64 - 1)) with 9223372036854775808 in *];
        rewrite (Z.mod_small (un + 9223372036854775808)) by lia;
        rewrite Z.mod_small by lia; lia.
    + destruct Hbs as [->| ->];
        [change (2 ^ (32 - 1)) with 2147483648 in *
        |change (2 ^ (64 - 1)) with 9223372036854775808 in *];
        rewrite Z.mod_small by lia; lia.
Qed.

(** ** Bytes that stay, and lines that are longer *)

Lemma occurs_app (c : ascii) (a b : string) :
  occurs c (a ++ b) = occurs c a || occurs c b.
Proof.
  induction a as [|d a IH]; cbn [append occurs]; [reflexivity|].
  rewrite IH, orb_assoc. reflexivity.
Qed.

(** Replacing spaces by nothing keeps every other byte. *)
Lemma occurs_replaceFrom (c : ascii) (s : string) (n : Z) :
  (c =? " ")%char = false ->
  occurs c (strings.replaceFrom O n " " "" s) = occurs c s.
Proof.
  intros Hc. revert n. induction s as [|d s IH]; intros n; [reflexivity|].
  cbn [strings.replaceFrom]. rewrite prefix_space.
  destruct (n =? 0); [reflexivity|].
  destruct (Ascii.eqb_spec d " ") as [->|Hd].
  - cbn [String.length Nat.sub append occurs]. rewrite IH, Ascii.eqb_sym, Hc.
    reflexivity.
  - cbn [occurs]. rewrite IH. reflexivity.
Qed.

Lemma occurs_Replace (c : ascii) (s : string) :
  (c =? " ")%char = false -> occurs c (strings.Replace s " " "" 2) = occurs c s.
Proof. intros Hc. unfold strings.Replace. apply occurs_replaceFrom. exact Hc. Qed.


Lemma substring_app (n m : nat) (s x : string) :
  (n + m <= String.length s)%nat -> substring n m (s ++ x) = substring n m s.
Proof.
  revert n m. induction s as [|c s IH]; intros n m H; cbn [String.length] in H.
  - assert (n = O) by lia. assert (m = O) by lia. subst. destruct x; reflexivity.
  - destruct n as [|n]; destruct m as [|m]; cbn [append substring];
      try reflexivity.
    + rewrite (IH O m) by lia. reflexivity.
    + apply (IH n O). lia.
    + apply (IH n (S m)). lia.
Qed.

(** A slice that ends within a text does not see what is appended to it. *)
Lemma slice_app (s x : string) (lo hi : nat) :
  (hi <= String.length s)%nat -> slice (s ++ x) lo hi = slice s lo hi.
Proof.
  intros H. unfold slice. rewrite length_append.
  destruct (Nat.leb_spec hi (String.length s)); [|lia].
  destruct (Nat.leb_spec hi (String.length s + String.length x)); [|lia].
  destruct (Nat.leb_spec lo hi); [|reflexivity].
  rewrite substring_app by lia. reflexivity.
Qed.

Lemma substring_skip (p r : string) (n m : nat) :
  substring (String.length p + n) m (p ++ r) = substring n m r.
Proof. induction p as [|c p IH]; cbn [String.length Nat.add append substring]; auto. Qed.

(** A slice that begins after a prefix is a slice of what follows it. *)
Lemma slice_skip (p r : string) (lo hi : nat) :
  (String.length p <= lo <= hi)%nat ->
  slice (p ++ r) lo hi =
  match slice r (lo - String.length p) (hi - String.length p) with
  | Return t => Return t
  | Panic _ => Panic (SliceBounds hi (String.length (p ++ r)))
  end.
Proof.
  intros H. unfold slice. rewrite length_append.
  destruct (Nat.leb_spec lo hi); [|lia].
  destruct (Nat.leb_spec (lo - String.length p) (hi - String.length p)); [|lia].
  destruct (Nat.leb_spec hi (String.length p + String.length r));
    destruct (Nat.leb_spec (hi - String.length p) (String.length r)); try lia;
    [|reflexivity].
  replace lo with (String.length p + (lo - String.length p))%nat at 1 by lia.
  rewrite substring_skip. do 2 f_equal. lia.
Qed.

(** ** Quotients below one *)

(** What being the nearest says of a finite number: its sign, its validity
    and the two bounds, the lower one in its weaker form. *)
Lemma nearest_finite (neg : bool) (n d : Z) (s : bool) (m : positive) (e : Z) :
  F64.nearest neg n d (S754_finite s m e) = true ->
  s = neg /\
  SpecFloat.valid_binary F64.prec F64.emax (S754_finite s m e) = true /\
  (4 * Z.pos m - 2) * snd (F64.scaled n d e) <= 4 * fst (F64.scaled n d e) /\
  2 * fst (F64.scaled n d e) <= (2 * Z.pos m + 1) * snd (F64.scaled n d e).
Proof.
  unfold F64.nearest. destruct (F64.scaled n d e) as [a b]. cbn [fst snd].
  intros H. apply andb_prop in H. destruct H as [H Habove].
  apply andb_prop in H. destruct H as [H Hbelow].
  apply andb_prop in H. destruct H as [Hs Hv].
  split; [apply eqb_prop; exact Hs|]. split; [exact Hv|].
  assert (P1 : (4 * Z.pos m - 2) * b = 2 * ((2 * Z.pos m - 1) * b)) by ring.
  split.
  - destruct ((Z.pos m =? 2 ^ 52) && (-1074 <? e)) eqn:Ht.
    + apply Z.leb_le in Hbelow.
      assert (Hb : 0 <= b \/ b < 0) by lia. destruct Hb as [Hb|Hb].
      * replace ((4 * Z.pos m - 2) * b) with ((4 * Z.pos m - 1) * b - b) by ring. lia.
      * (* a negative denominator cannot pass the upper bound *)
        apply orb_prop in Habove.
        assert (P2 : (4 * Z.pos m - 1) * b = 2 * ((2 * Z.pos m + 1) * b) - 3 * b) by ring.
        assert (P3 : (4 * Z.pos m - 2) * b = 2 * ((2 * Z.pos m + 1) * b) - 4 * b) by ring.
        rewrite P2 in Hbelow. rewrite P3.
        destruct Habove as [Ha|Ha];
          [apply Z.ltb_lt in Ha
          |apply andb_prop in Ha; destruct Ha as [Ha _]; apply Z.eqb_eq in Ha];
          revert Hbelow Ha; generalize ((2 * Z.pos m + 1) * b); intros; lia.
    + rewrite P1. apply orb_prop in Hbelow.
      destruct Hbelow as [Hb|Hb];
        [apply Z.ltb_lt in Hb
        |apply andb_prop in Hb; destruct Hb as [Hb _]; apply Z.eqb_eq in Hb];
        revert Hb; generalize ((2 * Z.pos m - 1) * b); intros; lia.
  - apply orb_prop in Habove.
    destruct Habove as [Ha|Ha];
      [apply Z.ltb_lt in Ha
      |apply andb_prop in Ha; destruct Ha as [Ha _]; apply Z.eqb_eq in Ha]; lia.
Qed.

(** The binary64 number nearest to a quotient below one, of a denominator
    below [2^53], is not negative and is below one. *)
Lemma of_ratio_below_one (n d : Z) :
  0 <= n < d -> d < 2 ^ 53 ->
  SFleb (F64.zero false) (F64.of_ratio false n d) = true /\
  SFltb (F64.of_ratio false n d) (F64.of_Q 1) = true.
Proof.
  intros Hn Hd. pose proof (of_ratio_nearest false n d ltac:(lia) ltac:(lia)) as H.
  change (F64.of_Q 1) with (S754_finite false 4503599627370496 (-52)).
  destruct (F64.of_ratio false n d) as [s|s| |s m e].
  - cbn in H. apply andb_prop in H. destruct H as [Hs _].
    apply eqb_prop in Hs. subst s. split; reflexivity.
  - exfalso. cbn [F64.nearest] in H. apply andb_prop in H. destruct H as [_ H].
    apply Z.leb_le in H.
    assert (1 <= (2 ^ 54 - 1) * 2 ^ 970) by (vm_compute; discriminate).
    revert H H0. generalize ((2 ^ 54 - 1) * 2 ^ 970). intros K H HK. nia.
  - discriminate H.
  - apply nearest_finite in H. destruct H as (-> & Hv & Hlo & _).
    split; [reflexivity|].
    unfold SpecFloat.valid_binary, bounded, canonical_mantissa in Hv.
    apply andb_prop in Hv. destruct Hv as [Hc _]. apply Z.eqb_eq in Hc.
    change (Z.pos (digits2_pos m)) with (Zdigits2 (Z.pos m)) in Hc.
    rewrite fexp_eq in Hc.
    assert (He : e < -52).
    { destruct (Z_lt_ge_dec e (-52)) as [Hlt|Hge]; [exact Hlt|exfalso].
      assert (Hdig : Zdigits2 (Z.pos m) = 53) by lia.
      pose proof (Zdigits2_spec (Z.pos m) ltac:(lia)) as [Hm _].
      rewrite Hdig in Hm. change (2 ^ (53 - 1)) with 4503599627370496 in Hm.
      change (2 ^ 53) with 9007199254740992 in Hd.
      unfold F64.scaled in Hlo. cbn [fst snd] in Hlo.
      destruct (Z.leb_spec 0 e) as [He0|He0].
      - assert (Hp : 1 <= 2 ^ e) by (apply (Z.pow_le_mono_r 2 0 e); lia).
        assert (Hb : d <= d * 2 ^ e) by nia.
        assert (Hk : 18014398509481982 * (d * 2 ^ e) <= (4 * Z.pos m - 2) * (d * 2 ^ e)).
        { apply Z.mul_le_mono_nonneg_r; lia. }
        revert Hlo Hb Hk. generalize (d * 2 ^ e). intros B Hlo Hb Hk.
        generalize dependent ((4 * Z.pos m - 2) * B). intros. lia.
      - assert (Hp : 2 ^ (- e) <= 2 ^ 52) by (apply Z.pow_le_mono_r; lia).
        change (2 ^ 52) with 4503599627370496 in Hp.
        assert (Hp0 : 0 < 2 ^ (- e)) by (apply Z.pow_pos_nonneg; lia).
        assert (Ha : n * 2 ^ (- e) <= n * 4503599627370496)
          by (apply Z.mul_le_mono_nonneg_l; lia).
        assert (Hk : 18014398509481982 * d <= (4 * Z.pos m - 2) * d).
        { apply Z.mul_le_mono_nonneg_r; lia. }
        revert Hlo Ha Hk. generalize (n * 2 ^ (- e)) ((4 * Z.pos m - 2) * d).
        intros A K Hlo Ha Hk. lia. }
    unfold SFltb, SFcompare.
    destruct (Z.compare_spec e (-52)); [lia|reflexivity|lia].
Qed.

(** ** Facts about the program *)

Section Facts.

Set Default Proof Using "Type".

Variable IntSize : Z.
Variables Gravity GravConst Elements Num : Type.
Variable zeroGravConst : GravConst.
Variable zeroElements : Elements.
Variable intOfNum : Num -> Z.
Variable getGravConst : Gravity -> outcome GravConst.
Variable getGravConstV2 : Gravity -> outcome (GravConst * option error).
Variable days2mdhms : Z -> float64 -> outcome (Num * Num * Num * Num * Num).
Variable JDay : Z -> Z -> Z -> Z -> Z -> Z -> outcome float64.
Variable sgp4init :
  string -> float64 -> Satellite GravConst Elements ->
  outcome (Satellite GravConst Elements).

Local Abbreviation ParseTLE := (ParseTLE IntSize zeroGravConst zeroElements getGravConst).
Local Abbreviation ParseTLEV2 := (ParseTLEV2 IntSize zeroGravConst zeroElements getGravConstV2).
Local Abbreviation TLEToSat :=
  (TLEToSat IntSize zeroGravConst zeroElements intOfNum getGravConst days2mdhms JDay sgp4init).
Local Abbreviation TLEToSatV2 :=
  (TLEToSatV2 IntSize zeroGravConst zeroElements intOfNum getGravConstV2 days2mdhms JDay sgp4init).
Local Abbreviation parseError := (parseError IntSize).
Local Abbreviation scanFields := (scanFields IntSize).
Local Abbreviation parsedRecord := (parsedRecord IntSize zeroElements).
Local Abbreviation initEpoch := (initEpoch IntSize intOfNum days2mdhms JDay sgp4init).

Ltac step :=
  match goal with
  | |- context [slice ?l ?a ?b] =>
      destruct (slice l a b) eqn:?; cbn [bind]; [ | reflexivity ]
  | |- context [strconv.ParseInt ?i ?t ?b] =>
      destruct (strconv.ParseInt i t b) as [? [?|]] eqn:?;
      cbn [bind ifErr errors.Wrap fst snd]; [ reflexivity | ]
  | |- context [strconv.ParseFloat ?t] =>
      destruct (strconv.ParseFloat t) as [? [?|]] eqn:?;
      cbn [bind ifErr errors.Wrap fst snd]; [ reflexivity | ]
  end.

Lemma ParseTLEV2_scan (line1 line2 : string) (g : Gravity) :
  ParseTLEV2 line1 line2 g =
  match getGravConstV2 g with
  | Panic p => Panic p
  | Return (c, Some e) => Return (None, Some e)
  | Return (c, None) =>
      match scanFields true allFields line1 line2 with
      | Aborted f p => Panic p
      | Defect f e => Return (None, Some (WithMessage e ("invalid " ++ fieldName f)))
      | AllParsed => Return (Some (parsedRecord true c line1 line2), None)
      end
  end.
Proof.
  unfold ParseTLEV2.
  destruct (getGravConstV2 g) as [[c [e|]]|p]; cbn [bind ifErr]; try reflexivity.
  unfold parsedRecord, intOf, floatOf, allFields.
  unfold scanFields, parseError, fieldText, rawText, prepared, rebuilt,
    isIntField.
  repeat step.
  reflexivity.
Qed.

Ltac stepStrict :=
  match goal with
  | |- context [slice ?l ?a ?b] =>
      destruct (slice l a b) eqn:?; cbn [bind]; [ | reflexivity ]
  | |- context [strconv.ParseInt ?i ?t ?b] =>
      destruct (strconv.ParseInt i t b) as [? [?|]] eqn:?;
      cbn [bind fst snd]; [ reflexivity | ]
  | |- context [strconv.ParseFloat ?t] =>
      destruct (strconv.ParseFloat t) as [? [?|]] eqn:?;
      cbn [bind fst snd]; [ reflexivity | ]
  end.

Lemma ParseTLE_scan (line1 line2 : string) (g : Gravity) :
  ParseTLE line1 line2 g =
  match getGravConst g with
  | Panic p => Panic p
  | Return c =>
      match scanFields false allFields line1 line2 with
      | Aborted f p => Panic p
      | Defect f e => Panic (LogPanic e)
      | AllParsed => Return (parsedRecord false c line1 line2)
      end
  end.
Proof.
  unfold ParseTLE, parseInt, parseFloat.
  destruct (getGravConst g) as [c|p]; cbn [bind]; try reflexivity.
  unfold parsedRecord, intOf, floatOf, allFields.
  unfold scanFields, parseError, fieldText, rawText, prepared, rebuilt,
    isIntField.
  repeat stepStrict.
  reflexivity.
Qed.


(** *** Scanning a list of fields *)

Lemma scan_app (v : bool) (line1 line2 : string) (pre rest : list field) :
  scanFields v (pre ++ rest)%list line1 line2 =
  match scanFields v pre line1 line2 with
  | AllParsed => scanFields v rest line1 line2
  | r => r
  end.
Proof.
  induction pre as [|f pre IH]; cbn [app scanFields]; [reflexivity|].
  destruct (fieldText f line1 line2) as [t|p]; [|reflexivity].
  destruct (parseError v f t); [reflexivity|exact IH].
Qed.

Lemma scan_all (v : bool) (line1 line2 : string) (fs : list field) :
  scanFields v fs line1 line2 = AllParsed <->
  (forall f, In f fs -> parses IntSize v f line1 line2).
Proof.
  induction fs as [|f fs IH]; cbn [scanFields].
  - split; [intros _ f []|reflexivity].
  - split.
    + destruct (fieldText f line1 line2) as [t|p] eqn:Ht; [|discriminate].
      destruct (parseError v f t) eqn:He; [discriminate|].
      intros H g [<-|Hg]; [exists t; split; assumption|].
      apply IH; assumption.
    + intros H. destruct (H f (or_introl eq_refl)) as (t & Ht & He).
      rewrite Ht, He. apply IH. intros g Hg. apply H. right. exact Hg.
Qed.

Lemma scan_defect (v : bool) (line1 line2 : string) (fs : list field)
  (f : field) (e : error) :
  scanFields v fs line1 line2 = Defect f e ->
  In f fs /\ exists t, fieldText f line1 line2 = Return t /\ parseError v f t = Some e.
Proof.
  induction fs as [|g fs IH]; cbn [scanFields]; [discriminate|].
  destruct (fieldText g line1 line2) as [t|p] eqn:Ht; [|discriminate].
  destruct (parseError v g t) as [e'|] eqn:He.
  - intros [= <- <-]. split; [left; reflexivity|]. exists t. split; assumption.
  - intros H. destruct (IH H) as [Hin Hex]. split; [right|]; assumption.
Qed.

Lemma scan_aborted (v : bool) (line1 line2 : string) (fs : list field)
  (f : field) (p : panic) :
  scanFields v fs line1 line2 = Aborted f p ->
  In f fs /\ fieldText f line1 line2 = Panic p.
Proof.
  induction fs as [|g fs IH]; cbn [scanFields]; [discriminate|].
  destruct (fieldText g line1 line2) as [t|q] eqn:Ht.
  - destruct (parseError v g t) as [e'|] eqn:He; [discriminate|].
    intros H. destruct (IH H) as [Hin Hex]. split; [right|]; assumption.
  - intros [= <- <-]. split; [left; reflexivity|assumption].
Qed.

Lemma scan_before (v : bool) (line1 line2 : string) (f : field) :
  (forall g, (fieldIndex g < fieldIndex f)%nat -> parses IntSize v g line1 line2) ->
  scanFields v allFields line1 line2 =
  scanFields v (f :: skipn (S (fieldIndex f)) allFields) line1 line2.
Proof.
  intros H. rewrite (allFields_split f) at 1. rewrite scan_app.
  replace (scanFields v (before f) line1 line2) with AllParsed; [reflexivity|].
  symmetry. apply scan_all. intros g Hg. apply H, before_spec, Hg.
Qed.

(** The first field that stops the scan is preceded by fields that parse. *)
Lemma scan_stops_first (v : bool) (line1 line2 : string) (f : field) :
  (exists e, scanFields v allFields line1 line2 = Defect f e) \/
  (exists p, scanFields v allFields line1 line2 = Aborted f p) ->
  forall g, (fieldIndex g < fieldIndex f)%nat -> parses IntSize v g line1 line2.
Proof.
  intros H.
  assert (Hpre : scanFields v (before f) line1 line2 = AllParsed).
  { rewrite (allFields_split f), scan_app in H.
    destruct (scanFields v (before f) line1 line2) as [|f' e'|f' p'] eqn:Hs;
      [reflexivity| |].
    - exfalso. apply scan_defect in Hs. destruct Hs as [Hin _].
      apply before_spec in Hin.
      destruct H as [[e [= -> _]]|[p [=]]]. lia.
    - exfalso. apply scan_aborted in Hs. destruct Hs as [Hin _].
      apply before_spec in Hin.
      destruct H as [[e [=]]|[p [= -> _]]]. lia. }
  intros g Hg. apply (proj1 (scan_all _ _ _ _) Hpre), before_spec, Hg.
Qed.

Lemma scan_first_defect (v : bool) (line1 line2 : string) (f : field)
  (t : string) (e : error) :
  (forall g, (fieldIndex g < fieldIndex f)%nat -> parses IntSize v g line1 line2) ->
  fieldText f line1 line2 = Return t ->
  parseError v f t = Some e ->
  scanFields v allFields line1 line2 = Defect f e.
Proof.
  intros Hb Ht He. rewrite (scan_before _ _ _ _ Hb).
  cbn [scanFields]. rewrite Ht, He. reflexivity.
Qed.

Lemma truncated_scan (v : bool) (line1 line2 : string) :
  truncated line1 line2 -> scanFields v allFields line1 line2 <> AllParsed.
Proof.
  intros Ht Hs. destruct (truncated_field _ _ Ht) as [f Hf].
  destruct (proj1 (scan_all _ _ _ _) Hs f (in_allFields f)) as (t & Hr & _).
  assert (fieldEnd f <= String.length (lineOf f line1 line2))%nat; [|lia].
  apply fieldText_returns. exists t. exact Hr.
Qed.



(** *** What the parsers return *)

Lemma parsedRecord_field (v : bool) (c : GravConst) (line1 line2 : string) (f : field) :
  fieldValue f (parsedRecord v c line1 line2) =
  if isIntField f then inl (intOf IntSize v f line1 line2)
  else inr (floatOf f line1 line2).
Proof. destruct f; reflexivity. Qed.

Lemma ParseTLEV2_returns (line1 line2 : string) (g : Gravity)
  (sat : Satellite GravConst Elements) (err : option error) :
  ParseTLEV2 line1 line2 g = Return (Some sat, err) ->
  err = None /\
  exists c, getGravConstV2 g = Return (c, None) /\
            scanFields true allFields line1 line2 = AllParsed /\
            sat = parsedRecord true c line1 line2.
Proof.
  rewrite ParseTLEV2_scan.
  destruct (getGravConstV2 g) as [[c [e|]]|p]; try discriminate.
  destruct (scanFields true allFields line1 line2) as [|f e|f p]; try discriminate.
  intros [= <- <-]. split; [reflexivity|]. exists c. repeat split.
Qed.

Lemma ParseTLEV2_errors (line1 line2 : string) (g : Gravity)
  (sat : option (Satellite GravConst Elements)) (e : error) :
  ParseTLEV2 line1 line2 g = Return (sat, Some e) ->
  sat = None /\
  ((exists c, getGravConstV2 g = Return (c, Some e)) \/
   (exists c f cause,
      getGravConstV2 g = Return (c, None) /\
      scanFields true allFields line1 line2 = Defect f cause /\
      e = WithMessage cause ("invalid " ++ fieldName f))).
Proof.
  rewrite ParseTLEV2_scan.
  destruct (getGravConstV2 g) as [[c [e'|]]|p]; try discriminate.
  - intros [= <- <-]. split; [reflexivity|]. left. exists c. reflexivity.
  - destruct (scanFields true allFields line1 line2) as [|f cause|f p];
      try discriminate.
    intros [= <- <-]. split; [reflexivity|]. right. exists c, f, cause.
    repeat split.
Qed.

Lemma ParseTLE_returns (line1 line2 : string) (g : Gravity)
  (sat : Satellite GravConst Elements) :
  ParseTLE line1 line2 g = Return sat ->
  exists c, getGravConst g = Return c /\
            scanFields false allFields line1 line2 = AllParsed /\
            sat = parsedRecord false c line1 line2.
Proof.
  rewrite ParseTLE_scan.
  destruct (getGravConst g) as [c|p]; try discriminate.
  destruct (scanFields false allFields line1 line2) as [|f e|f p]; try discriminate.
  intros [= <-]. exists c. repeat split.
Qed.

(** The value a returned record holds for a field is what the numeric
    parser made of the text of the field. *)
Lemma parsed_float (v : bool) (c : GravConst) (line1 line2 : string) (f : field)
  (t : string) :
  isIntField f = false ->
  fieldText f line1 line2 = Return t ->
  fieldValue f (parsedRecord v c line1 line2) = inr (fst (strconv.ParseFloat t)).
Proof.
  intros Hf Ht. rewrite parsedRecord_field, Hf. unfold floatOf. rewrite Ht.
  reflexivity.
Qed.

(** *** The stages of the converters *)

Lemma TLEToSat_stages (line1 line2 : string) (g : Gravity) :
  TLEToSat line1 line2 g =
  (sat <- ParseTLE line1 line2 g ;;
   initEpoch (fullYear (epochyr sat)) (converted sat)).
Proof.
  unfold TLEToSat.
  destruct (ParseTLE line1 line2 g) as [sat|p]; [|reflexivity].
  cbn [bind]. unfold initEpoch, fullYear, converted.
  cbn [epochyr epochdays set_no set_ndot set_nddot set_inclo set_nodeo set_argpo
       set_mo].
  destruct (days2mdhms _ _) as [[[[[mon day] hr] mi] sec]|p]; [|reflexivity].
  cbn [bind]. destruct (JDay _ _ _ _ _ _) as [jd|p]; [|reflexivity].
  cbn [bind]. destruct (sgp4init _ _ _) as [sat'|p]; reflexivity.
Qed.

Lemma TLEToSatV2_stages (line1 line2 : string) (g : Gravity) :
  TLEToSatV2 line1 line2 g =
  ('(sat, err) <- ParseTLEV2 line1 line2 g ;;
   match err, sat with
   | Some _, _ => Return (None, err)
   | None, None => Panic NilDereference
   | None, Some sat =>
       r <- initEpoch (fullYear (epochyr sat)) (converted sat) ;;
       Return (Some r, None)
   end).
Proof.
  unfold TLEToSatV2.
  destruct (ParseTLEV2 line1 line2 g) as [[[sat|] [e|]]|p]; try reflexivity.
  cbn [bind ifErr]. unfold initEpoch, fullYear, converted.
  cbn [epochyr epochdays set_no set_ndot set_nddot set_inclo set_nodeo set_argpo
       set_mo].
  destruct (days2mdhms _ _) as [[[[[mon day] hr] mi] sec]|p]; [|reflexivity].
  cbn [bind]. destruct (JDay _ _ _ _ _ _) as [jd|p]; [|reflexivity].
  cbn [bind]. destruct (sgp4init _ _ _) as [sat'|p]; reflexivity.
Qed.

(** *** The two policies on the integer fields *)

Lemma fieldText_int_short (f : field) (line1 line2 t : string) :
  isIntField f = true ->
  fieldText f line1 line2 = Return t -> (String.length t <= 9)%nat.
Proof.
  destruct f; try discriminate; intros _; unfold fieldText, rawText, prepared;
    slices; intros [= <-].
  - etransitivity; [apply length_TrimSpace|].
    etransitivity; [apply length_substring_le|]. lia.
  - etransitivity; [apply length_substring_le|]. lia.
Qed.

Lemma parseError_policies (f : field) (line1 line2 t : string) :
  IntSize = 32 \/ IntSize = 64 ->
  fieldText f line1 line2 = Return t ->
  parseError false f t = parseError true f t.
Proof.
  intros Hsize Ht. unfold parseError.
  destruct (isIntField f) eqn:Hf; [|reflexivity].
  rewrite (ParseInt_short IntSize t Hsize); [reflexivity|].
  exact (fieldText_int_short f line1 line2 t Hf Ht).
Qed.

Lemma scan_policies (line1 line2 : string) (fs : list field) :
  IntSize = 32 \/ IntSize = 64 ->
  scanFields false fs line1 line2 = scanFields true fs line1 line2.
Proof.
  intros Hsize.
  induction fs as [|f fs IH]; cbn [scanFields]; [reflexivity|].
  destruct (fieldText f line1 line2) as [t|p] eqn:Ht; [|reflexivity].
  rewrite (parseError_policies f line1 line2 t Hsize Ht), IH. reflexivity.
Qed.

Lemma intOf_policies (f : field) (line1 line2 : string) :
  IntSize = 32 \/ IntSize = 64 ->
  isIntField f = true ->
  intOf IntSize false f line1 line2 = intOf IntSize true f line1 line2.
Proof.
  intros Hsize Hf. unfold intOf.
  destruct (fieldText f line1 line2) as [t|p] eqn:Ht; [|reflexivity].
  rewrite (ParseInt_short IntSize t Hsize); [reflexivity|].
  exact (fieldText_int_short f line1 line2 t Hf Ht).
Qed.

Lemma parsedRecord_policies (c : GravConst) (line1 line2 : string) :
  IntSize = 32 \/ IntSize = 64 ->
  parsedRecord false c line1 line2 = parsedRecord true c line1 line2.
Proof.
  intros Hsize. unfold parsedRecord.
  rewrite (intOf_policies Fsatnum), (intOf_policies Fepochyr);
    try reflexivity; exact Hsize.
Qed.


(** ** Properties of the parsers and the converters *)

(** C2, amended.  When the first line stops short of column 61 or the second
    of column 63, neither [ParseTLEV2] nor [TLEToSatV2] returns a record and
    neither [ParseTLE] nor [TLEToSat] returns.  The validating parser does not
    turn the truncation into an error of its own: an error it returns is the
    error of the gravity look-up, or names a field that could be extracted
    and did not parse; and when the look-up succeeds and every field that can
    be extracted parses, both validating functions abort with the slice
    bound the run time reports. *)
Theorem truncated_lines (line1 line2 : string) (g : Gravity) :
  truncated line1 line2 ->
  (forall sat err, ParseTLEV2 line1 line2 g <> Return (Some sat, err)) /\
  (forall sat err, TLEToSatV2 line1 line2 g <> Return (Some sat, err)) /\
  (forall sat, ParseTLE line1 line2 g <> Return sat) /\
  (forall sat, TLEToSat line1 line2 g <> Return sat) /\
  (forall e, ParseTLEV2 line1 line2 g = Return (None, Some e) ->
     (exists c, getGravConstV2 g = Return (c, Some e)) \/
     (exists f t cause,
        fieldText f line1 line2 = Return t /\
        parseError true f t = Some cause /\
        e = WithMessage cause ("invalid " ++ fieldName f))) /\
  (forall c, getGravConstV2 g = Return (c, None) ->
     (forall f t, fieldText f line1 line2 = Return t -> parseError true f t = None) ->
     exists f hi,
       (String.length (lineOf f line1 line2) < hi <= fieldEnd f)%nat /\
       ParseTLEV2 line1 line2 g =
         Panic (SliceBounds hi (String.length (lineOf f line1 line2))) /\
       TLEToSatV2 line1 line2 g =
         Panic (SliceBounds hi (String.length (lineOf f line1 line2)))).
Proof.
  intros Htr.
  assert (HV2 : forall sat err, ParseTLEV2 line1 line2 g <> Return (Some sat, err)).
  { intros sat err H. apply ParseTLEV2_returns in H.
    destruct H as (_ & c & _ & Hs & _). exact (truncated_scan true _ _ Htr Hs). }
  assert (HV1 : forall sat, ParseTLE line1 line2 g <> Return sat).
  { intros sat H. apply ParseTLE_returns in H.
    destruct H as (c & _ & Hs & _). exact (truncated_scan false _ _ Htr Hs). }
  split; [exact HV2|]. split; [|split; [exact HV1|split; [|split]]].
  - intros sat err. rewrite TLEToSatV2_stages.
    destruct (ParseTLEV2 line1 line2 g) as [[[sat'|] [e|]]|p] eqn:Hp;
      cbn [bind]; try discriminate.
    exfalso. exact (HV2 _ _ eq_refl).
  - intros sat. rewrite TLEToSat_stages.
    destruct (ParseTLE line1 line2 g) as [sat'|p] eqn:Hp; [|discriminate].
    exfalso. exact (HV1 _ eq_refl).
  - intros e H. apply ParseTLEV2_errors in H.
    destruct H as [_ [H|(c & f & cause & _ & Hs & ->)]]; [left; exact H|right].
    apply scan_defect in Hs. destruct Hs as (_ & t & Ht & He).
    exists f, t, cause. repeat split; assumption.
  - intros c Hg Hok.
    assert (Hp : exists f hi,
               (String.length (lineOf f line1 line2) < hi <= fieldEnd f)%nat /\
               ParseTLEV2 line1 line2 g =
                 Panic (SliceBounds hi (String.length (lineOf f line1 line2)))).
    { rewrite ParseTLEV2_scan, Hg.
      destruct (scanFields true allFields line1 line2) as [|f e|f p] eqn:Hs.
      - exfalso. exact (truncated_scan true _ _ Htr Hs).
      - exfalso. apply scan_defect in Hs. destruct Hs as (_ & t & Ht & He).
        rewrite (Hok f t Ht) in He. discriminate.
      - apply scan_aborted in Hs. destruct Hs as (_ & Ht).
        destruct (fieldText_panics _ _ _ _ Ht) as (hi & -> & Hhi).
        exists f, hi. split; [exact Hhi|reflexivity]. }
    destruct Hp as (f & hi & Hhi & Hp). exists f, hi.
    split; [exact Hhi|]. split; [exact Hp|].
    rewrite TLEToSatV2_stages, Hp. reflexivity.
Qed.

(** C4.  A two-digit epoch year from 0 to 56 resolves to 2000 plus the year,
    one from 57 to 99 to 1900 plus the year, and that full year is the one
    both converters resolve the epoch in. *)
Theorem century_pivot (line1 line2 : string) (g : Gravity)
  (sat : Satellite GravConst Elements) :
  0 <= epochyr sat <= 99 ->
  (epochyr sat <= 56 -> fullYear (epochyr sat) = 2000 + epochyr sat) /\
  (57 <= epochyr sat -> fullYear (epochyr sat) = 1900 + epochyr sat) /\
  (ParseTLE line1 line2 g = Return sat ->
   TLEToSat line1 line2 g = initEpoch (fullYear (epochyr sat)) (converted sat)) /\
  (ParseTLEV2 line1 line2 g = Return (Some sat, None) ->
   TLEToSatV2 line1 line2 g =
     (r <- initEpoch (fullYear (epochyr sat)) (converted sat) ;;
      Return (Some r, None))).
Proof.
  intros Hy. unfold fullYear, strconv.int64.
  change (2 ^ 63) with 9223372036854775808.
  change (2 ^ 64) with 18446744073709551616.
  repeat split.
  - intros H. destruct (Z.ltb_spec (epochyr sat) 57); [|lia].
    rewrite Z.mod_small by lia. lia.
  - intros H. destruct (Z.ltb_spec (epochyr sat) 57); [lia|].
    rewrite Z.mod_small by lia. lia.
  - intros H. rewrite TLEToSat_stages, H. reflexivity.
  - intros H. rewrite TLEToSatV2_stages, H. reflexivity.
Qed.

(** C5, amended.  [TLEToSatV2] makes no check of the range of the epoch day:
    an error it returns is an error [ParseTLEV2] returned, that is the error
    of the gravity look-up or the first field that did not parse; and when
    [ParseTLEV2] returns a record, whatever its epoch day, the record goes
    through the unit conversions to [days2mdhms], [JDay] and [sgp4init], and
    what they return is returned with a nil error. *)
Theorem epoch_day_unchecked (line1 line2 : string) (g : Gravity) :
  (forall sat e,
     TLEToSatV2 line1 line2 g = Return (sat, Some e) ->
     ParseTLEV2 line1 line2 g = Return (None, Some e) /\
     ((exists c, getGravConstV2 g = Return (c, Some e)) \/
      (exists f t cause,
         fieldText f line1 line2 = Return t /\
         parseError true f t = Some cause /\
         e = WithMessage cause ("invalid " ++ fieldName f)))) /\
  (forall sat,
     ParseTLEV2 line1 line2 g = Return (Some sat, None) ->
     epochdays sat = floatOf Fepochdays line1 line2 /\
     TLEToSatV2 line1 line2 g =
       (r <- initEpoch (fullYear (epochyr sat)) (converted sat) ;;
        Return (Some r, None))).
Proof.
  split.
  - intros sat e. rewrite TLEToSatV2_stages.
    destruct (ParseTLEV2 line1 line2 g) as [[[sat'|] [e'|]]|p] eqn:Hp;
      cbn [bind]; try discriminate.
    + intros [= <- <-]. apply ParseTLEV2_returns in Hp.
      destruct Hp as [Hp _]. discriminate.
    + destruct (initEpoch _ _); discriminate.
    + intros [= <- <-]. split; [reflexivity|].
      apply ParseTLEV2_errors in Hp.
      destruct Hp as [_ [H|(c & f & cause & _ & Hs & ->)]]; [left; exact H|right].
      apply scan_defect in Hs. destruct Hs as (_ & t & Ht & He).
      exists f, t, cause. repeat split; assumption.
  - intros sat Hp. split.
    + apply ParseTLEV2_returns in Hp. destruct Hp as (_ & c & _ & _ & ->).
      reflexivity.
    + rewrite TLEToSatV2_stages, Hp. reflexivity.
Qed.

(** C6.  When the gravity look-up succeeds and a field that can be reached
    does not parse, [ParseTLEV2] returns no record and the error of the
    first field that does not parse: the cause the numeric parser gave,
    wrapped with "invalid" and the name of that field.  Nothing is asked of
    the fields after it, not even that the lines are long enough to hold
    them. *)
Theorem first_defect_reported (line1 line2 : string) (g : Gravity) (c : GravConst)
  (f : field) (t : string) (e : error) :
  getGravConstV2 g = Return (c, None) ->
  (forall f', (fieldIndex f' < fieldIndex f)%nat ->
              exists t', fieldText f' line1 line2 = Return t') ->
  fieldText f line1 line2 = Return t ->
  parseError true f t = Some e ->
  exists f0 t0 cause,
    (fieldIndex f0 <= fieldIndex f)%nat /\
    fieldText f0 line1 line2 = Return t0 /\
    parseError true f0 t0 = Some cause /\
    (forall f', (fieldIndex f' < fieldIndex f0)%nat -> parses IntSize true f' line1 line2) /\
    ParseTLEV2 line1 line2 g =
      Return (None, Some (WithMessage cause ("invalid " ++ fieldName f0))).
Proof.
  intros Hg Hreach Ht He.
  assert (Hnot : ~ parses IntSize true f line1 line2).
  { intros (t' & Ht' & He'). rewrite Ht in Ht'. injection Ht' as <-.
    rewrite He in He'. discriminate. }
  rewrite ParseTLEV2_scan, Hg.
  destruct (scanFields true allFields line1 line2) as [|f0 cause|f0 p] eqn:Hs.
  - exfalso. apply Hnot. apply (proj1 (scan_all _ _ _ _) Hs), in_allFields.
  - pose proof (scan_stops_first true line1 line2 f0
                  (or_introl (ex_intro _ cause Hs))) as Hfirst.
    apply scan_defect in Hs. destruct Hs as (_ & t0 & Ht0 & He0).
    exists f0, t0, cause. repeat split; try assumption.
    destruct (Nat.le_gt_cases (fieldIndex f0) (fieldIndex f)) as [|Hlt];
      [assumption|]. exfalso. exact (Hnot (Hfirst f Hlt)).
  - exfalso.
    pose proof (scan_stops_first true line1 line2 f0
                  (or_intror (ex_intro _ p Hs))) as Hfirst.
    apply scan_aborted in Hs. destruct Hs as (_ & Hp).
    destruct (Nat.lt_trichotomy (fieldIndex f0) (fieldIndex f)) as [Hlt|[Heq|Hgt]].
    + destruct (Hreach f0 Hlt) as [t' Ht']. rewrite Hp in Ht'. discriminate.
    + apply fieldIndex_inj in Heq. subst f0. rewrite Hp in Ht. discriminate.
    + exact (Hnot (Hfirst f Hgt)).
Qed.

(** C7.  When a field that can be extracted fails the strict numeric parse,
    neither [ParseTLE] nor [TLEToSat] returns; and when the gravity look-up
    returns and the fields before it parse, both abort at that field, with
    the panic [log.Panic] raises for the error of the numeric parser. *)
Theorem strict_defect_aborts (line1 line2 : string) (g : Gravity)
  (f : field) (t : string) (e : error) :
  fieldText f line1 line2 = Return t ->
  parseError false f t = Some e ->
  (forall sat, ParseTLE line1 line2 g <> Return sat) /\
  (forall sat, TLEToSat line1 line2 g <> Return sat) /\
  (forall c, getGravConst g = Return c ->
     (forall f', (fieldIndex f' < fieldIndex f)%nat ->
                 parses IntSize false f' line1 line2) ->
     ParseTLE line1 line2 g = Panic (LogPanic e) /\
     TLEToSat line1 line2 g = Panic (LogPanic e)).
Proof.
  intros Ht He.
  assert (HV1 : forall sat, ParseTLE line1 line2 g <> Return sat).
  { intros sat H. apply ParseTLE_returns in H. destruct H as (c & _ & Hs & _).
    destruct (proj1 (scan_all _ _ _ _) Hs f (in_allFields f)) as (t' & Ht' & He').
    rewrite Ht in Ht'. injection Ht' as <-. rewrite He in He'. discriminate. }
  split; [exact HV1|]. split.
  - intros sat. rewrite TLEToSat_stages.
    destruct (ParseTLE line1 line2 g) as [sat'|p] eqn:Hp; [|discriminate].
    exfalso. exact (HV1 _ eq_refl).
  - intros c Hg Hfirst.
    assert (Hp : ParseTLE line1 line2 g = Panic (LogPanic e)).
    { rewrite ParseTLE_scan, Hg.
      rewrite (scan_first_defect false line1 line2 f t e Hfirst Ht He).
      reflexivity. }
    split; [exact Hp|]. rewrite TLEToSat_stages, Hp. reflexivity.
Qed.

(** C10.  On a platform whose [int] has 32 or 64 bits, and for a selector
    the strict look-up accepts whenever the validating one does: when
    [ParseTLEV2] returns a record without error, [ParseTLE] returns a record
    that stores the same two lines and holds the same value in each of the
    twelve parsed fields. *)
Theorem parsers_agree (line1 line2 : string) (g : Gravity)
  (sat2 : Satellite GravConst Elements) :
  IntSize = 32 \/ IntSize = 64 ->
  (forall c, getGravConstV2 g = Return (c, None) ->
             exists c', getGravConst g = Return c') ->
  ParseTLEV2 line1 line2 g = Return (Some sat2, None) ->
  exists sat1,
    ParseTLE line1 line2 g = Return sat1 /\
    Line1 sat1 = line1 /\ Line2 sat1 = line2 /\
    Line1 sat2 = line1 /\ Line2 sat2 = line2 /\
    satnum sat1 = satnum sat2 /\ epochyr sat1 = epochyr sat2 /\
    epochdays sat1 = epochdays sat2 /\ ndot sat1 = ndot sat2 /\
    nddot sat1 = nddot sat2 /\ bstar sat1 = bstar sat2 /\
    inclo sat1 = inclo sat2 /\ nodeo sat1 = nodeo sat2 /\
    ecco sat1 = ecco sat2 /\ argpo sat1 = argpo sat2 /\
    mo sat1 = mo sat2 /\ no sat1 = no sat2.
Proof.
  intros Hsize Hgrav H2. apply ParseTLEV2_returns in H2.
  destruct H2 as (_ & c & Hg & Hs & ->).
  destruct (Hgrav c Hg) as [c' Hg'].
  exists (parsedRecord false c' line1 line2). split.
  - rewrite ParseTLE_scan, Hg', (scan_policies line1 line2 allFields Hsize), Hs.
    reflexivity.
  - unfold parsedRecord.
    cbn [Line1 Line2 satnum epochyr epochdays ndot nddot bstar inclo nodeo ecco
         argpo mo no].
    rewrite (intOf_policies Fsatnum line1 line2 Hsize eq_refl).
    rewrite (intOf_policies Fepochyr line1 line2 Hsize eq_refl).
    repeat split.
Qed.


(** C3.  Both converters apply the same unit conversions to the record the
    parser returned.  The mean motion is divided by the binary64 number
    nearest to the reciprocal of 2 pi / 1440, its first derivative by the
    one nearest to the reciprocal of that factor over 1440, its second
    derivative by the one nearest to the reciprocal of that factor over
    1440 squared, and each of the four angles is multiplied by the binary64
    number nearest to pi / 180.  One revolution per day becomes the binary64
    number nearest to 2 pi / 1440, and 180 degrees the one nearest to pi.
    ([F64.of_Q] gives the binary64 number nearest to an exact constant, and
    [F64.nearest_Q] says, without the rounding, that it is the nearest.) *)
Theorem unit_normalization (line1 line2 : string) (g : Gravity)
  (sat : Satellite GravConst Elements) :
  (ParseTLE line1 line2 g = Return sat ->
   TLEToSat line1 line2 g = initEpoch (fullYear (epochyr sat)) (converted sat)) /\
  (ParseTLEV2 line1 line2 g = Return (Some sat, None) ->
   TLEToSatV2 line1 line2 g =
     (r <- initEpoch (fullYear (epochyr sat)) (converted sat) ;;
      Return (Some r, None))) /\
  no (converted sat) = (no sat / F64.of_Q (/ radiansPerMinute))%f64 /\
  ndot (converted sat) =
    (ndot sat / F64.of_Q (/ (radiansPerMinute / 1440)))%f64 /\
  nddot (converted sat) =
    (nddot sat / F64.of_Q (/ (radiansPerMinute / (1440 * 1440))))%f64 /\
  inclo (converted sat) = (inclo sat * F64.of_Q radiansPerDegree)%f64 /\
  nodeo (converted sat) = (nodeo sat * F64.of_Q radiansPerDegree)%f64 /\
  argpo (converted sat) = (argpo sat * F64.of_Q radiansPerDegree)%f64 /\
  mo (converted sat) = (mo sat * F64.of_Q radiansPerDegree)%f64 /\
  (no sat = F64.of_Q 1 -> no (converted sat) = F64.of_Q radiansPerMinute) /\
  (inclo sat = F64.of_Q 180 -> inclo (converted sat) = F64.of_Q math_Pi) /\
  (forall q : Q, F64.nearest_Q q (F64.of_Q q) = true).
Proof.
  assert (H1 : XPDOTP = F64.of_Q (/ radiansPerMinute)) by (vm_compute; reflexivity).
  assert (H2 : (XPDOTP * F64.of_Q 1440)%f64 = F64.of_Q (/ (radiansPerMinute / 1440)))
    by (vm_compute; reflexivity).
  assert (H3 : (XPDOTP * F64.of_Q 1440 * F64.of_Q 1440)%f64
               = F64.of_Q (/ (radiansPerMinute / (1440 * 1440))))
    by (vm_compute; reflexivity).
  assert (H4 : DEG2RAD = F64.of_Q radiansPerDegree) by reflexivity.
  unfold converted.
  cbn [no ndot nddot inclo nodeo argpo mo]. rewrite H3, H2, H1, H4.
  repeat split.
  - intros H. rewrite TLEToSat_stages, H. reflexivity.
  - intros H. rewrite TLEToSatV2_stages, H. reflexivity.
  - intros ->. vm_compute. reflexivity.
  - intros ->. vm_compute. reflexivity.
  - exact of_Q_nearest.
Qed.

(** *** The values of the fields *)

(** The value of a field of a record either parser returned. *)
Lemma returned_float (line1 line2 : string) (g : Gravity) (f : field) (t : string) :
  isIntField f = false ->
  fieldText f line1 line2 = Return t ->
  (forall sat, ParseTLE line1 line2 g = Return sat ->
               fieldValue f sat = inr (fst (strconv.ParseFloat t))) /\
  (forall sat, ParseTLEV2 line1 line2 g = Return (Some sat, None) ->
               fieldValue f sat = inr (fst (strconv.ParseFloat t))).
Proof.
  intros Hf Ht. split; intros sat H.
  - apply ParseTLE_returns in H. destruct H as (c & _ & _ & ->).
    apply parsed_float; assumption.
  - apply ParseTLEV2_returns in H. destruct H as (_ & c & _ & _ & ->).
    apply parsed_float; assumption.
Qed.




End Facts.

(** ** Further properties of the parsers and the converters *)

Section More.

Set Default Proof Using "Type".

Variable IntSize : Z.
Variables Gravity GravConst Elements Num : Type.
Variable zeroGravConst : GravConst.
Variable zeroElements : Elements.
Variable intOfNum : Num -> Z.
Variable getGravConst : Gravity -> outcome GravConst.
Variable getGravConstV2 : Gravity -> outcome (GravConst * option error).
Variable days2mdhms : Z -> float64 -> outcome (Num * Num * Num * Num * Num).
Variable JDay : Z -> Z -> Z -> Z -> Z -> Z -> outcome float64.
Variable sgp4init :
  string -> float64 -> Satellite GravConst Elements ->
  outcome (Satellite GravConst Elements).

Local Abbreviation parseInt := (parseInt IntSize).
Local Abbreviation ParseTLE := (ParseTLE IntSize zeroGravConst zeroElements getGravConst).
Local Abbreviation ParseTLEV2 := (ParseTLEV2 IntSize zeroGravConst zeroElements getGravConstV2).
Local Abbreviation TLEToSat :=
  (TLEToSat IntSize zeroGravConst zeroElements intOfNum getGravConst days2mdhms JDay sgp4init).
Local Abbreviation TLEToSatV2 :=
  (TLEToSatV2 IntSize zeroGravConst zeroElements intOfNum getGravConstV2 days2mdhms JDay sgp4init).
Local Abbreviation parseError := (parseError IntSize).
Local Abbreviation scanFields := (scanFields IntSize).
Local Abbreviation recordOf := (parsedRecord IntSize zeroElements).
Local Abbreviation initEpoch := (initEpoch IntSize intOfNum days2mdhms JDay sgp4init).
Local Abbreviation parses := (parses IntSize).

(** *** The two policies side by side *)

(** X1.  With an [int] of 32 or 64 bits and a gravity selector that both
    look-ups resolve to the same constants, the strict parser returns a
    record exactly when the validating parser returns that record with no
    error; where the validating parser returns an error, it is the message
    "invalid" and the name of a field around a cause, and the strict parser
    panics with that cause; and where one of them panics on a slice, so does
    the other, with the same panic. *)
Theorem strict_mirrors_validating (line1 line2 : string) (g : Gravity) (c : GravConst) :
  IntSize = 32 \/ IntSize = 64 ->
  getGravConst g = Return c ->
  getGravConstV2 g = Return (c, None) ->
  (forall sat, ParseTLE line1 line2 g = Return sat <->
               ParseTLEV2 line1 line2 g = Return (Some sat, None)) /\
  (forall r e, ParseTLEV2 line1 line2 g = Return (r, Some e) ->
     r = None /\
     exists f cause,
       e = WithMessage cause ("invalid " ++ fieldName f) /\
       ParseTLE line1 line2 g = Panic (LogPanic cause)) /\
  (forall p, ParseTLEV2 line1 line2 g = Panic p -> ParseTLE line1 line2 g = Panic p) /\
  (forall p, ParseTLE line1 line2 g = Panic p ->
     ParseTLEV2 line1 line2 g = Panic p \/
     exists f cause,
       p = LogPanic cause /\
       ParseTLEV2 line1 line2 g =
         Return (None, Some (WithMessage cause ("invalid " ++ fieldName f)))).
Proof.
  intros Hsize H1 H2.
  rewrite ParseTLE_scan, ParseTLEV2_scan, H1, H2.
  rewrite scan_policies, parsedRecord_policies by exact Hsize.
  destruct (scanFields true allFields line1 line2) as [|f cause|f p0];
    (split; [|split; [|split]]).
  - intros sat. split; intros [= <-]; reflexivity.
  - intros r e [=].
  - intros p [=].
  - intros p [=].
  - intros sat. split; intros [=].
  - intros r e [= <- <-]. split; [reflexivity|]. exists f, cause.
    split; reflexivity.
  - intros p [=].
  - intros p [= <-]. right. exists f, cause. split; reflexivity.
  - intros sat. split; intros [=].
  - intros r e [=].
  - intros p [= <-]. reflexivity.
  - intros p [= <-]. left. reflexivity.
Qed.

(** X2.  Under the same conditions the two converters correspond in the
    same way: [TLEToSat] returns a record exactly when [TLEToSatV2] returns
    that record with no error; an error of [TLEToSatV2] is an error of the
    parse, for whose cause [TLEToSat] panics; and a panic of [TLEToSatV2] is
    a panic of [TLEToSat]. *)
Theorem converters_correspond (line1 line2 : string) (g : Gravity) (c : GravConst) :
  IntSize = 32 \/ IntSize = 64 ->
  getGravConst g = Return c ->
  getGravConstV2 g = Return (c, None) ->
  (forall sat, TLEToSat line1 line2 g = Return sat <->
               TLEToSatV2 line1 line2 g = Return (Some sat, None)) /\
  (forall r e, TLEToSatV2 line1 line2 g = Return (r, Some e) ->
     r = None /\
     ParseTLEV2 line1 line2 g = Return (None, Some e) /\
     exists f cause,
       e = WithMessage cause ("invalid " ++ fieldName f) /\
       TLEToSat line1 line2 g = Panic (LogPanic cause)) /\
  (forall p, TLEToSatV2 line1 line2 g = Panic p -> TLEToSat line1 line2 g = Panic p).
Proof.
  intros Hsize H1 H2.
  rewrite TLEToSat_stages, TLEToSatV2_stages, ParseTLE_scan, ParseTLEV2_scan, H1, H2.
  rewrite scan_policies, parsedRecord_policies by exact Hsize.
  destruct (scanFields true allFields line1 line2) as [|f cause|f p0];
    cbn [bind]; (split; [|split]).
  - intros sat.
    destruct (initEpoch _ _) as [r|p]; cbn [bind];
      split; intros [= <-]; reflexivity.
  - intros r e. destruct (initEpoch _ _) as [r'|p]; cbn [bind];
      intros [=].
  - intros p. destruct (initEpoch _ _) as [r'|p']; cbn [bind];
      intros [= <-]. reflexivity.
  - intros sat. split; intros [=].
  - intros r e [= <- <-]. split; [reflexivity|]. split; [reflexivity|].
    exists f, cause. split; reflexivity.
  - intros p [=].
  - intros sat. split; intros [=].
  - intros r e [=].
  - intros p [= <-]. reflexivity.
Qed.

(** X3.  Whatever the lines, the selector and the size of [int], what the
    validating functions return is a record with no error or an error with
    no record: never both, never neither.  So the record [TLEToSatV2]
    converts in place is there whenever the parse reported no error. *)
Theorem record_or_error (line1 line2 : string) (g : Gravity)
  (r : option (Satellite GravConst Elements)) (e : option error) :
  ParseTLEV2 line1 line2 g = Return (r, e) \/
  TLEToSatV2 line1 line2 g = Return (r, e) ->
  (exists sat, r = Some sat /\ e = None) \/ (r = None /\ exists e', e = Some e').
Proof.
  rewrite TLEToSatV2_stages, ParseTLEV2_scan.
  destruct (getGravConstV2 g) as [[c [e0|]]|p]; cbn [bind].
  - intros [[= <- <-]|[= <- <-]]; right; split; eauto.
  - destruct (scanFields true allFields line1 line2) as [|f cause|f p0];
      cbn [bind].
    + intros [[= <- <-]|H]; [left; eauto|].
      destruct (initEpoch _ _) as [r'|p]; cbn [bind] in H;
        [|discriminate].
      injection H as <- <-. left. eauto.
    + intros [[= <- <-]|[= <- <-]]; right; split; eauto.
    + intros [[=]|[=]].
  - intros [[=]|[=]].
Qed.

(** X4.  The gravity selector is resolved before the lines are looked at:
    when the look-up of the validating functions reports an error, they
    return that error, as it is, for any lines, even empty ones; and a panic
    of a look-up is the panic of the functions that call it. *)
Theorem selector_comes_first (line1 line2 : string) (g : Gravity) :
  (forall c e, getGravConstV2 g = Return (c, Some e) ->
     ParseTLEV2 line1 line2 g = Return (None, Some e) /\
     TLEToSatV2 line1 line2 g = Return (None, Some e)) /\
  (forall p, getGravConstV2 g = Panic p ->
     ParseTLEV2 line1 line2 g = Panic p /\ TLEToSatV2 line1 line2 g = Panic p) /\
  (forall p, getGravConst g = Panic p ->
     ParseTLE line1 line2 g = Panic p /\ TLEToSat line1 line2 g = Panic p).
Proof.
  rewrite TLEToSat_stages, TLEToSatV2_stages, ParseTLE_scan, ParseTLEV2_scan.
  split; [|split].
  - intros c e ->. split; reflexivity.
  - intros p ->. split; reflexivity.
  - intros p ->. split; reflexivity.
Qed.

(** *** What a returned record holds *)

(** A record either parser returns is the record of the table, and every
    field of the lines parses under the policy of that parser. *)
Lemma returned_record (line1 line2 : string) (g : Gravity)
  (sat : Satellite GravConst Elements) :
  ParseTLE line1 line2 g = Return sat \/
  ParseTLEV2 line1 line2 g = Return (Some sat, None) ->
  exists v c, sat = recordOf v c line1 line2 /\
              forall f, parses v f line1 line2.
Proof.
  intros [H|H].
  - apply ParseTLE_returns in H. destruct H as (c & _ & Hs & ->).
    exists false, c. split; [reflexivity|]. intros f.
    apply (proj1 (scan_all IntSize false line1 line2 allFields) Hs), in_allFields.
  - apply ParseTLEV2_returns in H. destruct H as (_ & c & _ & Hs & ->).
    exists true, c. split; [reflexivity|]. intros f.
    apply (proj1 (scan_all IntSize true line1 line2 allFields) Hs), in_allFields.
Qed.

(** The text of a field that parses, and what the record of the table holds
    for it. *)
Lemma parsed_field (v : bool) (c : GravConst) (line1 line2 : string) (f : field) :
  parses v f line1 line2 ->
  exists t,
    fieldText f line1 line2 = Return t /\
    if isIntField f
    then exists n, strconv.ParseInt IntSize t (if v then 64 else 0) = (n, None) /\
                   fieldValue f (recordOf v c line1 line2) = inl n
    else exists x, strconv.ParseFloat t = (x, None) /\
                   fieldValue f (recordOf v c line1 line2) = inr x.
Proof.
  intros (t & Ht & He). exists t. split; [exact Ht|].
  rewrite parsedRecord_field. unfold parseError in He.
  unfold intOf, floatOf. rewrite Ht.
  destruct (isIntField f).
  - destruct (strconv.ParseInt IntSize t (if v then 64 else 0)) as [n e].
    cbn [snd] in He. subst e. exists n. split; reflexivity.
  - destruct (strconv.ParseFloat t) as [x e].
    cbn [snd] in He. subst e. exists x. split; reflexivity.
Qed.

Lemma policy_bits (v : bool) : (if v then 64 else 0) = 0 \/ (if v then 64 else 0) = 64.
Proof. destruct v; [right|left]; reflexivity. Qed.

(** X5.  With an [int] of 32 or 64 bits, the catalogue number of a record
    either parser returns lies between -9999 and 99999 and the year of its
    epoch between -9 and 99 (a sign counts among the five, or two, bytes of
    the field); so the full year both converters hand to [days2mdhms] and
    [JDay] lies between 1957 and 2056, and its conversion to [int] does not
    change it. *)
Theorem integer_fields_bounded (line1 line2 : string) (g : Gravity)
  (sat : Satellite GravConst Elements) :
  IntSize = 32 \/ IntSize = 64 ->
  ParseTLE line1 line2 g = Return sat \/
  ParseTLEV2 line1 line2 g = Return (Some sat, None) ->
  -9999 <= satnum sat <= 99999 /\
  -9 <= epochyr sat <= 99 /\
  1957 <= fullYear (epochyr sat) <= 2056 /\
  int IntSize (fullYear (epochyr sat)) = fullYear (epochyr sat).
Proof.
  intros Hsize H. apply returned_record in H. destruct H as (v & c & -> & Hp).
  destruct (parsed_field v c line1 line2 Fsatnum (Hp Fsatnum)) as (t1 & Ht1 & n1 & Hn1 & Hv1).
  destruct (parsed_field v c line1 line2 Fepochyr (Hp Fepochyr)) as (t2 & Ht2 & n2 & Hn2 & Hv2).
  assert (E1 : satnum (recordOf v c line1 line2) = n1)
    by (change (fieldValue Fsatnum (recordOf v c line1 line2))
          with (@inl Z float64 (satnum (recordOf v c line1 line2))) in Hv1;
        congruence).
  assert (E2 : epochyr (recordOf v c line1 line2) = n2)
    by (change (fieldValue Fepochyr (recordOf v c line1 line2))
          with (@inl Z float64 (epochyr (recordOf v c line1 line2))) in Hv2;
        congruence).
  rewrite E1, E2. clear Hv1 Hv2 E1 E2.
  assert (L1 : (String.length t1 <= 5)%nat).
  { unfold fieldText, rawText in Ht1.
    destruct (slice line1 2 7) as [raw|p] eqn:Hs; [|discriminate].
    injection Ht1 as <-. apply slice_length in Hs; [|lia].
    etransitivity; [apply length_TrimSpace|]. lia. }
  assert (L2 : (String.length t2 <= 2)%nat).
  { unfold fieldText, rawText in Ht2.
    destruct (slice line1 18 20) as [raw|p] eqn:Hs; [|discriminate].
    injection Ht2 as <-. apply slice_length in Hs; lia. }
  apply (ParseInt_range IntSize t1 _ n1 5 Hsize (policy_bits v) ltac:(lia)) in Hn1.
  apply (ParseInt_range IntSize t2 _ n2 2 Hsize (policy_bits v) ltac:(lia)) in Hn2.
  change (10 ^ (5 - 1)) with 10000 in Hn1. change (10 ^ 5) with 100000 in Hn1.
  change (10 ^ (2 - 1)) with 10 in Hn2. change (10 ^ 2) with 100 in Hn2.
  assert (Hy : fullYear n2 = if n2 <? 57 then n2 + 2000 else n2 + 1900).
  { unfold fullYear, strconv.int64.
    change (2 ^ 63) with 9223372036854775808.
    change (2 ^ 64) with 18446744073709551616.
    destruct (n2 <? 57); rewrite Z.mod_small; lia. }
  rewrite Hy. split; [lia|]. split; [lia|].
  split; [destruct (Z.ltb_spec n2 57); lia|].
  unfold int.
  destruct Hsize as [->| ->];
    [change (2 ^ (32 - 1)) with 2147483648; change (2 ^ 32) with 4294967296
    |change (2 ^ (64 - 1)) with 9223372036854775808;
     change (2 ^ 64) with 18446744073709551616];
    destruct (Z.ltb_spec n2 57); rewrite Z.mod_small; lia.
Qed.

(** X6.  A space left in the text handed to the numeric parser is a defect
    under both policies, whatever the field: the strict parser does not
    return and the validating parser returns no record.  The year and the
    day of the epoch and the eccentricity are parsed as extracted, so any
    space in their columns is one; the eight stripped fields lose two
    spaces only, so a third one is one. *)
Theorem space_left_is_defect (line1 line2 : string) (g : Gravity) (f : field)
  (raw : string) :
  IntSize = 32 \/ IntSize = 64 ->
  rawText f line1 line2 = Return raw ->
  (if isStripped f then (2 < countSpaces raw)%nat
   else f <> Fsatnum /\ (0 < countSpaces raw)%nat) ->
  (forall v, ~ parses v f line1 line2) /\
  (forall sat, ParseTLE line1 line2 g <> Return sat) /\
  (forall sat err, ParseTLEV2 line1 line2 g <> Return (Some sat, err)).
Proof.
  intros Hsize Hraw Hsp.
  assert (Hleft : exists t, fieldText f line1 line2 = Return t /\
                            (0 < countSpaces t)%nat).
  { unfold fieldText. rewrite Hraw. cbn [bind]. eexists. split; [reflexivity|].
    destruct f; cbn [isStripped prepared] in *;
      try (rewrite countSpaces_Replace; lia);
      destruct Hsp as [Hne Hsp]; first [congruence|exact Hsp]. }
  destruct Hleft as (t & Ht & Hpos).
  assert (Hno : forall v, ~ parses v f line1 line2).
  { intros v (t' & Ht' & He). rewrite Ht in Ht'. injection Ht' as <-.
    unfold parseError in He. destruct (isIntField f).
    - exact (ParseInt_space IntSize t _ Hsize (policy_bits v) Hpos He).
    - rewrite (ParseFloat_space t Hpos) in He. discriminate. }
  split; [exact Hno|]. split.
  - intros sat H.
    destruct (returned_record line1 line2 g sat (or_introl H)) as (v & c & _ & Hp).
    exact (Hno v (Hp f)).
  - intros sat err H. pose proof H as H'.
    apply ParseTLEV2_returns in H'. destruct H' as (-> & _).
    destruct (returned_record line1 line2 g sat (or_intror H)) as (v & c & _ & Hp).
    exact (Hno v (Hp f)).
Qed.

(** *** The values of the plain fields *)


(** X8.  The two integer fields: digits between spaces at the columns of
    the catalogue number are read as the number they denote, the spaces on
    either side trimmed; two digits at the columns of the year of the epoch
    are read as the number they denote.  Both hold under both policies,
    with an [int] of 32 or 64 bits. *)
Theorem integer_fields_digits (line1 line2 : string) (g : Gravity)
  (sat : Satellite GravConst Elements) :
  IntSize = 32 \/ IntSize = 64 ->
  ParseTLE line1 line2 g = Return sat \/
  ParseTLEV2 line1 line2 g = Return (Some sat, None) ->
  (forall a b ds,
     rawText Fsatnum line1 line2 = Return (blank a ++ ds ++ blank b) ->
     allDigits ds = true -> (1 <= String.length ds)%nat ->
     satnum sat = decimalValue ds) /\
  (forall ds,
     rawText Fepochyr line1 line2 = Return ds -> allDigits ds = true ->
     epochyr sat = decimalValue ds).
Proof.
  intros Hsize H. apply returned_record in H. destruct H as (v & c & -> & Hp).
  split.
  - intros a b ds Hraw Hds Hlen.
    destruct (parsed_field v c line1 line2 Fsatnum (Hp Fsatnum))
      as (t & Ht & n & Hn & Hv).
    unfold fieldText in Ht. rewrite Hraw in Ht. cbn [bind prepared] in Ht.
    rewrite (TrimSpace_digits a b ds Hds Hlen) in Ht. injection Ht as <-.
    unfold rawText in Hraw. apply slice_length in Hraw; [|lia].
    rewrite !length_append, !length_blank in Hraw.
    rewrite (ParseInt_digits IntSize ds _ Hsize (policy_bits v) Hds) in Hn by lia.
    change (fieldValue Fsatnum (recordOf v c line1 line2))
      with (@inl Z float64 (satnum (recordOf v c line1 line2))) in Hv.
    congruence.
  - intros ds Hraw Hds.
    destruct (parsed_field v c line1 line2 Fepochyr (Hp Fepochyr))
      as (t & Ht & n & Hn & Hv).
    unfold fieldText in Ht. rewrite Hraw in Ht. cbn [bind prepared] in Ht.
    injection Ht as <-.
    unfold rawText in Hraw. apply slice_length in Hraw; [|lia].
    rewrite (ParseInt_digits IntSize ds _ Hsize (policy_bits v) Hds) in Hn by lia.
    change (fieldValue Fepochyr (recordOf v c line1 line2))
      with (@inl Z float64 (epochyr (recordOf v c line1 line2))) in Hv.
    congruence.
Qed.

(** *** Numbers that are not finite *)

(** X9.  What [parseFloat] returns, and what a float field of a returned
    record holds, is a finite number unless the whole text spells an
    infinity or NaN, which [strconv.ParseFloat] accepts without an error.
    The day of the epoch, [nddot], [bstar] and the eccentricity are finite
    in every record either parser returns: their texts are too long or hold
    a point. *)
Theorem floats_finite_unless_spelled (line1 line2 : string) (g : Gravity) :
  (forall s x, parseFloat s = Return x ->
     is_finite x = true \/ strconv.special s = Some (x, String.length s)) /\
  (forall sat f x,
     ParseTLE line1 line2 g = Return sat \/
     ParseTLEV2 line1 line2 g = Return (Some sat, None) ->
     fieldValue f sat = inr x ->
     (is_finite x = true \/
      exists t, fieldText f line1 line2 = Return t /\
                strconv.special t = Some (x, String.length t)) /\
     (f = Fepochdays \/ f = Fnddot \/ f = Fbstar \/ f = Fecco -> is_finite x = true)).
Proof.
  split.
  - intros s x. unfold parseFloat.
    pose proof (ParseFloat_finite s) as H.
    destruct (strconv.ParseFloat s) as [y [e|]]; [discriminate|].
    intros [= <-]. apply H. reflexivity.
  - intros sat f x H Hx.
    apply returned_record in H. destruct H as (v & c & -> & Hp).
    destruct (parsed_field v c line1 line2 f (Hp f)) as (t & Ht & Hval).
    destruct (isIntField f) eqn:Hf.
    { destruct Hval as (n & _ & Hn). congruence. }
    destruct Hval as (y & Hy & Hv). assert (y = x) by congruence. subst y.
    pose proof (ParseFloat_finite t) as Hfin. rewrite Hy in Hfin.
    cbn [fst snd] in Hfin. specialize (Hfin eq_refl).
    split.
    + destruct Hfin as [Hfin|Hfin]; [left; exact Hfin|right].
      exists t. split; assumption.
    + intros Hfour. destruct Hfin as [Hfin|Hsp]; [exact Hfin|exfalso].
      destruct (special_whole t x "." Hsp) as (Hdot & Hlen & _); try reflexivity.
      unfold fieldText in Ht.
      destruct (rawText f line1 line2) as [raw|p] eqn:Hraw; [|discriminate].
      injection Ht as <-.
      destruct Hfour as [ -> | [ -> | [ -> | -> ] ] ]; cbn [prepared] in *.
      * unfold rawText in Hraw. apply slice_length in Hraw; lia.
      * rewrite occurs_Replace in Hdot by reflexivity.
        unfold rawText, rebuilt in Hraw.
        destruct (slice line1 44 45); [|discriminate].
        destruct (slice line1 45 50); [|discriminate].
        destruct (slice line1 50 52); [|discriminate].
        injection Hraw as <-. rewrite occurs_app in Hdot. cbn [append occurs] in Hdot.
        change (("." =? ".")%char) with true in Hdot. cbn [orb] in Hdot.
        rewrite orb_true_r in Hdot. discriminate.
      * rewrite occurs_Replace in Hdot by reflexivity.
        unfold rawText, rebuilt in Hraw.
        destruct (slice line1 53 54); [|discriminate].
        destruct (slice line1 54 59); [|discriminate].
        destruct (slice line1 59 61); [|discriminate].
        injection Hraw as <-. rewrite occurs_app in Hdot. cbn [append occurs] in Hdot.
        change (("." =? ".")%char) with true in Hdot. cbn [orb] in Hdot.
        rewrite orb_true_r in Hdot. discriminate.
      * cbn [append occurs] in Hdot. discriminate.
Qed.

(** X10.  An infinity or NaN written in full in the columns of a float
    field is no defect: for any of the spellings [Inf], [+Inf], [-Inf],
    [Infinity], [+Infinity], [-Infinity] and [NaN] as the text of the field,
    the field parses under both policies and a record either parser returns
    holds that infinity or NaN. *)
Theorem infinity_and_nan_accepted (line1 line2 : string) (g : Gravity) (f : field)
  (t : string) :
  isIntField f = false ->
  fieldText f line1 line2 = Return t ->
  In t ["Inf"; "+Inf"; "-Inf"; "Infinity"; "+Infinity"; "-Infinity"; "NaN"] ->
  exists x,
    strconv.ParseFloat t = (x, None) /\
    is_finite x = false /\
    (forall v, parses v f line1 line2) /\
    (forall sat, ParseTLE line1 line2 g = Return sat -> fieldValue f sat = inr x) /\
    (forall sat, ParseTLEV2 line1 line2 g = Return (Some sat, None) ->
                 fieldValue f sat = inr x).
Proof.
  intros Hf Ht Hin.
  destruct (returned_float IntSize Gravity GravConst Elements zeroGravConst zeroElements
              getGravConst getGravConstV2 line1 line2 g f t Hf Ht) as [H1 H2].
  assert (Hp : snd (strconv.ParseFloat t) = None /\
               is_finite (fst (strconv.ParseFloat t)) = false).
  { cbn [In] in Hin.
    destruct Hin as [<-|[<-|[<-|[<-|[<-|[<-|[<-|[]]]]]]]]; split; reflexivity. }
  destruct Hp as [Hp1 Hp2].
  exists (fst (strconv.ParseFloat t)).
  split; [destruct (strconv.ParseFloat t); cbn [fst snd] in *; congruence|].
  split; [exact Hp2|]. split; [|split; assumption].
  intros v. exists t. split; [exact Ht|].
  unfold parseError. rewrite Hf. exact Hp1.
Qed.

(** *** The strict scalar parser of integers *)

(** X11.  With an [int] of 32 or 64 bits, what [parseInt] returns fits the
    [int] of the platform, not only [int64]: it asks [strconv.ParseInt] for
    the size 0.  When the text is no integer of that size, [parseInt] panics
    with the error of [strconv.ParseInt]. *)
Theorem parseInt_fits_int (s : string) :
  IntSize = 32 \/ IntSize = 64 ->
  (forall n, parseInt s = Return n ->
     - 2 ^ (IntSize - 1) <= n < 2 ^ (IntSize - 1) /\
     strconv.ParseInt IntSize s 0 = (n, None)) /\
  (forall p, parseInt s = Panic p ->
     exists e, p = LogPanic e /\ snd (strconv.ParseInt IntSize s 0) = Some e).
Proof.
  intros Hsize. unfold parseInt.
  pose proof (ParseInt_fits IntSize s 0) as H.
  destruct (strconv.ParseInt IntSize s 0) as [n [e|]]; split.
  - intros n' [=].
  - intros p [= <-]. exists e. split; reflexivity.
  - intros n' [= <-]. split; [|reflexivity].
    apply (H n Hsize (or_introl eq_refl) eq_refl).
  - intros p [=].
Qed.

(** *** The columns that are not read *)

(** Lines from which the same texts are extracted give the same results,
    but for the lines the record stores. *)
Lemma same_texts (a1 a2 b1 b2 : string) (g : Gravity) :
  (forall f, fieldText f b1 b2 = fieldText f a1 a2) ->
  (forall sat, ParseTLE a1 a2 g = Return sat ->
     ParseTLE b1 b2 g = Return (set_Line1 b1 (set_Line2 b2 sat))) /\
  (forall p, ParseTLE a1 a2 g = Panic p -> ParseTLE b1 b2 g = Panic p) /\
  (forall sat, ParseTLEV2 a1 a2 g = Return (Some sat, None) ->
     ParseTLEV2 b1 b2 g = Return (Some (set_Line1 b1 (set_Line2 b2 sat)), None)) /\
  (forall e, ParseTLEV2 a1 a2 g = Return (None, Some e) ->
     ParseTLEV2 b1 b2 g = Return (None, Some e)) /\
  (forall p, ParseTLEV2 a1 a2 g = Panic p -> ParseTLEV2 b1 b2 g = Panic p).
Proof.
  intros Hsame.
  assert (Hscan : forall v fs, scanFields v fs b1 b2 = scanFields v fs a1 a2).
  { intros v fs. induction fs as [|f fs IH]; cbn [scanFields]; [reflexivity|].
    rewrite Hsame, IH. reflexivity. }
  assert (Hrec : forall v (c : GravConst), recordOf v c b1 b2 =
                             set_Line1 b1 (set_Line2 b2 (recordOf v c a1 a2))).
  { intros v c. unfold parsedRecord, intOf, floatOf.
    rewrite !Hsame. reflexivity. }
  rewrite !ParseTLE_scan, !ParseTLEV2_scan, !Hscan.
  destruct (getGravConst g) as [c|p0];
    destruct (getGravConstV2 g) as [[c2 [e2|]]|p2];
    destruct (scanFields false allFields a1 a2) as [|f0 e0|f0 q0];
    destruct (scanFields true allFields a1 a2) as [|f1 e1|f1 q1];
    repeat split; intros; try discriminate; try assumption;
    match goal with
    | H : Return _ = Return _ |- _ => injection H as <-; rewrite Hrec; reflexivity
    end.
Qed.

(** X12.  What follows column 61 of the first line and column 63 of the
    second (the number of the element set, the number of the revolution and
    the two checksums) is not looked at: on lines that reach these columns,
    any text appended to them changes nothing but the lines stored in the
    record. *)
Theorem trailing_columns_ignored (line1 line2 x1 x2 : string) (g : Gravity) :
  (61 <= String.length line1)%nat -> (63 <= String.length line2)%nat ->
  (forall sat, ParseTLE line1 line2 g = Return sat ->
     ParseTLE (line1 ++ x1) (line2 ++ x2) g =
       Return (set_Line1 (line1 ++ x1) (set_Line2 (line2 ++ x2) sat))) /\
  (forall p, ParseTLE line1 line2 g = Panic p ->
     ParseTLE (line1 ++ x1) (line2 ++ x2) g = Panic p) /\
  (forall sat, ParseTLEV2 line1 line2 g = Return (Some sat, None) ->
     ParseTLEV2 (line1 ++ x1) (line2 ++ x2) g =
       Return (Some (set_Line1 (line1 ++ x1) (set_Line2 (line2 ++ x2) sat)), None)) /\
  (forall e, ParseTLEV2 line1 line2 g = Return (None, Some e) ->
     ParseTLEV2 (line1 ++ x1) (line2 ++ x2) g = Return (None, Some e)) /\
  (forall p, ParseTLEV2 line1 line2 g = Panic p ->
     ParseTLEV2 (line1 ++ x1) (line2 ++ x2) g = Panic p).
Proof.
  intros L1 L2. apply same_texts. intros f.
  unfold fieldText, rawText, rebuilt.
  destruct f; rewrite ?slice_app by lia; reflexivity.
Qed.

(** X13.  Nor are the first two columns of the first line (the number of
    the line and a space) and the first eight of the second (which repeat
    the catalogue number): replacing them by any text as long changes
    nothing but the lines stored in the record.  The catalogue number of the
    second line is never compared with that of the first. *)
Theorem leading_columns_ignored (h1 h1' r1 h2 h2' r2 : string) (g : Gravity) :
  String.length h1 = 2%nat -> String.length h1' = 2%nat ->
  String.length h2 = 8%nat -> String.length h2' = 8%nat ->
  (forall sat, ParseTLE (h1 ++ r1) (h2 ++ r2) g = Return sat ->
     ParseTLE (h1' ++ r1) (h2' ++ r2) g =
       Return (set_Line1 (h1' ++ r1) (set_Line2 (h2' ++ r2) sat))) /\
  (forall p, ParseTLE (h1 ++ r1) (h2 ++ r2) g = Panic p ->
     ParseTLE (h1' ++ r1) (h2' ++ r2) g = Panic p) /\
  (forall sat, ParseTLEV2 (h1 ++ r1) (h2 ++ r2) g = Return (Some sat, None) ->
     ParseTLEV2 (h1' ++ r1) (h2' ++ r2) g =
       Return (Some (set_Line1 (h1' ++ r1) (set_Line2 (h2' ++ r2) sat)), None)) /\
  (forall e, ParseTLEV2 (h1 ++ r1) (h2 ++ r2) g = Return (None, Some e) ->
     ParseTLEV2 (h1' ++ r1) (h2' ++ r2) g = Return (None, Some e)) /\
  (forall p, ParseTLEV2 (h1 ++ r1) (h2 ++ r2) g = Panic p ->
     ParseTLEV2 (h1' ++ r1) (h2' ++ r2) g = Panic p).
Proof.
  intros A1 A1' A2 A2'. apply same_texts. intros f.
  unfold fieldText, rawText, rebuilt.
  destruct f; rewrite !slice_skip by lia;
    rewrite ?length_append, ?A1, ?A1', ?A2, ?A2'; reflexivity.
Qed.

(** *** Lines that are long enough *)

(** X14.  On a first line of at least 61 bytes and a second of at least 63
    no slice is out of range: when the look-up of the selector returns, the
    validating parser returns (a record or an error) and does not panic; and
    a panic of the strict parser is that of its look-up or carries the error
    of the numeric parser on a field. *)
Theorem long_lines_never_abort (line1 line2 : string) (g : Gravity) :
  (61 <= String.length line1)%nat -> (63 <= String.length line2)%nat ->
  (forall c e0, getGravConstV2 g = Return (c, e0) ->
     exists r e, ParseTLEV2 line1 line2 g = Return (r, e)) /\
  (forall p, ParseTLEV2 line1 line2 g = Panic p -> getGravConstV2 g = Panic p) /\
  (forall p, ParseTLE line1 line2 g = Panic p ->
     getGravConst g = Panic p \/
     exists f t e,
       fieldText f line1 line2 = Return t /\ parseError false f t = Some e /\
       p = LogPanic e).
Proof.
  intros L1 L2.
  assert (Hno : forall v f p, scanFields v allFields line1 line2 <> Aborted f p).
  { intros v f p H. apply scan_aborted in H. destruct H as [_ H].
    assert (Hex : exists t, fieldText f line1 line2 = Return t).
    { apply fieldText_returns. destruct f; cbn [fieldEnd lineOf onLine1]; lia. }
    destruct Hex as (t & Ht). congruence. }
  rewrite ParseTLE_scan, ParseTLEV2_scan. split; [|split].
  - intros c e0 ->. destruct e0 as [e0|]; [eauto|].
    destruct (scanFields true allFields line1 line2) as [|f e|f p] eqn:Hs; eauto.
    exfalso. exact (Hno _ _ _ Hs).
  - intros p. destruct (getGravConstV2 g) as [[c [e0|]]|p0]; try discriminate.
    + destruct (scanFields true allFields line1 line2) as [|f e|f q] eqn:Hs;
        try discriminate.
      exfalso. exact (Hno _ _ _ Hs).
    + intros [= <-]. reflexivity.
  - intros p. destruct (getGravConst g) as [c|p0].
    + destruct (scanFields false allFields line1 line2) as [|f e|f q] eqn:Hs;
        try discriminate.
      * intros [= <-]. right. apply scan_defect in Hs.
        destruct Hs as (_ & t & Ht & He). exists f, t, e. repeat split; assumption.
      * exfalso. exact (Hno _ _ _ Hs).
    + intros [= <-]. left. reflexivity.
Qed.

(** *** The range of the eccentricity *)

(** X16.  Seven digits at the columns of the eccentricity give, in every
    record either parser returns, an eccentricity that is not negative and
    is below one, in the order of binary64: the point put before the digits
    keeps the value within the range of a closed orbit. *)
Theorem eccentricity_below_one (line1 line2 : string) (g : Gravity) (ds : string)
  (sat : Satellite GravConst Elements) :
  rawText Fecco line1 line2 = Return ds ->
  allDigits ds = true ->
  ParseTLE line1 line2 g = Return sat \/
  ParseTLEV2 line1 line2 g = Return (Some sat, None) ->
  SFleb (F64.zero false) (ecco sat) = true /\
  SFltb (ecco sat) (F64.of_Q 1) = true.
Proof.
  intros Hraw Hds H. apply returned_record in H. destruct H as (v & c & -> & Hp).
  destruct (parsed_field v c line1 line2 Fecco (Hp Fecco)) as (t & Ht & x & Hx & Hv).
  unfold fieldText in Ht. rewrite Hraw in Ht. cbn [bind prepared] in Ht.
  injection Ht as <-.
  unfold rawText in Hraw. apply slice_length in Hraw; [|lia].
  change (strconv.ParseFloat ("." ++ ds) = (x, None)) in Hx.
  rewrite (ParseFloat_fraction ds Hds) in Hx by lia. rewrite Hraw in Hx.
  change (fieldValue Fecco (recordOf v c line1 line2))
    with (@inr Z float64 (ecco (recordOf v c line1 line2))) in Hv.
  assert (E : ecco (recordOf v c line1 line2)
              = F64.of_decimal false (decimalValue ds) (- Z.of_nat (33 - 26)))
    by congruence.
  rewrite E.
  change (F64.of_decimal false (decimalValue ds) (- Z.of_nat (33 - 26)))
    with (F64.of_ratio false (decimalValue ds) (10 ^ 7)).
  pose proof (valueFrom_bound ds 0 Hds ltac:(lia)) as Hb.
  rewrite Hraw in Hb. fold (decimalValue ds) in Hb.
  change (10 ^ Z.of_nat (33 - 26)) with 10000000 in Hb.
  apply of_ratio_below_one; [change (10 ^ 7) with 10000000; lia|reflexivity].
Qed.

End More.

(** *** The constants *)

(** X15.  The four constants are the binary64 numbers nearest to 2 pi,
    pi / 180, 180 / pi and 1440 / (2 pi), for the pi of [math.Pi]; and in
    binary64 arithmetic a full turn of 360 degrees is [TWOPI], a degree
    turned into radians and back is a degree, and the revolutions per day
    of one radian per minute times a full turn are the 1440 minutes of a
    day. *)
Theorem constants_consistent :
  F64.nearest_Q (math_Pi * 2) TWOPI = true /\
  F64.nearest_Q (math_Pi / 180) DEG2RAD = true /\
  F64.nearest_Q (180 / math_Pi) RAD2DEG = true /\
  F64.nearest_Q (1440 / (2 * math_Pi)) XPDOTP = true /\
  (F64.of_Q 360 * DEG2RAD)%f64 = TWOPI /\
  (DEG2RAD * RAD2DEG)%f64 = F64.of_Q 1 /\
  (XPDOTP * TWOPI)%f64 = F64.of_Q 1440.
Proof.
  repeat split; try apply of_Q_nearest; vm_compute; reflexivity.
Qed.

(** ** The properties on concrete lines *)

Example fullYear_00 : fullYear 0 = 2000.
Proof. reflexivity. Qed.

Example fullYear_56 : fullYear 56 = 2056.
Proof. reflexivity. Qed.

Example fullYear_57 : fullYear 57 = 1957.
Proof. reflexivity. Qed.

Example fullYear_99 : fullYear 99 = 1999.
Proof. reflexivity. Qed.

(** The numbers of the examples are the nearest of the format: by the
    definition of nearest, and by the reading of decimal constants of the
    kernel's primitive floats. *)
Example examples_nearest :
  F64.nearest false 1234567 (10 ^ 7) (F64.of_Q 0.1234567) = true /\
  F64.nearest false 12345 (10 ^ 8) (F64.of_Q 0.00012345) = true /\
  F64.nearest true 54321 1000 (F64.of_Q (-54.321)) = true /\
  F64.nearest false (Qnum math_Pi) (Zpos (Qden math_Pi)) (F64.of_Q math_Pi) = true /\
  F64.nearest false (Qnum radiansPerMinute) (Zpos (Qden radiansPerMinute))
    (F64.of_Q radiansPerMinute) = true /\
  F64.nearest false (Qnum radiansPerDegree) (Zpos (Qden radiansPerDegree)) DEG2RAD
    = true /\
  F64.nearest false (Qnum (/ radiansPerMinute)) (Zpos (Qden (/ radiansPerMinute)))
    XPDOTP = true.
Proof. repeat split; vm_compute; reflexivity. Qed.

Example of_Q_primitive :
  Prim2SF 0.1234567%float = F64.of_Q 0.1234567 /\
  Prim2SF 0.12345e-3%float = F64.of_Q 0.00012345 /\
  Prim2SF (-54.321)%float = F64.of_Q (-54.321) /\
  Prim2SF 3.141592653589793%float = F64.of_Q math_Pi /\
  Prim2SF 0.004363323129985824%float = F64.of_Q radiansPerMinute.
Proof. repeat split; vm_compute; reflexivity. Qed.



(** C2: on a first line cut in the middle of the epoch day, the validating
    functions abort with the slice bound instead of returning an error. *)
Lemma truncated_counterexample :
  Sample.ParseTLEV2 Sample.line1_cut Sample.line2 Sample.GravityKnown
    = Panic (SliceBounds 32 25) /\
  Sample.TLEToSatV2 Sample.line1_cut Sample.line2 Sample.GravityKnown
    = Panic (SliceBounds 32 25).
Proof. split; vm_compute; reflexivity. Qed.

Lemma truncated_lines_witness :
  truncated Sample.line1_cut Sample.line2 /\
  (forall sat err,
     Sample.ParseTLEV2 Sample.line1_cut Sample.line2 Sample.GravityKnown
       <> Return (Some sat, err)) /\
  (forall sat,
     Sample.ParseTLE Sample.line1_cut Sample.line2 Sample.GravityKnown
       <> Return sat).
Proof.
  assert (H : truncated Sample.line1_cut Sample.line2)
    by (left; vm_compute; lia).
  split; [exact H|].
  destruct (truncated_lines 64 _ _ _ _ tt tt (fun n : Z => n) Sample.getGravConst
              Sample.getGravConstV2 Sample.days2mdhms Sample.JDay Sample.sgp4init
              Sample.line1_cut Sample.line2 Sample.GravityKnown H)
    as (H1 & _ & H3 & _).
  split; [exact H1|exact H3].
Defined.

Lemma unit_normalization_witness :
  exists sat,
    Sample.ParseTLE Sample.line1 Sample.line2 Sample.GravityKnown = Return sat /\
    Sample.TLEToSat Sample.line1 Sample.line2 Sample.GravityKnown =
      initEpoch 64 (fun n : Z => n) Sample.days2mdhms Sample.JDay Sample.sgp4init
        (fullYear (epochyr sat)) (converted sat) /\
    no (converted sat) = (no sat / F64.of_Q (/ radiansPerMinute))%f64 /\
    inclo (converted sat) = (inclo sat * F64.of_Q radiansPerDegree)%f64.
Proof.
  eexists. split; [vm_compute; reflexivity|].
  match goal with
  | |- context [converted ?s] =>
      destruct (unit_normalization 64 _ _ _ _ tt tt (fun n : Z => n) Sample.getGravConst
                  Sample.getGravConstV2 Sample.days2mdhms Sample.JDay
                  Sample.sgp4init Sample.line1 Sample.line2 Sample.GravityKnown s)
        as (H1 & _ & H3 & _ & _ & H6 & _)
  end.
  split; [apply H1; vm_compute; reflexivity|]. split; [exact H3|exact H6].
Defined.

Lemma century_pivot_witness :
  exists sat,
    Sample.ParseTLE Sample.line1 Sample.line2 Sample.GravityKnown = Return sat /\
    epochyr sat = 8 /\
    fullYear (epochyr sat) = 2000 + epochyr sat /\
    Sample.TLEToSat Sample.line1 Sample.line2 Sample.GravityKnown =
      initEpoch 64 (fun n : Z => n) Sample.days2mdhms Sample.JDay Sample.sgp4init
        (fullYear (epochyr sat)) (converted sat).
Proof.
  eexists. split; [vm_compute; reflexivity|]. split; [reflexivity|].
  match goal with
  | |- context [converted ?s] =>
      destruct (century_pivot 64 _ _ _ _ tt tt (fun n : Z => n) Sample.getGravConst
                  Sample.getGravConstV2 Sample.days2mdhms Sample.JDay
                  Sample.sgp4init Sample.line1 Sample.line2 Sample.GravityKnown s)
        as (H1 & _ & H3 & _)
  end.
  - cbn. lia.
  - split; [apply H1; cbn; lia|apply H3; vm_compute; reflexivity].
Defined.

(** C5: an epoch day of 400 is parsed and converted like any other; no
    instance of the calendar, the Julian date and the propagator makes
    [TLEToSatV2] return an error for it. *)
Lemma epoch_day_400_counterexample :
  (exists sat,
     Sample.ParseTLEV2 Sample.line1_day400 Sample.line2 Sample.GravityKnown
       = Return (Some sat, None) /\
     epochdays sat = F64.of_Q 400) /\
  (exists sat,
     Sample.TLEToSatV2 Sample.line1_day400 Sample.line2 Sample.GravityKnown
       = Return (Some sat, None)) /\
  (forall (Num : Type) (intOfNum : Num -> Z) days2mdhms JDay sgp4init e,
     TLEToSatV2 64 tt tt intOfNum Sample.getGravConstV2 days2mdhms JDay sgp4init
       Sample.line1_day400 Sample.line2 Sample.GravityKnown
     <> Return (None, Some e)).
Proof.
  split; [|split].
  - eexists. split; [vm_compute; reflexivity|reflexivity].
  - eexists. vm_compute. reflexivity.
  - intros Num intOfNum days2mdhms JDay sgp4init e H.
    apply (proj1 (epoch_day_unchecked 64 _ _ _ _ tt tt intOfNum Sample.getGravConstV2
                    days2mdhms JDay sgp4init Sample.line1_day400 Sample.line2
                    Sample.GravityKnown)) in H.
    destruct H as [H _]. vm_compute in H. discriminate.
Qed.

Lemma epoch_day_unchecked_witness :
  exists sat,
    Sample.ParseTLEV2 Sample.line1_day400 Sample.line2 Sample.GravityKnown
      = Return (Some sat, None) /\
    epochdays sat = F64.of_Q 400 /\
    Sample.TLEToSatV2 Sample.line1_day400 Sample.line2 Sample.GravityKnown =
      (r <- initEpoch 64 (fun n : Z => n) Sample.days2mdhms Sample.JDay
              Sample.sgp4init (fullYear (epochyr sat)) (converted sat) ;;
       Return (Some r, None)).
Proof.
  eexists. split; [vm_compute; reflexivity|]. split; [reflexivity|].
  match goal with
  | |- context [converted ?s] =>
      apply (proj2 (epoch_day_unchecked 64 _ _ _ _ tt tt (fun n : Z => n)
                      Sample.getGravConstV2 Sample.days2mdhms Sample.JDay
                      Sample.sgp4init Sample.line1_day400 Sample.line2
                      Sample.GravityKnown) s)
  end.
  vm_compute. reflexivity.
Defined.

Lemma first_defect_reported_witness :
  fieldText Fepochyr Sample.line1_badyear Sample.line2 = Return "0x" /\
  parseError 64 true Fepochyr "0x" = Some (NumError "ParseInt" "0x" ErrSyntax) /\
  exists f0 t0 cause,
    (fieldIndex f0 <= fieldIndex Fepochyr)%nat /\
    fieldText f0 Sample.line1_badyear Sample.line2 = Return t0 /\
    parseError 64 true f0 t0 = Some cause /\
    (forall f', (fieldIndex f' < fieldIndex f0)%nat ->
                parses 64 true f' Sample.line1_badyear Sample.line2) /\
    Sample.ParseTLEV2 Sample.line1_badyear Sample.line2 Sample.GravityKnown =
      Return (None, Some (WithMessage cause ("invalid " ++ fieldName f0))).
Proof.
  split; [reflexivity|]. split; [reflexivity|].
  apply (first_defect_reported 64 _ _ _ tt tt Sample.getGravConstV2
           Sample.line1_badyear Sample.line2 Sample.GravityKnown tt
           Fepochyr "0x" (NumError "ParseInt" "0x" ErrSyntax)).
  - reflexivity.
  - intros f' H. destruct f'; cbn in H; try lia. eexists. reflexivity.
  - reflexivity.
  - reflexivity.
Defined.

Lemma strict_defect_aborts_witness :
  fieldText Fepochyr Sample.line1_badyear Sample.line2 = Return "0x" /\
  parseError 64 false Fepochyr "0x" = Some (NumError "ParseInt" "0x" ErrSyntax) /\
  (forall sat,
     Sample.ParseTLE Sample.line1_badyear Sample.line2 Sample.GravityKnown
       <> Return sat) /\
  (forall sat,
     Sample.TLEToSat Sample.line1_badyear Sample.line2 Sample.GravityKnown
       <> Return sat).
Proof.
  split; [reflexivity|]. split; [reflexivity|].
  destruct (strict_defect_aborts 64 _ _ _ _ tt tt (fun n : Z => n) Sample.getGravConst
              Sample.days2mdhms Sample.JDay Sample.sgp4init
              Sample.line1_badyear Sample.line2 Sample.GravityKnown
              Fepochyr "0x" (NumError "ParseInt" "0x" ErrSyntax)
              eq_refl eq_refl) as (H1 & H2 & _).
  split; [exact H1|exact H2].
Defined.




Lemma parsers_agree_witness :
  exists sat1 sat2,
    Sample.ParseTLEV2 Sample.line1 Sample.line2 Sample.GravityKnown
      = Return (Some sat2, None) /\
    Sample.ParseTLE Sample.line1 Sample.line2 Sample.GravityKnown = Return sat1 /\
    satnum sat1 = satnum sat2 /\ epochyr sat1 = epochyr sat2 /\
    ecco sat1 = ecco sat2 /\ no sat1 = no sat2.
Proof.
  assert (H2 : exists sat2,
             Sample.ParseTLEV2 Sample.line1 Sample.line2 Sample.GravityKnown
               = Return (Some sat2, None))
    by (eexists; vm_compute; reflexivity).
  destruct H2 as [sat2 H2].
  destruct (parsers_agree 64 _ _ _ tt tt Sample.getGravConst Sample.getGravConstV2
              Sample.line1 Sample.line2 Sample.GravityKnown sat2)
    as (sat1 & H1 & _ & _ & _ & _ & Hsat & Hyr & _ & _ & _ & _ & _ & _ & Hecc
        & _ & _ & Hno).
  - right. reflexivity.
  - intros c _. exists tt. reflexivity.
  - exact H2.
  - exists sat1, sat2. repeat split; assumption.
Defined.

(** ** The further properties on concrete lines *)

Lemma strict_mirrors_validating_witness :
  (exists sat,
     Sample.ParseTLE Sample.line1 Sample.line2 Sample.GravityKnown = Return sat /\
     Sample.ParseTLEV2 Sample.line1 Sample.line2 Sample.GravityKnown
       = Return (Some sat, None)) /\
  (exists e cause,
     Sample.ParseTLEV2 Sample.line1_badyear Sample.line2 Sample.GravityKnown
       = Return (None, Some e) /\
     Sample.ParseTLE Sample.line1_badyear Sample.line2 Sample.GravityKnown
       = Panic (LogPanic cause)).
Proof.
  split.
  - assert (H2 : exists sat,
               Sample.ParseTLEV2 Sample.line1 Sample.line2 Sample.GravityKnown
                 = Return (Some sat, None))
      by (eexists; vm_compute; reflexivity).
    destruct H2 as [sat H2]. exists sat.
    destruct (strict_mirrors_validating 64 _ _ _ tt tt Sample.getGravConst
                Sample.getGravConstV2 Sample.line1 Sample.line2 Sample.GravityKnown tt
                (or_intror eq_refl) eq_refl eq_refl) as (Hiff & _).
    split; [apply Hiff; exact H2|exact H2].
  - assert (H2 : exists e,
               Sample.ParseTLEV2 Sample.line1_badyear Sample.line2 Sample.GravityKnown
                 = Return (None, Some e))
      by (eexists; vm_compute; reflexivity).
    destruct H2 as [e H2]. exists e.
    destruct (strict_mirrors_validating 64 _ _ _ tt tt Sample.getGravConst
                Sample.getGravConstV2 Sample.line1_badyear Sample.line2
                Sample.GravityKnown tt (or_intror eq_refl) eq_refl eq_refl)
      as (_ & Herr & _).
    destruct (Herr None e H2) as (_ & f & cause & _ & Hp).
    exists cause. split; [exact H2|exact Hp].
Defined.

Lemma converters_correspond_witness :
  exists sat,
    Sample.TLEToSatV2 Sample.line1 Sample.line2 Sample.GravityKnown
      = Return (Some sat, None) /\
    Sample.TLEToSat Sample.line1 Sample.line2 Sample.GravityKnown = Return sat.
Proof.
  assert (H2 : exists sat,
             Sample.TLEToSatV2 Sample.line1 Sample.line2 Sample.GravityKnown
               = Return (Some sat, None))
    by (eexists; vm_compute; reflexivity).
  destruct H2 as [sat H2]. exists sat. split; [exact H2|].
  destruct (converters_correspond 64 _ _ _ _ tt tt (fun n : Z => n) Sample.getGravConst
              Sample.getGravConstV2 Sample.days2mdhms Sample.JDay Sample.sgp4init
              Sample.line1 Sample.line2 Sample.GravityKnown tt
              (or_intror eq_refl) eq_refl eq_refl) as (Hiff & _).
  apply Hiff. exact H2.
Defined.

Lemma record_or_error_witness :
  exists r e,
    Sample.ParseTLEV2 Sample.line1_badyear Sample.line2 Sample.GravityKnown
      = Return (r, e) /\
    ((exists sat, r = Some sat /\ e = None) \/ (r = None /\ exists e', e = Some e')).
Proof.
  assert (H2 : exists r e,
             Sample.ParseTLEV2 Sample.line1_badyear Sample.line2 Sample.GravityKnown
               = Return (r, e))
    by (do 2 eexists; vm_compute; reflexivity).
  destruct H2 as (r & e & H2). exists r, e. split; [exact H2|].
  apply (record_or_error 64 _ _ _ _ tt tt (fun n : Z => n) Sample.getGravConstV2
           Sample.days2mdhms Sample.JDay Sample.sgp4init
           Sample.line1_badyear Sample.line2 Sample.GravityKnown r e).
  left. exact H2.
Defined.

Lemma selector_comes_first_witness :
  Sample.ParseTLEV2 "" "" Sample.GravityUnknown
    = Return (None, Some (ErrorString "not a valid gravity model")) /\
  Sample.TLEToSatV2 "" "" Sample.GravityUnknown
    = Return (None, Some (ErrorString "not a valid gravity model")) /\
  Sample.ParseTLE "" "" Sample.GravityUnknown
    = Panic (Fault "not a valid gravity model").
Proof.
  destruct (selector_comes_first 64 _ _ _ _ tt tt (fun n : Z => n) Sample.getGravConst
              Sample.getGravConstV2 Sample.days2mdhms Sample.JDay Sample.sgp4init
              "" "" Sample.GravityUnknown) as (H1 & _ & H3).
  destruct (H1 tt _ eq_refl) as [Ha Hb]. destruct (H3 _ eq_refl) as [Hc _].
  split; [exact Ha|]. split; [exact Hb|exact Hc].
Defined.

Lemma integer_fields_bounded_witness :
  exists sat,
    Sample.ParseTLEV2 Sample.line1 Sample.line2 Sample.GravityKnown
      = Return (Some sat, None) /\
    -9999 <= satnum sat <= 99999 /\ -9 <= epochyr sat <= 99 /\
    1957 <= fullYear (epochyr sat) <= 2056 /\
    int 64 (fullYear (epochyr sat)) = fullYear (epochyr sat).
Proof.
  assert (H2 : exists sat,
             Sample.ParseTLEV2 Sample.line1 Sample.line2 Sample.GravityKnown
               = Return (Some sat, None))
    by (eexists; vm_compute; reflexivity).
  destruct H2 as [sat H2]. exists sat. split; [exact H2|].
  apply (integer_fields_bounded 64 _ _ _ tt tt Sample.getGravConst Sample.getGravConstV2
           Sample.line1 Sample.line2 Sample.GravityKnown sat (or_intror eq_refl)).
  right. exact H2.
Defined.

Lemma space_left_is_defect_witness :
  rawText Finclo Sample.line1 Sample.line2_spaces = Return "   1.000" /\
  (forall sat,
     Sample.ParseTLE Sample.line1 Sample.line2_spaces Sample.GravityKnown
       <> Return sat) /\
  (forall sat err,
     Sample.ParseTLEV2 Sample.line1 Sample.line2_spaces Sample.GravityKnown
       <> Return (Some sat, err)).
Proof.
  split; [reflexivity|].
  destruct (space_left_is_defect 64 _ _ _ tt tt Sample.getGravConst Sample.getGravConstV2
              Sample.line1 Sample.line2_spaces Sample.GravityKnown Finclo "   1.000"
              (or_intror eq_refl) eq_refl ltac:(cbn; lia)) as (_ & H1 & H2).
  split; [exact H1|exact H2].
Defined.


Lemma integer_fields_digits_witness :
  exists sat,
    Sample.ParseTLEV2 (Sample.patch Sample.line1 2 " 123 ") Sample.line2
      Sample.GravityKnown = Return (Some sat, None) /\
    satnum sat = 123 /\ epochyr sat = 8.
Proof.
  assert (H2 : exists sat,
             Sample.ParseTLEV2 (Sample.patch Sample.line1 2 " 123 ") Sample.line2
               Sample.GravityKnown = Return (Some sat, None))
    by (eexists; vm_compute; reflexivity).
  destruct H2 as [sat H2]. exists sat. split; [exact H2|].
  destruct (integer_fields_digits 64 _ _ _ tt tt Sample.getGravConst
              Sample.getGravConstV2 (Sample.patch Sample.line1 2 " 123 ") Sample.line2
              Sample.GravityKnown sat (or_intror eq_refl) (or_intror H2)) as [Hs Hy].
  split.
  - apply (Hs 1%nat 1%nat "123"); [reflexivity|reflexivity|cbn; lia].
  - apply (Hy "08"); reflexivity.
Defined.

Lemma floats_finite_unless_spelled_witness :
  exists sat,
    Sample.ParseTLEV2 Sample.line1 Sample.line2 Sample.GravityKnown
      = Return (Some sat, None) /\
    is_finite (epochdays sat) = true /\ is_finite (nddot sat) = true /\
    is_finite (bstar sat) = true /\ is_finite (ecco sat) = true.
Proof.
  assert (H2 : exists sat,
             Sample.ParseTLEV2 Sample.line1 Sample.line2 Sample.GravityKnown
               = Return (Some sat, None))
    by (eexists; vm_compute; reflexivity).
  destruct H2 as [sat H2]. exists sat. split; [exact H2|].
  destruct (floats_finite_unless_spelled 64 _ _ _ tt tt Sample.getGravConst
              Sample.getGravConstV2 Sample.line1 Sample.line2 Sample.GravityKnown)
    as [_ H].
  repeat split.
  - apply (H sat Fepochdays _ (or_intror H2) eq_refl). left. reflexivity.
  - apply (H sat Fnddot _ (or_intror H2) eq_refl). right. left. reflexivity.
  - apply (H sat Fbstar _ (or_intror H2) eq_refl). right. right. left. reflexivity.
  - apply (H sat Fecco _ (or_intror H2) eq_refl). right. right. right. reflexivity.
Defined.

Lemma infinity_and_nan_accepted_witness :
  exists sat x,
    Sample.ParseTLEV2 Sample.line1 (Sample.patch Sample.line2 8 "Infinity")
      Sample.GravityKnown = Return (Some sat, None) /\
    strconv.ParseFloat "Infinity" = (x, None) /\ is_finite x = false /\
    fieldValue Finclo sat = inr x.
Proof.
  assert (H2 : exists sat,
             Sample.ParseTLEV2 Sample.line1 (Sample.patch Sample.line2 8 "Infinity")
               Sample.GravityKnown = Return (Some sat, None))
    by (eexists; vm_compute; reflexivity).
  destruct H2 as [sat H2]. exists sat.
  destruct (infinity_and_nan_accepted 64 _ _ _ tt tt Sample.getGravConst
              Sample.getGravConstV2 Sample.line1 (Sample.patch Sample.line2 8 "Infinity")
              Sample.GravityKnown Finclo "Infinity" eq_refl eq_refl)
    as (x & Hx & Hfin & _ & _ & Hv).
  - cbn. tauto.
  - exists x. split; [exact H2|]. split; [exact Hx|]. split; [exact Hfin|].
    apply Hv. exact H2.
Defined.

Lemma parseInt_fits_int_witness :
  (parseInt 32 "2147483647" = Return 2147483647 /\
   - 2 ^ (32 - 1) <= 2147483647 < 2 ^ (32 - 1)) /\
  (exists e, parseInt 32 "2147483648" = Panic (LogPanic e) /\
             snd (strconv.ParseInt 32 "2147483648" 0) = Some e) /\
  parseInt 64 "2147483648" = Return 2147483648.
Proof.
  destruct (parseInt_fits_int 32 "2147483647" (or_introl eq_refl)) as [H1 _].
  destruct (parseInt_fits_int 32 "2147483648" (or_introl eq_refl)) as [_ H2].
  split; [|split].
  - split; [reflexivity|]. apply (H1 2147483647). reflexivity.
  - destruct (H2 _ eq_refl) as (e & [= <-] & He). eexists. split; [reflexivity|exact He].
  - reflexivity.
Defined.

Lemma trailing_columns_ignored_witness :
  exists sat,
    Sample.ParseTLEV2 Sample.line1 Sample.line2 Sample.GravityKnown
      = Return (Some sat, None) /\
    Sample.ParseTLEV2 (Sample.line1 ++ "0") (Sample.line2 ++ " and more")
      Sample.GravityKnown
      = Return (Some (set_Line1 (Sample.line1 ++ "0")
                        (set_Line2 (Sample.line2 ++ " and more") sat)), None).
Proof.
  assert (H2 : exists sat,
             Sample.ParseTLEV2 Sample.line1 Sample.line2 Sample.GravityKnown
               = Return (Some sat, None))
    by (eexists; vm_compute; reflexivity).
  destruct H2 as [sat H2]. exists sat. split; [exact H2|].
  destruct (trailing_columns_ignored 64 _ _ _ tt tt Sample.getGravConst
              Sample.getGravConstV2 Sample.line1 Sample.line2 "0" " and more"
              Sample.GravityKnown ltac:(vm_compute; lia) ltac:(vm_compute; lia))
    as (_ & _ & H & _).
  apply H. exact H2.
Defined.

Lemma leading_columns_ignored_witness :
  exists sat,
    Sample.ParseTLEV2 ("1 " ++ drop 2 Sample.line1) ("2 25544 " ++ drop 8 Sample.line2)
      Sample.GravityKnown = Return (Some sat, None) /\
    Sample.ParseTLEV2 ("9 " ++ drop 2 Sample.line1) ("2 00007 " ++ drop 8 Sample.line2)
      Sample.GravityKnown
      = Return (Some (set_Line1 ("9 " ++ drop 2 Sample.line1)
                        (set_Line2 ("2 00007 " ++ drop 8 Sample.line2) sat)), None).
Proof.
  assert (H2 : exists sat,
             Sample.ParseTLEV2 ("1 " ++ drop 2 Sample.line1)
               ("2 25544 " ++ drop 8 Sample.line2) Sample.GravityKnown
               = Return (Some sat, None))
    by (eexists; vm_compute; reflexivity).
  destruct H2 as [sat H2]. exists sat. split; [exact H2|].
  destruct (leading_columns_ignored 64 _ _ _ tt tt Sample.getGravConst
              Sample.getGravConstV2 "1 " "9 " (drop 2 Sample.line1)
              "2 25544 " "2 00007 " (drop 8 Sample.line2) Sample.GravityKnown
              eq_refl eq_refl eq_refl eq_refl)
    as (_ & _ & H & _).
  apply H. exact H2.
Defined.

Lemma long_lines_never_abort_witness :
  exists r e,
    Sample.ParseTLEV2 Sample.line1_badyear Sample.line2 Sample.GravityKnown
      = Return (r, e).
Proof.
  destruct (long_lines_never_abort 64 _ _ _ tt tt Sample.getGravConst
              Sample.getGravConstV2 Sample.line1_badyear Sample.line2
              Sample.GravityKnown ltac:(vm_compute; lia) ltac:(vm_compute; lia))
    as (H & _).
  exact (H tt None eq_refl).
Defined.

Lemma eccentricity_below_one_witness :
  exists sat,
    Sample.ParseTLEV2 Sample.line1 Sample.line2 Sample.GravityKnown
      = Return (Some sat, None) /\
    rawText Fecco Sample.line1 Sample.line2 = Return "0006703" /\
    SFleb (F64.zero false) (ecco sat) = true /\
    SFltb (ecco sat) (F64.of_Q 1) = true.
Proof.
  assert (H2 : exists sat,
             Sample.ParseTLEV2 Sample.line1 Sample.line2 Sample.GravityKnown
               = Return (Some sat, None))
    by (eexists; vm_compute; reflexivity).
  destruct H2 as [sat H2]. exists sat. split; [exact H2|]. split; [reflexivity|].
  apply (eccentricity_below_one 64 _ _ _ tt tt Sample.getGravConst Sample.getGravConstV2
           Sample.line1 Sample.line2 Sample.GravityKnown "0006703" sat
           eq_refl eq_refl).
  right. exact H2.
Defined.
